(** * audio-analysis: wavetable synthesis and output formatting

    A shallow embedding of [src/audio_analysis/wavetable.py]
    ([WavetableSynthesizer]), [src/audio_analysis/formatter.py]
    ([OutputFormatter]) and the computations of
    [src/audio_analysis/analyzer.py] that are the analyzer's own, with the
    properties of the specification stated and proved over it.

    Conventions of the embedding.
    - A Python [int] is a [Z]; [//] is [Z.div] (both floor).
    - A finite float64 sample is a real number ([R]) and the arithmetic on
      samples is exact; the result of a division is a [float64], which is
      finite, infinite or NaN, so a division by zero shows.
    - The positions of [np.linspace] are binary64 numbers: every operation
      is rounded to 53 bits, ties to even ([Binary64]); the exponent range
      is not bounded.
    - A 1-D numpy array is a [list]; a 2-D array is a list of rows with
      its column count.
    - A raised exception is [Raise e]; code that writes files threads the
      file system explicitly and returns it also when it raises.
    - [sf.write], [str(Path(p))] and what [np.savez_compressed] does with a
      keyword [allow_pickle] are parameters of the functions that call
      them. *)

From Stdlib Require Import Reals Lra Lia ZArith QArith Qabs Qround Qpower.
From Stdlib Require Import String List.
From Stdlib Require Lqa Floats Uint63.
From stdpp Require Import base gmap strings list.

Open Scope Z_scope.

Set Warnings "-register-all".

(** ** Python exceptions and the error monad *)

Module Py.

Inductive py_error : Type :=
| ValueError
| ZeroDivisionError
| IndexError
| TypeError
| RuntimeError.

Inductive result (A : Type) : Type :=
| Ok (a : A)
| Raise (e : py_error).

Arguments Ok {A} a.
Arguments Raise {A} e.

Definition bind {A B : Type} (m : result A) (k : A -> result B) : result B :=
  match m with
  | Ok a => k a
  | Raise e => Raise e
  end.

Definition returns {A : Type} (m : result A) : Prop :=
  exists a, m = Ok a.

(** [for x in xs: acc = body(acc, x)], stopping at the first exception. *)
Fixpoint for_each {A S : Type} (xs : list A) (body : S -> A -> result S)
    (acc : S) : result S :=
  match xs with
  | [] => Ok acc
  | x :: xs' => bind (body acc x) (for_each xs' body)
  end.

(** [enumerate(xs)], counting from [start]. *)
Fixpoint enumerate_from {A : Type} (start : nat) (xs : list A)
    : list (nat * A) :=
  match xs with
  | [] => []
  | x :: xs' => (start, x) :: enumerate_from (S start) xs'
  end.

Definition enumerate {A : Type} (xs : list A) : list (nat * A) :=
  enumerate_from 0 xs.

(** [[f(x) for x in xs]], stopping at the first exception. *)
Fixpoint map_result {A B : Type} (f : A -> result B) (xs : list A)
    : result (list B) :=
  match xs with
  | [] => Ok []
  | x :: xs' =>
      bind (f x) (fun y => bind (map_result f xs') (fun ys => Ok (y :: ys)))
  end.

(** [range(n)] *)
Definition range (n : Z) : list Z :=
  map Z.of_nat (seq 0 (Z.to_nat n)).

(** [a / b] on ints: true division, [ZeroDivisionError] on a zero divisor. *)
Definition truediv (a b : Z) : result R :=
  if b =? 0 then Raise ZeroDivisionError else Ok (IZR a / IZR b)%R.

(** A slice bound [i] of a sequence of length [len]: negative bounds count
    from the end, and every bound is clipped to [0, len]. *)
Definition clip_index (len : nat) (i : Z) : nat :=
  if i <? 0 then Z.to_nat (Z.max 0 (Z.of_nat len + i))
  else Nat.min len (Z.to_nat i).

(** [l[start:stop]] *)
Definition slice {A : Type} (l : list A) (start stop : Z) : list A :=
  let i := clip_index (length l) start in
  let j := clip_index (length l) stop in
  firstn (j - i) (skipn i l).

End Py.

Import Py.

Notation "'let*' x ':=' m 'in' k" := (Py.bind m (fun x => k))
  (at level 10, x name, m at level 100, k at level 200).

(** ** Complex numbers, as numpy's [complex128] with exact components *)

Module Cplx.

Definition C : Type := (R * R)%type.

Definition C0 : C := (0, 0)%R.
Definition RtoC (x : R) : C := (x, 0%R).
Definition Re (z : C) : R := fst z.
Definition Im (z : C) : R := snd z.
Definition Cconj (z : C) : C := (fst z, - snd z)%R.
Definition Cplus (a b : C) : C := (fst a + fst b, snd a + snd b)%R.
Definition Cmult (a b : C) : C :=
  (fst a * fst b - snd a * snd b, fst a * snd b + snd a * fst b)%R.
Definition Cscale (c : R) (z : C) : C := (c * fst z, c * snd z)%R.
(** [exp(i * theta)] *)
Definition Cexp (theta : R) : C := (cos theta, sin theta).

End Cplx.

Import Cplx.

(** ** Binary64 arithmetic

    A binary64 number is kept as the rational it is. [round] gives the
    binary64 number nearest to a rational, ties to even, and every
    operation is the exact one followed by [round], as IEEE 754 has it.
    [of_float] reads a float of the kernel, whose operations are the
    machine's, as a rational: the examples compare the two. *)

Module Binary64.

(** Round to the nearest integer, ties to even. *)
Definition round_half_even (x : Q) : Z :=
  let f := Qfloor x in
  match (x - inject_Z f ?= 1 # 2)%Q with
  | Lt => f
  | Gt => f + 1
  | Eq => if Z.even f then f else f + 1
  end.

(** The exponent [e] of the last place of a non-zero [q]:
    [2^(e+52) <= |q| < 2^(e+53)]. *)
Definition ulp_exponent (q : Q) : Z :=
  let e := Z.log2 (Z.abs (Qnum q)) - Z.log2 (Z.pos (Qden q)) - 53 in
  if Qle_bool (2 ^ (e + 53)) (Qabs q) then e + 1 else e.

(** The binary64 number nearest to [q]: 53 significant bits. *)
Definition round (q : Q) : Q :=
  if Qeq_bool q 0 then 0%Q
  else
    let e := ulp_exponent q in
    Qred (inject_Z (round_half_even (q / 2 ^ e)) * 2 ^ e)%Q.

Definition of_Z (z : Z) : Q := round (inject_Z z).
Definition add (x y : Q) : Q := round (x + y).
Definition sub (x y : Q) : Q := round (x - y).
Definition mul (x y : Q) : Q := round (x * y).
Definition div (x y : Q) : Q := round (x / y).

(** Half the distance between 1 and the next binary64 number. *)
Definition u53 : Q := 1 # 9007199254740992.

(** A finite float of the kernel as a rational. *)
Definition of_float (x : PrimFloat.float) : Q :=
  match FloatOps.Prim2SF x with
  | SpecFloat.S754_finite s m e =>
      ((if s then -1 else 1) * inject_Z (Z.pos m) * 2 ^ e)%Q
  | _ => 0%Q
  end.

End Binary64.

(** ** The numpy operations the synthesizer calls *)

Module Np.

(** A float64 value as a division gives it: a real number, an infinity (a
    number other than zero divided by zero) or NaN (zero divided by
    zero). *)
Inductive float64 : Type :=
| Finite (x : R)
| Inf (negative : bool)
| NaN.

(** [x / d] for finite [x] and a finite [d] that is not [-0.0]. *)
Definition true_divide (x d : R) : float64 :=
  if Req_EM_T d 0
  then if Req_EM_T x 0 then NaN
       else Inf (if Rlt_dec x 0 then true else false)
  else Finite (x / d).

(** [x * c] for a finite [c]. *)
Definition multiply (x : float64) (c : R) : float64 :=
  match x with
  | Finite a => Finite (a * c)
  | Inf negative =>
      if Req_EM_T c 0 then NaN
      else Inf (if Rlt_dec c 0 then negb negative else negative)
  | NaN => NaN
  end.

(** [np.zeros(n)]: a negative dimension raises [ValueError]. *)
Definition zeros {A : Type} (zero : A) (n : Z) : result (list A) :=
  if n <? 0 then Raise ValueError else Ok (repeat zero (Z.to_nat n)).

(** [np.zeros((rows, cols))] *)
Definition zeros2 {A : Type} (zero : A) (rows cols : Z)
    : result (list (list A)) :=
  if (rows <? 0) || (cols <? 0) then Raise ValueError
  else Ok (repeat (repeat zero (Z.to_nat cols)) (Z.to_nat rows)).

(** Shape check of an assignment [target[...] = v] into [n] cells: [v] has
    [n] elements, or one element that is broadcast; anything else is numpy's
    "could not broadcast input array" [ValueError]. *)
Definition broadcast_to {A : Type} (v : list A) (n : nat) : result (list A) :=
  if (length v =? n)%nat then Ok v
  else match v with
       | [x] => Ok (repeat x n)
       | _ => Raise ValueError
       end.

(** [a[start:stop] = v] *)
Definition assign_slice {A : Type} (a : list A) (start stop : Z)
    (v : list A) : result (list A) :=
  let i := clip_index (length a) start in
  let j := clip_index (length a) stop in
  let* v' := broadcast_to v (j - i) in
  Ok (firstn i a ++ v' ++ skipn (i + (j - i)) a).

(** [m[i] = v] for a row index [i] produced by [range] or [enumerate]. *)
Definition assign_row {A : Type} (m : list (list A)) (i : nat) (v : list A)
    : result (list (list A)) :=
  match m !! i with
  | None => Raise IndexError
  | Some row =>
      let* v' := broadcast_to v (length row) in
      Ok (<[i := v']> m)
  end.

(** [a + b] on 1-D arrays, with numpy's broadcasting of a length-1 operand. *)
Definition add (a b : list R) : result (list R) :=
  if (length a =? length b)%nat then Ok (zip_with Rplus a b)
  else match a, b with
       | [x], _ => Ok (map (fun y => x + y)%R b)
       | _, [y] => Ok (map (fun x => x + y)%R a)
       | _, _ => Raise ValueError
       end.

(** [c * a] for a scalar [c] *)
Definition scale (c : R) (a : list R) : list R := map (Rmult c) a.

(** Maximum of a non-empty sequence. *)
Fixpoint maximum (x : R) (t : list R) : R :=
  match t with
  | [] => x
  | y :: t' => Rmax x (maximum y t')
  end.

(** [np.max(a)]: a zero-size array raises [ValueError]. *)
Definition max (a : list R) : result R :=
  match a with
  | [] => Raise ValueError
  | x :: t => Ok (maximum x t)
  end.

(** [np.abs(a)] *)
Definition abs (a : list R) : list R := map Rabs a.

(** The angle [2 pi k n / N] of the inverse transform's twiddle factor. *)
Definition angle (N k n : nat) : R := (2 * PI * INR k * INR n / INR N)%R.

(** [sum_k X[k] * exp(2 pi i k n / N)], [k] counting from [k0]. *)
Fixpoint idft_sum (N n k0 : nat) (X : list C) : C :=
  match X with
  | [] => C0
  | x :: X' => Cplus (Cmult x (Cexp (angle N k0 n))) (idft_sum N n (S k0) X')
  end.

(** [np.fft.ifft(X)]: the inverse discrete Fourier transform
    [x[n] = (1/N) sum_k X[k] exp(2 pi i k n / N)]; an empty input raises
    [ValueError]. *)
Definition fft_ifft (X : list C) : result (list C) :=
  let N := length X in
  if (N =? 0)%nat then Raise ValueError
  else Ok (map (fun n => Cscale (/ INR N) (idft_sum N n 0 X)) (seq 0 N)).

(** [np.linspace(start, stop, num)] before the cast, as numpy computes it
    in binary64: [start] and [stop] as floats, [delta = stop - start],
    [y = arange(0, num)], then [y * step] with [step = delta / div] (or
    [(y / div) * delta] when the step is zero, and [y * delta] when [div]
    is not positive), [y += start], and the last position set to [stop]
    when [num > 1]. A negative [num] raises [ValueError]. *)
Definition linspace (start stop num : Z) : result (list Q) :=
  if num <? 0 then Raise ValueError
  else
    let div := num - 1 in
    let start := Binary64.of_Z start in
    let stop := Binary64.of_Z stop in
    let delta := Binary64.sub stop start in
    let y := map Binary64.of_Z (range num) in
    let y :=
      if 0 <? div
      then
        let step := Binary64.div delta (Binary64.of_Z div) in
        if Qeq_bool step 0
        then map (fun yi =>
                    Binary64.mul (Binary64.div yi (Binary64.of_Z div)) delta)
               y
        else map (fun yi => Binary64.mul yi step) y
      else map (fun yi => Binary64.mul yi delta) y in
    let y := map (fun yi => Binary64.add yi start) y in
    let y := if 1 <? num
             then firstn (Z.to_nat num - 1) y ++ [stop]
             else y in
    Ok y.

(** [np.linspace(start, stop, num, dtype=int)]: the positions are cast to
    integers, which takes their floor. *)
Definition linspace_int (start stop num : Z) : result (list Z) :=
  let* y := linspace start stop num in
  Ok (map Qfloor y).

(** A 2-D array: its rows, and the length [shape1] of each of them. *)
Record ndarray2 : Type := Ndarray2 {
  shape1 : nat;
  rows : list (list R)
}.

(** [m[:, j]]: an index below zero counts from the end, and an index out of
    range raises [IndexError]. *)
Definition column (m : ndarray2) (j : Z) : result (list R) :=
  let j' := if j <? 0 then j + Z.of_nat (shape1 m) else j in
  if (j' <? 0) || (Z.of_nat (shape1 m) <=? j') then Raise IndexError
  else Ok (map (fun row => nth (Z.to_nat j') row 0%R) (rows m)).

(** A wavetable argument of [save_wavetable]: 1-D or 2-D. *)
Inductive ndarray : Type :=
| Arr1 (a : list R)
| Arr2 (m : ndarray2).

(** [a.reshape(1, -1)] of a 1-D array *)
Definition reshape_1_row (a : list R) : ndarray2 :=
  Ndarray2 (length a) [a].

(** [a.flatten()]: the rows one after the other. *)
Definition flatten (a : ndarray) : list R :=
  match a with
  | Arr1 l => l
  | Arr2 m => concat (rows m)
  end.

End Np.

Import Np.

(** ** The file system

    What the program writes is kept per path. An audio file holds the
    samples, sample rate and container format handed to [sf.write]; the
    feature files are described with the formatter below. Opening and
    writing a feature file are taken to succeed. *)

Module Fs.

Record audio_file : Type := AudioFile {
  samples : list float64;
  samplerate : Z;
  container : string
}.

(** An [sf.write] that accepts every call and stores the file: the library
    in the examples, where a concrete one is needed. *)
Definition store_audio (path : string) (data : list float64)
    (samplerate : Z) (format : string) (fs : gmap string audio_file)
    : result unit * gmap string audio_file :=
  (Ok tt, <[path := AudioFile data samplerate format]> fs).

End Fs.

(** ** [WavetableSynthesizer] *)

Module WavetableSynthesizer.

Record t : Type := Build { sr : Z }.

(** [__init__(self, sr=44100)] *)
Definition init (sr : Z) : t := Build sr.

(** The spectrum laid out for the inverse transform: the part of
    [create_wavetable_from_spectrum] before [np.fft.ifft]. *)
Definition complex_spectrum_of (spectrum : list R) (wavetable_size : Z)
    : result (list C) :=
  let spectrum :=
    if Z.of_nat (length spectrum) >? wavetable_size / 2
    then slice spectrum 0 (wavetable_size / 2)
    else spectrum in
  let* complex_spectrum := zeros C0 wavetable_size in
  let* complex_spectrum :=
    assign_slice complex_spectrum 0 (Z.of_nat (length spectrum))
      (map RtoC spectrum) in
  if wavetable_size >? 1
  then assign_slice complex_spectrum (wavetable_size / 2 + 1)
         (Z.of_nat (length complex_spectrum))
         (map Cconj (rev (slice complex_spectrum 1 (wavetable_size / 2))))
  else Ok complex_spectrum.

(** [np.fft.ifft(complex_spectrum).real] *)
Definition ifft_real (complex_spectrum : list C) : result (list R) :=
  let* x := fft_ifft complex_spectrum in
  Ok (map Re x).

(** The [# Normalize] step: divide by the peak when the peak is positive. *)
Definition normalize (wavetable : list R) : result (list float64) :=
  let* peak := Np.max (Np.abs wavetable) in
  if Rlt_dec 0 peak
  then
    let* peak := Np.max (Np.abs wavetable) in
    Ok (map (fun x => true_divide x peak) wavetable)
  else Ok (map Finite wavetable).

Definition create_wavetable_from_spectrum (spectrum : list R)
    (wavetable_size : Z) : result (list float64) :=
  let* complex_spectrum := complex_spectrum_of spectrum wavetable_size in
  let* wavetable := ifft_real complex_spectrum in
  normalize wavetable.

(** The frame indices [create_wavetable_stack] selects:
    [np.linspace(0, num_frames - 1, num_tables, dtype=int)]. *)
Definition frame_indices (num_frames : nat) (num_tables : Z)
    : result (list Z) :=
  linspace_int 0 (Z.of_nat num_frames - 1) num_tables.

Definition create_wavetable_stack (stft_matrix : ndarray2)
    (num_tables wavetable_size : Z) : result (list (list float64)) :=
  let num_frames := shape1 stft_matrix in
  let* frame_indices := frame_indices num_frames num_tables in
  let* wavetables := zeros2 (Finite 0) num_tables wavetable_size in
  for_each (enumerate frame_indices)
    (fun wavetables '(i, frame_idx) =>
       let* spectrum := column stft_matrix frame_idx in
       let* wavetable :=
         create_wavetable_from_spectrum spectrum wavetable_size in
       assign_row wavetables i wavetable)
    wavetables.

(** The samples [save_wavetable] hands to [sf.write]: the part of it
    before the call. The samples of the argument are finite. *)
Definition samples_to_write (wavetable : ndarray) : result (list float64) :=
  let wavetable :=
    match wavetable with
    | Arr1 a => Arr2 (reshape_1_row a)
    | Arr2 m => Arr2 m
    end in
  let flattened := flatten wavetable in
  let* peak := Np.max (Np.abs flattened) in
  if Rlt_dec 0 peak
  then
    let* peak := Np.max (Np.abs flattened) in
    Ok (map (fun x => multiply (true_divide x peak) 0.9%R) flattened)
  else Ok (map Finite flattened).

Section SaveWavetable.

(** [sf.write(file, data, samplerate, format=format)] of the soundfile
    library: whether it accepts the format and the sample rate, what it
    raises when it does not, and what it leaves on the disk are the
    library's. *)
Variable sf_write :
  string -> list float64 -> Z -> string -> gmap string Fs.audio_file ->
  result unit * gmap string Fs.audio_file.

(** [save_wavetable]: the file system after the call, and whether the call
    returned or raised. *)
Definition save_wavetable (self : t) (wavetable : ndarray)
    (output_path format : string) (fs : gmap string Fs.audio_file)
    : result unit * gmap string Fs.audio_file :=
  match samples_to_write wavetable with
  | Raise e => (Raise e, fs)
  | Ok flattened => sf_write output_path flattened (sr self) format fs
  end.

End SaveWavetable.

Definition morph_wavetables (wavetable1 wavetable2 : list R)
    (num_steps : Z) : result (list (list R)) :=
  let* morphed := zeros2 0%R num_steps (Z.of_nat (length wavetable1)) in
  for_each (range num_steps)
    (fun morphed i =>
       let* alpha := truediv i (num_steps - 1) in
       let* blend :=
         Np.add (scale (1 - alpha)%R wavetable1) (scale alpha wavetable2) in
       assign_row morphed (Z.to_nat i) blend)
    morphed.

(** [np.sin(2 * np.pi * np.arange(wavetable_size) / wavetable_size)];
    [np.arange] of a size below 1 is empty, so nothing is divided then. *)
Definition generate_sine_wavetable (wavetable_size : Z) : list R :=
  map (fun i : Z => sin (2 * PI * IZR i / IZR wavetable_size))%R
    (range wavetable_size).

(** [2 * (np.arange(wavetable_size) / wavetable_size) - 1] *)
Definition generate_saw_wavetable (wavetable_size : Z) : list R :=
  map (fun i : Z => 2 * (IZR i / IZR wavetable_size) - 1)%R
    (range wavetable_size).

(** [np.where(np.arange(wavetable_size) < wavetable_size // 2, 1.0, -1.0)] *)
Definition generate_square_wavetable (wavetable_size : Z) : list R :=
  map (fun i : Z => if i <? wavetable_size / 2 then 1 else -1)%R
    (range wavetable_size).

End WavetableSynthesizer.

(** ** [OutputFormatter] *)

Module OutputFormatter.

(** A numpy array of a feature map: its shape and its elements in row-major
    order. The elements are floats; an integer array is not told apart. *)
Record array : Type := Array {
  shape : list nat;
  data : list R
}.

(** The values of a feature dictionary, by the runtime types the formatter
    tests with [isinstance]. A [bool] is an [int] for Python, and an
    [np.float64] is a [float]; [np.integer] and the other [np.floating]
    types are neither. A dictionary is the list of its items in iteration
    order. *)
Inductive value : Type :=
| Dict (items : list (string * value))
| NdArray (a : array)
| PyList (xs : list value)
| PyTuple (xs : list value)
| PyInt (n : Z)
| PyBool (b : bool)
| PyFloat (x : R)
| NpFloat64 (x : R)
| NpFloat32 (x : R)
| NpInteger (n : Z)
| PyStr (s : string)
| PyNone.

(** Induction over feature values: a dictionary from its values, every
    other value at once. *)
Section ValueInduction.

Variable P : value -> Prop.
Hypothesis HDict :
  forall items, Forall (fun kv => P (snd kv)) items -> P (Dict items).
Hypothesis HLeaf : forall v, (forall items, v <> Dict items) -> P v.

Fixpoint value_dict_ind (v : value) : P v :=
  match v with
  | Dict items =>
      HDict items
        ((fix go (l : list (string * value))
            : Forall (fun kv => P (snd kv)) l :=
            match l with
            | [] => List.Forall_nil _
            | kv :: l' =>
                List.Forall_cons _ kv l' (value_dict_ind (snd kv)) (go l')
            end) items)
  | v' => HLeaf v' ltac:(discriminate)
  end.

End ValueInduction.

(** [d[k] = v] on a dictionary kept as its item list: an existing key keeps
    its place, a new key goes last. *)
Fixpoint dict_set {V : Type} (d : list (string * V)) (k : string) (v : V)
    : list (string * V) :=
  match d with
  | [] => [(k, v)]
  | (k', v') :: d' =>
      if String.eqb k' k then (k, v) :: d' else (k', v') :: dict_set d' k v
  end.

(** [s.endswith(suffix)] *)
Fixpoint endswith (s suffix : string) : bool :=
  String.eqb s suffix
  || match s with
     | EmptyString => false
     | String _ s' => endswith s' suffix
     end.

(** [count] consecutive chunks of [size] elements. *)
Fixpoint chunks (size count : nat) (xs : list R) : list (list R) :=
  match count with
  | O => []
  | S count' => firstn size xs :: chunks size count' (skipn size xs)
  end.

(** [a.tolist()]: nested lists of Python floats following the shape. *)
Fixpoint tolist (shape : list nat) (xs : list R) : value :=
  match shape with
  | [] => PyFloat (hd 0%R xs)
  | n :: shape' =>
      PyList (map (tolist shape')
                (chunks (fold_right Nat.mul 1%nat shape') n xs))
  end.

Fixpoint _convert_numpy_types (obj : value) : value :=
  match obj with
  | NpInteger n => PyInt n
  | NpFloat64 x | NpFloat32 x => PyFloat x
  | NdArray a => tolist (shape a) (data a)
  | Dict items =>
      Dict (map (fun '(key, v) => (key, _convert_numpy_types v)) items)
  | PyList xs | PyTuple xs => PyList (map _convert_numpy_types xs)
  | _ => obj
  end.

(** [np.mean(v)] and [np.std(v)] *)
Definition mean (xs : list R) : R :=
  (fold_right Rplus 0 xs / INR (length xs))%R.

Definition std (xs : list R) : R :=
  sqrt (mean (map (fun x => (x - mean xs) * (x - mean xs))%R xs)).

(** A cell of the CSV file, before [csv.writer] renders it. *)
Inductive cell : Type :=
| CellJoined (xs : list R)
| CellShape (shape : list nat)
| CellFloat (x : R)
| CellValue (v : value).

(** A line of the text file. *)
Inductive txt_line : Type :=
| LineBlank
| LineKey (indent : nat) (key : string)
| LineList (indent : nat) (xs : value)
| LineStats (indent : nat) (shape : list nat) (mean std : R)
| LineValue (indent : nat) (v : value).

(** An array of the NPZ bundle: an array of the feature map as it is,
    [np.array(xs)] of a list or tuple, or [np.array([v])] of a scalar. *)
Inductive npz_array : Type :=
| OfArray (a : array)
| OfSequence (xs : list value)
| OfScalar (v : value).

(** The shape [np.array] finds for a value: a list or tuple is a sequence
    of elements that all have the same shape, an array has its own shape,
    and any other value is a scalar. [None] when the elements differ in
    shape. *)
Fixpoint array_shape (v : value) : option (list nat) :=
  match v with
  | PyList xs | PyTuple xs =>
      match xs with
      | [] => Some [0%nat]
      | x :: rest =>
          match array_shape x with
          | Some s =>
              if forallb (fun y => bool_decide (array_shape y = Some s)) rest
              then Some (length xs :: s)
              else None
          | None => None
          end
      end
  | NdArray a => Some (shape a)
  | _ => Some []
  end.

(** [np.array(value)] of a list or tuple: a nested sequence whose parts
    differ in shape raises [ValueError] ("inhomogeneous shape"; numpy 1.24
    and later). *)
Definition np_array (xs : list value) : result npz_array :=
  match array_shape (PyList xs) with
  | Some _ => Ok (OfSequence xs)
  | None => Raise ValueError
  end.

(** What a written file holds. *)
Inductive file : Type :=
| JsonFile (document : value) (indent : Z)
| CsvFile (header : list string) (rows : list (string * cell))
| NpzFile (arrays : gmap string npz_array)
| TxtFile (lines : list txt_line).

(** [f"{parent}{sep}{k}" if parent else k] *)
Definition join_key (parent sep k : string) : string :=
  match parent with
  | EmptyString => k
  | _ => parent +:+ sep +:+ k
  end.

Definition to_json (data : list (string * value)) (output_path : string)
    (indent : Z) (fs : gmap string file) : result unit * gmap string file :=
  let converted_data := _convert_numpy_types (Dict data) in
  (Ok tt, <[output_path := JsonFile converted_data indent]> fs).

(** One item of [flatten_dict]'s loop in [to_csv]. *)
Fixpoint flatten_item (parent_key k : string) (v : value)
    (flattened : list (string * cell)) {struct v} : list (string * cell) :=
  let new_key := join_key parent_key "." k in
  match v with
  | Dict d =>
      fold_left (fun flattened '(k', v') => flatten_item new_key k' v' flattened)
        d flattened
  | NdArray a =>
      if (length (shape a) =? 1)%nat && (hd 0%nat (shape a) <? 100)%nat
      then dict_set flattened new_key (CellJoined (data a))
      else
        let flattened :=
          dict_set flattened (new_key +:+ ".shape") (CellShape (shape a)) in
        let flattened :=
          dict_set flattened (new_key +:+ ".mean") (CellFloat (mean (data a))) in
        dict_set flattened (new_key +:+ ".std") (CellFloat (std (data a)))
  | _ => dict_set flattened new_key (CellValue v)
  end.

Definition flatten_dict (d : list (string * value)) (parent_key : string)
    (flattened : list (string * cell)) : list (string * cell) :=
  fold_left (fun flattened '(k, v) => flatten_item parent_key k v flattened)
    d flattened.

Definition to_csv (data : list (string * value)) (output_path : string)
    (flatten : bool) (fs : gmap string file) : result unit * gmap string file :=
  let flattened :=
    if flatten then flatten_dict data "" []
    else map (fun '(key, v) => (key, CellValue (_convert_numpy_types v))) data in
  (Ok tt, <[output_path := CsvFile ["Feature"; "Value"] flattened]> fs).

(** One item of [process_dict]'s loop in [to_npz]; an exception of
    [np.array] ends the loop. *)
Fixpoint process_item (prefix key : string) (v : value)
    (arrays : gmap string npz_array) {struct v}
    : result (gmap string npz_array) :=
  let full_key := join_key prefix "_" key in
  match v with
  | Dict d =>
      (fix process_dict (d : list (string * value))
           (arrays : gmap string npz_array) {struct d}
           : result (gmap string npz_array) :=
         match d with
         | [] => Ok arrays
         | (key', v') :: d' =>
             let* arrays := process_item full_key key' v' arrays in
             process_dict d' arrays
         end) d arrays
  | NdArray a => Ok (<[full_key := OfArray a]> arrays)
  | PyList xs | PyTuple xs =>
      let* a := np_array xs in
      Ok (<[full_key := a]> arrays)
  | PyInt _ | PyBool _ | PyFloat _ | NpFloat64 _ =>
      Ok (<[full_key := OfScalar v]> arrays)
  | _ => Ok arrays
  end.

Definition process_dict (d : list (string * value)) (prefix : string)
    (arrays : gmap string npz_array) : result (gmap string npz_array) :=
  for_each d (fun arrays '(key, v) => process_item prefix key v arrays)
    arrays.

Section Savez.

(** What [np.savez_compressed] does when the keywords hold [allow_pickle]:
    from numpy 2.1 on that keyword is a parameter of the function, so its
    value is the flag and not an array of the archive (the parameter gets
    the flag, the path with its extension and the other keywords); before,
    it is an array like any other. *)
Variable savez_allow_pickle :
  npz_array -> string -> gmap string npz_array -> gmap string file ->
  result unit * gmap string file.

(** [np.savez_compressed(file, **arrays)]: the keyword [file] clashes with
    the positional parameter of that name, which is a [TypeError] of the
    call; the archive gets the extension [.npz] when the path lacks it. *)
Definition savez_compressed (path : string) (arrays : gmap string npz_array)
    (fs : gmap string file) : result unit * gmap string file :=
  if bool_decide (is_Some (arrays !! "file")) then (Raise TypeError, fs)
  else
    let path := if endswith path ".npz" then path else path +:+ ".npz" in
    match arrays !! "allow_pickle" with
    | Some flag =>
        savez_allow_pickle flag path (delete "allow_pickle" arrays) fs
    | None => (Ok tt, <[path := NpzFile arrays]> fs)
    end.

Definition to_npz (data : list (string * value)) (output_path : string)
    (fs : gmap string file) : result unit * gmap string file :=
  match process_dict data "" ∅ with
  | Raise e => (Raise e, fs)
  | Ok arrays => savez_compressed output_path arrays fs
  end.

(** [format_value] of [to_txt]; its string is the lines joined by newlines. *)
Fixpoint format_value (v : value) (indent : nat) {struct v} : list txt_line :=
  match v with
  | Dict [] => [LineBlank]
  | Dict items =>
      flat_map (fun '(key, v') =>
                  LineKey indent key :: format_value v' (indent + 1))
        items
  | NdArray a =>
      if (length (shape a) =? 1)%nat && (hd 0%nat (shape a) <=? 10)%nat
      then [LineList indent (tolist (shape a) (data a))]
      else [LineStats indent (shape a) (mean (data a)) (std (data a))]
  | _ => [LineValue indent v]
  end.

Definition to_txt (data : list (string * value)) (output_path : string)
    (fs : gmap string file) : result unit * gmap string file :=
  (Ok tt, <[output_path := TxtFile (format_value (Dict data) 0)]> fs).

(** [str(Path(p))]: pathlib's normal form of a path string. *)
Variable str_Path : string -> string.

Definition save_features (features : list (string * value))
    (output_path format : string) (fs : gmap string file)
    : result string * gmap string file :=
  let output_path := str_Path output_path in
  let output_path :=
    if negb (endswith output_path ("." +:+ format))
    then output_path +:+ "." +:+ format
    else output_path in
  let returning (r : result unit * gmap string file) :=
    match r with
    | (Ok _, fs') => (Ok output_path, fs')
    | (Raise e, fs') => (Raise e, fs')
    end in
  if String.eqb format "json" then returning (to_json features output_path 2 fs)
  else if String.eqb format "csv"
  then returning (to_csv features output_path true fs)
  else if String.eqb format "npz" then returning (to_npz features output_path fs)
  else if String.eqb format "txt" then returning (to_txt features output_path fs)
  else (Raise ValueError, fs).

End Savez.

(** Induction over feature values that also enters lists and tuples. *)
Section ValueDeepInduction.

Variable P : value -> Prop.
Hypothesis HDict :
  forall items, Forall (fun kv => P (snd kv)) items -> P (Dict items).
Hypothesis HList : forall xs, Forall P xs -> P (PyList xs).
Hypothesis HTuple : forall xs, Forall P xs -> P (PyTuple xs).
Hypothesis HScalar :
  forall v,
    (forall items, v <> Dict items) -> (forall xs, v <> PyList xs) ->
    (forall xs, v <> PyTuple xs) -> P v.

Fixpoint value_deep_ind (v : value) : P v :=
  match v with
  | Dict items =>
      HDict items
        ((fix go (l : list (string * value))
            : Forall (fun kv => P (snd kv)) l :=
            match l with
            | [] => List.Forall_nil _
            | kv :: l' =>
                List.Forall_cons _ kv l' (value_deep_ind (snd kv)) (go l')
            end) items)
  | PyList xs =>
      HList xs
        ((fix go (l : list value) : Forall P l :=
            match l with
            | [] => List.Forall_nil _
            | x :: l' => List.Forall_cons _ x l' (value_deep_ind x) (go l')
            end) xs)
  | PyTuple xs =>
      HTuple xs
        ((fix go (l : list value) : Forall P l :=
            match l with
            | [] => List.Forall_nil _
            | x :: l' => List.Forall_cons _ x l' (value_deep_ind x) (go l')
            end) xs)
  | v' =>
      HScalar v' ltac:(discriminate) ltac:(discriminate) ltac:(discriminate)
  end.

End ValueDeepInduction.

(** The values [json.dump] takes: dictionaries and lists of such values,
    and Python's own ints, bools, floats, strings and [None]; no numpy
    scalar, no array, no tuple. *)
Fixpoint is_native (v : value) : bool :=
  match v with
  | Dict items => forallb (fun kv => is_native (snd kv)) items
  | PyList xs => forallb is_native xs
  | PyInt _ | PyBool _ | PyFloat _ | PyStr _ | PyNone => true
  | _ => false
  end.

End OutputFormatter.

(** ** [AudioAnalyzer]

    The analysis primitives are librosa's; what the analyzer computes from
    their results is modelled over those results. *)

Module AudioAnalyzer.

(** [a.argmax()] of a 1-D array: the first index of the greatest element;
    an empty array raises [ValueError]. *)
Fixpoint argmax_from (best_index : nat) (best : R) (i : nat) (a : list R)
    : nat :=
  match a with
  | [] => best_index
  | x :: a' =>
      if Rlt_dec best x then argmax_from i x (S i) a'
      else argmax_from best_index best (S i) a'
  end.

Definition argmax (a : list R) : result nat :=
  match a with
  | [] => Raise ValueError
  | x :: a' => Ok (argmax_from 0 x 1 a')
  end.

(** [m[i, t]] for indices that are not negative. *)
Definition item (m : ndarray2) (i t : nat) : result R :=
  match rows m !! i with
  | None => Raise IndexError
  | Some row => if (t <? shape1 m)%nat then Ok (nth t row 0%R)
                else Raise IndexError
  end.

(** The loop of [extract_pitch_features] over the results [pitches] and
    [magnitudes] of [librosa.piptrack]: for each frame, the pitch at the
    bin of greatest magnitude. *)
Definition pitch_track (pitches magnitudes : ndarray2) : result (list R) :=
  for_each (range (Z.of_nat (shape1 pitches)))
    (fun pitch_values t =>
       let* column := column magnitudes t in
       let* index := argmax column in
       let* pitch := item pitches index (Z.to_nat t) in
       Ok (pitch_values ++ [pitch]))
    [].

(** [np.min(a)] and [np.max(a)] of the statistics: a zero-size array raises
    [ValueError]. *)
Fixpoint minimum (x : R) (t : list R) : R :=
  match t with
  | [] => x
  | y :: t' => Rmin x (minimum y t')
  end.

Definition np_min (a : list R) : result R :=
  match a with
  | [] => Raise ValueError
  | x :: t => Ok (minimum x t)
  end.

(** The block [{'mean': ..., 'std': ..., 'min': ..., 'max': ...}] of
    [get_summary_statistics] for one feature. *)
Definition statistics (a : list R) : result (list (string * R)) :=
  let mean := OutputFormatter.mean a in
  let std := OutputFormatter.std a in
  let* min := np_min a in
  let* max := Np.max a in
  Ok [("mean"%string, mean); ("std"%string, std); ("min"%string, min);
      ("max"%string, max)].

(** [p > 0] on a float. *)
Definition positive (p : R) : bool := if Rlt_dec 0 p then true else false.

(** [get_summary_statistics], over the features it reads: the spectral
    centroid and the RMS energy (all their elements, whatever the shape),
    the tempo that [extract_temporal_features] wraps as [np.array([tempo])]
    and that is read back with [[0]], and the pitch track. *)
Definition get_summary_statistics
    (spectral_centroid rms : list R) (tempo : R) (pitch_track : list R)
    : result (list (string * list (string * R))) :=
  let summary := [] in
  let* stats := statistics spectral_centroid in
  let summary := summary ++ [("spectral_centroid"%string, stats)] in
  let* stats := statistics rms in
  let summary := summary ++ [("rms"%string, stats)] in
  let summary := summary ++ [("tempo"%string, [("value"%string, tempo)])] in
  let non_zero_pitches :=
    List.filter positive pitch_track in
  if (0 <? length non_zero_pitches)%nat
  then
    let* stats := statistics non_zero_pitches in
    Ok (summary ++ [("pitch"%string, stats)])
  else Ok summary.

(** A summary as the feature dictionary handed to the formatter. *)
Definition summary_features (summary : list (string * list (string * R)))
    : list (string * OutputFormatter.value) :=
  map (fun '(name, stats) =>
         (name,
          OutputFormatter.Dict
            (map (fun '(stat, x) => (stat, OutputFormatter.PyFloat x))
               stats)))
    summary.

End AudioAnalyzer.

Import WavetableSynthesizer.

(** ** Definitions for the statements

    The specification's wording where it differs from the code
    ([nearest_integer], [selects_nearest_inclusive]), and names for the
    intermediate values of the code that the theorems speak about. *)

(** [z] is an integer nearest to the position [q]. *)
Definition nearest_integer (q : Q) (z : Z) : Prop :=
  forall z' : Z, (Qabs (q - inject_Z z) <= Qabs (q - inject_Z z'))%Q.

(** The selection as the specification words it: every selected index is
    an integer nearest to its evenly spaced position, and the first and the
    last frame are among the selected ones. *)
Definition selects_nearest_inclusive (num_frames : nat) (num_tables : Z)
    : Prop :=
  exists idx pos,
    frame_indices num_frames num_tables = Ok idx
    /\ linspace 0 (Z.of_nat num_frames - 1) num_tables = Ok pos
    /\ Forall2 nearest_integer pos idx
    /\ In 0 idx /\ In (Z.of_nat num_frames - 1) idx.

(** The floor of the exact position [i * (num_frames - 1) / (num_tables - 1)]
    of step [i]. *)
Definition floor_index (num_frames : nat) (num_tables i : Z) : Z :=
  if num_tables =? 1 then 0
  else (i * (Z.of_nat num_frames - 1)) / (num_tables - 1).

(** The position [np.linspace] computes for step [i], before the last
    position is set to [stop]. *)
Definition linspace_position (start stop num i : Z) : Q :=
  let div := num - 1 in
  let start := Binary64.of_Z start in
  let stop := Binary64.of_Z stop in
  let delta := Binary64.sub stop start in
  let yi := Binary64.of_Z i in
  Binary64.add
    (if 0 <? div
     then
       let step := Binary64.div delta (Binary64.of_Z div) in
       if Qeq_bool step 0
       then Binary64.mul (Binary64.div yi (Binary64.of_Z div)) delta
       else Binary64.mul yi step
     else Binary64.mul yi delta)
    start.

(** The exact position of step [i] is a whole number. *)
Definition whole_position (num_frames : nat) (num_tables i : Z) : Prop :=
  (i * (Z.of_nat num_frames - 1)) mod (num_tables - 1) = 0.

(** [np.linspace(0, stop, num, dtype=int)] on the floats of the kernel, for
    [num >= 2] and a positive [stop]: the machine's own binary64
    operations, to compare [linspace_int] with. *)
Definition kernel_linspace_int (stop num : Z) : list Z :=
  let float_of (z : Z) := PrimFloat.of_uint63 (Uint63.of_Z z) in
  let step := PrimFloat.div (float_of stop) (float_of (num - 1)) in
  map (fun i => Qfloor (Binary64.of_float (PrimFloat.mul (float_of i) step)))
    (range (num - 1))
  ++ [stop].

(** The waveform of [normalize] as real numbers: the samples divided by
    their peak when the peak is positive. [normalize] returns these
    values, all of them finite. *)
Definition peak_normalized (wavetable : list R) : result (list R) :=
  let* peak := Np.max (Np.abs wavetable) in
  if Rlt_dec 0 peak
  then
    let* peak := Np.max (Np.abs wavetable) in
    Ok (map (fun x => x / peak)%R wavetable)
  else Ok wavetable.

(** The waveform of [create_wavetable_from_spectrum] as real numbers. *)
Definition waveform (spectrum : list R) (wavetable_size : Z)
    : result (list R) :=
  let* complex_spectrum := complex_spectrum_of spectrum wavetable_size in
  let* wavetable := ifft_real complex_spectrum in
  peak_normalized wavetable.

(** The samples of [samples_to_write] as real numbers. *)
Definition headroom_samples (wavetable : ndarray) : result (list R) :=
  let flattened :=
    match wavetable with
    | Arr1 a => a
    | Arr2 m => concat (rows m)
    end in
  let* peak := Np.max (Np.abs flattened) in
  if Rlt_dec 0 peak
  then
    let* peak := Np.max (Np.abs flattened) in
    Ok (map (fun x => x / peak * 0.9)%R flattened)
  else Ok flattened.

(** A sample is a finite number within [lo, hi]. *)
Definition finite_within (lo hi : R) (x : float64) : Prop :=
  exists a, x = Finite a /\ (lo <= a <= hi)%R.

(** The linear blend [(1 - alpha) * A + alpha * B], sample by sample. *)
Definition linear_blend (alpha : R) (A B : list R) : list R :=
  zip_with (fun x y => (1 - alpha) * x + alpha * y)%R A B.

(** The sample sequence of a wavetable argument: a 1-D array as it is, a
    stack as its tables one after the other. *)
Definition table_samples (wavetable : ndarray) : list R :=
  match wavetable with
  | Arr1 a => a
  | Arr2 m => concat (rows m)
  end.

(** The spectrum cut to [wavetable_size // 2] bins and padded with zeros to
    [wavetable_size] bins: [complex_spectrum] before the mirror step. *)
Definition padded_spectrum (spectrum : list R) (wavetable_size : Z)
    : list C :=
  let kept := firstn (Z.to_nat (wavetable_size / 2)) spectrum in
  map RtoC kept ++ repeat C0 (Z.to_nat wavetable_size - length kept).

(** The leaves of a nested feature dictionary with their flattened keys, in
    iteration order: what [process_dict] visits. *)
Fixpoint leaves_item (prefix key : string) (v : OutputFormatter.value)
    {struct v} : list (string * OutputFormatter.value) :=
  let full_key := OutputFormatter.join_key prefix "_" key in
  match v with
  | OutputFormatter.Dict d =>
      flat_map (fun '(key', v') => leaves_item full_key key' v') d
  | _ => [(full_key, v)]
  end.

Definition leaves (d : list (string * OutputFormatter.value))
    (prefix : string) : list (string * OutputFormatter.value) :=
  flat_map (fun '(key, v) => leaves_item prefix key v) d.

(** A leaf that [np.array] takes: every leaf but a list or tuple whose
    parts differ in shape. *)
Definition convertible (v : OutputFormatter.value) : bool :=
  match v with
  | OutputFormatter.PyList xs | OutputFormatter.PyTuple xs =>
      bool_decide
        (is_Some (OutputFormatter.array_shape (OutputFormatter.PyList xs)))
  | _ => true
  end.

(** The array a leaf is saved as, for the types that are saved: a numpy
    array as it is, a list or tuple converted, an int or float wrapped in a
    one-element array; [None] for a leaf of any other type. *)
Definition npz_entry (v : OutputFormatter.value)
    : option OutputFormatter.npz_array :=
  match v with
  | OutputFormatter.NdArray a => Some (OutputFormatter.OfArray a)
  | OutputFormatter.PyList xs | OutputFormatter.PyTuple xs =>
      Some (OutputFormatter.OfSequence xs)
  | OutputFormatter.PyInt _ | OutputFormatter.PyBool _
  | OutputFormatter.PyFloat _ | OutputFormatter.NpFloat64 _ =>
      Some (OutputFormatter.OfScalar v)
  | _ => None
  end.

(** One step of filling the bundle: an included leaf is stored under its
    flattened key, any other leaf changes nothing. *)
Definition store_leaf (arrays : gmap string OutputFormatter.npz_array)
    (leaf : string * OutputFormatter.value)
    : gmap string OutputFormatter.npz_array :=
  match npz_entry (snd leaf) with
  | Some e => <[fst leaf := e]> arrays
  | None => arrays
  end.

(** Filling the bundle from the leaves in order: [np.array] raises
    [ValueError] at a list or tuple it does not take, and nothing is kept;
    otherwise every leaf has been stored. *)
Definition store_leaves (L : list (string * OutputFormatter.value))
    (arrays : gmap string OutputFormatter.npz_array)
    : result (gmap string OutputFormatter.npz_array) :=
  if forallb (fun leaf => convertible (snd leaf)) L
  then Ok (fold_left store_leaf L arrays)
  else Raise ValueError.

(** The format selectors [save_features] recognizes. *)
Definition recognized_formats : list string :=
  ["json"; "csv"; "npz"; "txt"]%string.

(** The path [save_features] writes to and returns: the normalized path,
    with [.format] appended unless it ends with it already. *)
Definition target_path (normalized format : string) : string :=
  if negb (OutputFormatter.endswith normalized ("." +:+ format))
  then normalized +:+ "." +:+ format
  else normalized.

(** [save_features] after a writer: the path is returned when the writer
    returned, and the writer's exception goes on to the caller. *)
Definition returning_path (path : string)
    (r : result unit * gmap string OutputFormatter.file)
    : result string * gmap string OutputFormatter.file :=
  match r with
  | (Ok _, fs') => (Ok path, fs')
  | (Raise e, fs') => (Raise e, fs')
  end.

(** The wavetable [create_wavetable_stack] builds for frame [j]. *)
Definition table_of_frame (stft_matrix : ndarray2) (wavetable_size : Z)
    (j : Z) : result (list float64) :=
  let* spectrum := column stft_matrix j in
  create_wavetable_from_spectrum spectrum wavetable_size.

(** The same wavetable as real numbers. *)
Definition waveform_of_frame (stft_matrix : ndarray2) (wavetable_size : Z)
    (j : Z) : result (list R) :=
  let* spectrum := column stft_matrix j in
  waveform spectrum wavetable_size.

(** The rows [to_csv] makes of a nested feature dictionary, in iteration
    order, before a row replaces an earlier one of the same key: a small
    1-D array is one row, any other array is the three rows of its shape,
    mean and deviation, any other leaf is one row. *)
Fixpoint rows_item (parent_key k : string) (v : OutputFormatter.value)
    {struct v} : list (string * OutputFormatter.cell) :=
  let new_key := OutputFormatter.join_key parent_key "." k in
  match v with
  | OutputFormatter.Dict d =>
      flat_map (fun '(k', v') => rows_item new_key k' v') d
  | OutputFormatter.NdArray a =>
      if (length (OutputFormatter.shape a) =? 1)%nat
         && (hd 0%nat (OutputFormatter.shape a) <? 100)%nat
      then [(new_key, OutputFormatter.CellJoined (OutputFormatter.data a))]
      else
        [(new_key +:+ ".shape",
          OutputFormatter.CellShape (OutputFormatter.shape a));
         (new_key +:+ ".mean",
          OutputFormatter.CellFloat
            (OutputFormatter.mean (OutputFormatter.data a)));
         (new_key +:+ ".std",
          OutputFormatter.CellFloat
            (OutputFormatter.std (OutputFormatter.data a)))]
  | _ => [(new_key, OutputFormatter.CellValue v)]
  end.

Definition rows_of (d : list (string * OutputFormatter.value))
    (parent_key : string) : list (string * OutputFormatter.cell) :=
  flat_map (fun '(k, v) => rows_item parent_key k v) d.

(** Storing rows one after the other in the dictionary [flattened]. *)
Definition set_rows (rows flattened : list (string * OutputFormatter.cell))
    : list (string * OutputFormatter.cell) :=
  fold_left
    (fun flattened row => OutputFormatter.dict_set flattened (fst row) (snd row))
    rows flattened.

(** A numpy before 2.1 on a keyword [allow_pickle]: an array like any
    other. *)
Definition savez_keeps_allow_pickle (flag : OutputFormatter.npz_array)
    (path : string) (arrays : gmap string OutputFormatter.npz_array)
    (fs : gmap string OutputFormatter.file)
    : result unit * gmap string OutputFormatter.file :=
  (Ok tt,
   <[path := OutputFormatter.NpzFile (<["allow_pickle" := flag]> arrays)]> fs).

(** An [np.savez_compressed] that, given the keyword [allow_pickle],
    either writes an archive at the path or raises and writes nothing, and
    does the same whatever files are already there. *)
Definition savez_writes_archive
    (savez : OutputFormatter.npz_array -> string ->
             gmap string OutputFormatter.npz_array ->
             gmap string OutputFormatter.file ->
             result unit * gmap string OutputFormatter.file) : Prop :=
  forall flag path arrays,
    (exists kept, forall fs,
        savez flag path arrays fs
        = (Ok tt, <[path := OutputFormatter.NpzFile kept]> fs))
    \/ (exists e, forall fs, savez flag path arrays fs = (Raise e, fs)).

(** The format a written file is in. *)
Definition format_of (f : OutputFormatter.file) : string :=
  match f with
  | OutputFormatter.JsonFile _ _ => "json"
  | OutputFormatter.CsvFile _ _ => "csv"
  | OutputFormatter.NpzFile _ => "npz"
  | OutputFormatter.TxtFile _ => "txt"
  end.

(** [m[i][t]] of a matrix given by its rows. *)
Definition entry (m : ndarray2) (i t : nat) : R :=
  nth t (nth i (rows m) []) 0%R.

(** A matrix of [bins] rows and [frames] columns. *)
Definition has_shape (m : ndarray2) (bins frames : nat) : Prop :=
  length (rows m) = bins /\ shape1 m = frames
  /\ Forall (fun row => length row = frames) (rows m).

(** * Properties *)

(** ** Frame selection of [create_wavetable_stack] *)

Section FrameSelection.

Lemma length_range (n : Z) : length (range n) = Z.to_nat n.
Proof. unfold range. now rewrite length_map, length_seq. Qed.

Lemma range_succ (n : Z) : 0 <= n -> range (n + 1) = range n ++ [n].
Proof.
  intros Hn. unfold range.
  replace (Z.to_nat (n + 1)) with (S (Z.to_nat n)) by lia.
  rewrite seq_S, map_app. simpl. now rewrite Z2Nat.id.
Qed.

Lemma In_range (n i : Z) : In i (range n) <-> 0 <= i < n.
Proof.
  unfold range. rewrite in_map_iff. split.
  - intros (k & <- & Hk). apply in_seq in Hk. lia.
  - intros Hi. exists (Z.to_nat i). split; [lia|]. apply in_seq. lia.
Qed.

Lemma nth_error_range_map {B : Type} (f : Z -> B) (n : Z) (i : nat) :
  Z.of_nat i < n -> nth_error (map f (range n)) i = Some (f (Z.of_nat i)).
Proof.
  intros Hi. unfold range. rewrite map_map, nth_error_map, nth_error_seq.
  destruct (Nat.ltb_spec i (Z.to_nat n)) as [_|H]; [reflexivity|lia].
Qed.

Lemma range_cons (n : Z) :
  0 <= n -> range (n + 1) = 0 :: map Z.succ (range n).
Proof.
  intros Hn. unfold range.
  replace (Z.to_nat (n + 1)) with (S (Z.to_nat n)) by lia.
  cbn [seq map]. f_equal. rewrite <- seq_shift, !map_map.
  apply map_ext. intros i. lia.
Qed.

End FrameSelection.

(** ** Binary64 rounding *)

Section Rounding.

Import Lqa.
Import Binary64.

Open Scope Q_scope.

Lemma round_half_even_error (x : Q) :
  Qabs (inject_Z (round_half_even x) - x) <= 1 # 2.
Proof.
  unfold round_half_even.
  pose proof (Qfloor_le x) as Hlo. pose proof (Qlt_floor x) as Hhi.
  rewrite inject_Z_plus in Hhi. change (inject_Z 1) with 1 in Hhi.
  set (f := Qfloor x) in *.
  destruct (Qcompare_spec (x - inject_Z f) (1 # 2)) as [E|E|E].
  - destruct (Z.even f).
    + apply Qabs_Qle_condition. split; lra.
    + rewrite inject_Z_plus. change (inject_Z 1) with 1.
      apply Qabs_Qle_condition. split; lra.
  - apply Qabs_Qle_condition. split; lra.
  - rewrite inject_Z_plus. change (inject_Z 1) with 1.
    apply Qabs_Qle_condition. split; lra.
Qed.

Lemma pow2_pos (e : Z) : 0 < 2 ^ e.
Proof. apply Qpower_0_lt. reflexivity. Qed.

Lemma pow2_Z (n : Z) : (0 <= n)%Z -> 2 ^ n == inject_Z (2 ^ n).
Proof. intros Hn. rewrite Zpower_Qpower by exact Hn. reflexivity. Qed.

Lemma log2_bounds (a : Z) :
  (0 < a)%Z ->
  inject_Z a < 2 ^ (Z.log2 a + 1) /\ 2 ^ Z.log2 a <= inject_Z a.
Proof.
  intros Ha. pose proof (Z.log2_spec a Ha) as [Hlo Hhi].
  pose proof (Z.log2_nonneg a) as Hn.
  rewrite !pow2_Z by lia. rewrite <- Zlt_Qlt, <- Zle_Qle.
  replace (Z.log2 a + 1)%Z with (Z.succ (Z.log2 a)) by lia. auto.
Qed.

(** [ulp_exponent] finds the binade of [q]: the rounding is to 53 bits. *)
Lemma ulp_exponent_spec (q : Q) :
  ~ q == 0 ->
  2 ^ (ulp_exponent q + 52) <= Qabs q /\ Qabs q < 2 ^ (ulp_exponent q + 53).
Proof.
  intros Hq. unfold ulp_exponent.
  set (a := Z.abs (Qnum q)). set (b := Z.pos (Qden q)).
  assert (Ha : (0 < a)%Z).
  { unfold a. destruct q as [n d]. cbn. unfold Qeq in Hq. cbn in Hq. lia. }
  assert (Hb : (0 < b)%Z) by (unfold b; lia).
  destruct (log2_bounds a Ha) as [Ha_hi Ha_lo].
  destruct (log2_bounds b Hb) as [Hb_hi Hb_lo].
  set (la := Z.log2 a) in *. set (lb := Z.log2 b) in *.
  assert (Habs : Qabs q * inject_Z b == inject_Z a).
  { destruct q as [n d]. unfold a, b, Qabs, Qeq, Qmult, inject_Z. cbn. lia. }
  assert (Hbq : 0 < inject_Z b) by (rewrite <- (Zlt_Qlt 0); exact Hb).
  set (e := (la - lb - 53)%Z).
  assert (Hlow : 2 ^ (e + 52) < Qabs q).
  { apply (Qmult_lt_r _ _ (inject_Z b) Hbq). rewrite Habs.
    apply Qlt_le_trans with (2 ^ la); [|exact Ha_lo].
    apply Qlt_le_trans with (2 ^ (e + 52) * 2 ^ (lb + 1)).
    - apply Qmult_lt_l; [apply pow2_pos|exact Hb_hi].
    - rewrite <- Qpower_plus by discriminate.
      replace (e + 52 + (lb + 1))%Z with la by (unfold e; lia).
      apply Qle_refl. }
  assert (Hhigh : Qabs q < 2 ^ (e + 54)).
  { apply (Qmult_lt_r _ _ (inject_Z b) Hbq). rewrite Habs.
    apply Qlt_le_trans with (2 ^ (la + 1)); [exact Ha_hi|].
    apply Qle_trans with (2 ^ (e + 54) * 2 ^ lb).
    - rewrite <- Qpower_plus by discriminate.
      replace (e + 54 + lb)%Z with (la + 1)%Z by (unfold e; lia).
      apply Qle_refl.
    - apply Qmult_le_l; [apply pow2_pos|exact Hb_lo]. }
  destruct (Qle_bool (2 ^ (e + 53)) (Qabs q)) eqn:E.
  - apply Qle_bool_iff in E. split.
    + replace (e + 1 + 52)%Z with (e + 53)%Z by lia. exact E.
    + replace (e + 1 + 53)%Z with (e + 54)%Z by lia. exact Hhigh.
  - split; [apply Qlt_le_weak; exact Hlow|].
    apply Qnot_le_lt. intros H. apply Qle_bool_iff in H. congruence.
Qed.

Lemma pow2_52 (e : Z) : 2 ^ (e + 52) == 4503599627370496 * 2 ^ e.
Proof.
  rewrite Qpower_plus by discriminate. rewrite Qmult_comm.
  apply Qmult_comp; [|reflexivity]. rewrite pow2_Z by lia. reflexivity.
Qed.

(** Rounding moves a number by at most [2^-53] of its magnitude. *)
Lemma round_error (q : Q) : Qabs (round q - q) <= Qabs q * u53.
Proof.
  unfold round. destruct (Qeq_bool q 0) eqn:E0.
  - apply Qeq_bool_eq in E0. rewrite E0. cbn. discriminate.
  - assert (Hq : ~ q == 0) by (now apply Qeq_bool_neq).
    destruct (ulp_exponent_spec q Hq) as [Hlo _].
    set (e := ulp_exponent q) in *.
    pose proof (pow2_pos e) as Hp.
    pose proof (round_half_even_error (q / 2 ^ e)) as Herr.
    set (m := inject_Z (round_half_even (q / 2 ^ e))) in *.
    rewrite Qred_correct.
    assert (Hne : ~ 2 ^ e == 0) by lra.
    assert (Hdiff : m * 2 ^ e - q == (m - q / 2 ^ e) * 2 ^ e)
      by (field; exact Hne).
    rewrite Hdiff, Qabs_Qmult, (Qabs_pos (2 ^ e)) by lra.
    rewrite pow2_52 in Hlo. unfold u53.
    apply Qle_trans with ((1 # 2) * 2 ^ e).
    + apply Qmult_le_compat_r; [exact Herr|lra].
    + lra.
Qed.

Lemma ulp_exponent_unique (x : Q) (e e' : Z) :
  2 ^ (e + 52) <= x -> x < 2 ^ (e + 53) ->
  2 ^ (e' + 52) <= x -> x < 2 ^ (e' + 53) -> e = e'.
Proof.
  intros H1 H2 H3 H4.
  assert (Ha : 2 ^ (e + 52) < 2 ^ (e' + 53)) by lra.
  assert (Hb : 2 ^ (e' + 52) < 2 ^ (e + 53)) by lra.
  apply Qpower_lt_compat_l_inv in Ha; [|reflexivity].
  apply Qpower_lt_compat_l_inv in Hb; [|reflexivity]. lia.
Qed.

Lemma round_half_even_comp (x y : Q) :
  x == y -> round_half_even x = round_half_even y.
Proof.
  intros E. unfold round_half_even. rewrite (Qfloor_comp x y E).
  assert (Ec : (x - inject_Z (Qfloor y) ?= 1 # 2)
               = (y - inject_Z (Qfloor y) ?= 1 # 2))
    by (now rewrite E).
  now rewrite Ec.
Qed.

(** Equal rationals round to the same fraction. *)
Lemma round_comp (q q' : Q) : q == q' -> round q = round q'.
Proof.
  intros E. unfold round. rewrite (Qeqb_comp q q' E 0 0 (Qeq_refl 0)).
  destruct (Qeq_bool q' 0) eqn:E0; [reflexivity|].
  assert (Hq' : ~ q' == 0) by (now apply Qeq_bool_neq).
  assert (Hq : ~ q == 0) by (now rewrite E).
  destruct (ulp_exponent_spec q Hq) as [H1 H2].
  destruct (ulp_exponent_spec q' Hq') as [H3 H4].
  assert (Habs : Qabs q == Qabs q') by (now rewrite E).
  assert (Hee : ulp_exponent q = ulp_exponent q').
  { apply (ulp_exponent_unique (Qabs q')); try assumption.
    - now rewrite <- Habs.
    - now rewrite <- Habs. }
  rewrite Hee. apply Qred_complete.
  rewrite (round_half_even_comp (q / 2 ^ ulp_exponent q')
             (q' / 2 ^ ulp_exponent q')) by (now rewrite E).
  reflexivity.
Qed.

Lemma round_half_even_Z (x : Q) (k : Z) :
  x == inject_Z k -> round_half_even x = k.
Proof.
  intros E. rewrite (round_half_even_comp _ _ E). unfold round_half_even.
  rewrite Qfloor_Z.
  assert (Ec : (inject_Z k - inject_Z k ?= 1 # 2) = Lt).
  { apply Qlt_alt.
    assert (E0 : inject_Z k - inject_Z k == 0) by ring.
    rewrite E0. reflexivity. }
  now rewrite Ec.
Qed.

(** An integer below [2^53] in magnitude is a binary64 number. *)
Lemma round_Z (z : Z) :
  (Z.abs z < 2 ^ 53)%Z -> round (inject_Z z) == inject_Z z.
Proof.
  intros Hz. unfold round. destruct (Qeq_bool (inject_Z z) 0) eqn:E0.
  - apply Qeq_bool_eq in E0. now rewrite E0.
  - assert (Hq : ~ inject_Z z == 0) by (now apply Qeq_bool_neq).
    destruct (ulp_exponent_spec _ Hq) as [Hlo _].
    set (e := ulp_exponent (inject_Z z)) in *.
    assert (He : (e <= 0)%Z).
    { destruct (Z_le_gt_dec e 0) as [H|H]; [exact H|exfalso].
      assert (Hp : 2 ^ 53 <= 2 ^ (e + 52))
        by (apply Qpower_le_compat_l; [lia|discriminate]).
      assert (Habs : Qabs (inject_Z z) == inject_Z (Z.abs z)).
      { unfold Qabs, inject_Z. cbn. reflexivity. }
      rewrite Habs in Hlo.
      assert (Hlt : inject_Z (Z.abs z) < 2 ^ 53).
      { rewrite pow2_Z by lia. now rewrite <- Zlt_Qlt. }
      lra. }
    rewrite Qred_correct.
    assert (Hpow : 2 ^ e == / inject_Z (2 ^ (- e))).
    { replace e with (- - e)%Z at 1 by lia.
      rewrite Qpower_opp, pow2_Z by lia. reflexivity. }
    assert (Hpos : 0 < inject_Z (2 ^ (- e))).
    { rewrite <- pow2_Z by lia. apply pow2_pos. }
    assert (Hint : inject_Z z / 2 ^ e == inject_Z (z * 2 ^ (- e))).
    { rewrite Hpow, inject_Z_mult. field. lra. }
    rewrite (round_half_even_Z _ _ Hint), inject_Z_mult, Hpow.
    field. lra.
Qed.

Lemma round_bounds (q : Q) :
  0 <= q -> q * (1 - u53) <= round q <= q * (1 + u53).
Proof.
  intros Hq. pose proof (round_error q) as H.
  rewrite (Qabs_pos q Hq) in H. apply Qabs_Qle_condition in H. lra.
Qed.

Lemma round_nonneg (q : Q) : 0 <= q -> 0 <= round q.
Proof.
  intros Hq. destruct (round_bounds q Hq) as [H _].
  assert (Hu : 0 <= 1 - u53) by (unfold u53; lra).
  apply Qle_trans with (q * (1 - u53)); [|exact H].
  apply Qmult_le_0_compat; assumption.
Qed.

Lemma round_pos (q : Q) : 0 < q -> 0 < round q.
Proof.
  intros Hq. destruct (round_bounds q) as [H _]; [lra|].
  assert (Hu : 0 < 1 - u53) by (unfold u53; lra).
  apply Qlt_le_trans with (q * (1 - u53)); [|exact H].
  apply Qmult_lt_0_compat; assumption.
Qed.

(** The rounding agrees with the machine's: the quotient and the product
    behind frame 7 of 15 tables from 123 frames, on the floats of the
    kernel and here. *)
Example round_agrees_with_kernel :
  let float_of (z : Z) := PrimFloat.of_uint63 (Uint63.of_Z z) in
  of_float (PrimFloat.div (float_of 122%Z) (float_of 14%Z))
  == div (of_Z 122) (of_Z 14)
  /\ of_float
       (PrimFloat.mul (float_of 7%Z)
          (PrimFloat.div (float_of 122%Z) (float_of 14%Z)))
     == mul (of_Z 7) (div (of_Z 122) (of_Z 14))
  /\ Qfloor (mul (of_Z 7) (div (of_Z 122) (of_Z 14))) = 60%Z
  /\ of_float (PrimFloat.div (float_of 1%Z) (float_of 10%Z))
     == round (1 # 10).
Proof.
  cbv zeta. split; [|split; [|split]].
  - apply Qeq_bool_eq. vm_compute. reflexivity.
  - apply Qeq_bool_eq. vm_compute. reflexivity.
  - vm_compute. reflexivity.
  - apply Qeq_bool_eq. vm_compute. reflexivity.
Qed.

End Rounding.

(** ** The positions of [np.linspace] *)

Section FramePositions.

Import Lqa.
Import Binary64.

Lemma firstn_range (k n : Z) :
  0 <= k <= n -> firstn (Z.to_nat k) (range n) = range k.
Proof.
  intros Hk. unfold range. rewrite firstn_map, take_seq.
  now replace (Z.to_nat k `min` Z.to_nat n)%nat with (Z.to_nat k) by lia.
Qed.

(** [linspace] position by position. *)
Lemma linspace_eq (start stop num : Z) :
  0 <= num ->
  linspace start stop num
  = Ok (if 1 <? num
        then map (linspace_position start stop num) (range (num - 1))
             ++ [of_Z stop]
        else map (linspace_position start stop num) (range num)).
Proof.
  intros Hnum. unfold linspace.
  destruct (num <? 0) eqn:Eneg; [apply Z.ltb_lt in Eneg; lia|]. f_equal.
  assert (Hy :
    map (fun yi => add yi (of_Z start))
      (if 0 <? num - 1
       then
         if Qeq_bool (div (sub (of_Z stop) (of_Z start)) (of_Z (num - 1))) 0
         then map (fun yi =>
                     mul (div yi (of_Z (num - 1)))
                       (sub (of_Z stop) (of_Z start)))
                (map of_Z (range num))
         else map (fun yi =>
                     mul yi
                       (div (sub (of_Z stop) (of_Z start))
                          (of_Z (num - 1))))
                (map of_Z (range num))
       else map (fun yi => mul yi (sub (of_Z stop) (of_Z start)))
              (map of_Z (range num)))
    = map (linspace_position start stop num) (range num)).
  { unfold linspace_position.
    destruct (0 <? num - 1);
      [destruct (Qeq_bool
                   (div (sub (of_Z stop) (of_Z start)) (of_Z (num - 1))) 0)|];
      rewrite !map_map; reflexivity. }
  cbv zeta. rewrite Hy. destruct (1 <? num) eqn:E1; [|reflexivity].
  apply Z.ltb_lt in E1. f_equal. rewrite firstn_map. f_equal.
  replace (Z.to_nat num - 1)%nat with (Z.to_nat (num - 1)) by lia.
  apply firstn_range. lia.
Qed.

Lemma floor_of_Z (z : Z) : Z.abs z < 2 ^ 53 -> Qfloor (of_Z z) = z.
Proof.
  intros Hz. unfold of_Z. rewrite (Qfloor_comp _ _ (round_Z z Hz)).
  apply Qfloor_Z.
Qed.

(** Step 0 is at position 0, whatever the sizes. *)
Lemma linspace_position_0 (stop num : Z) :
  linspace_position 0 stop num 0 = 0%Q.
Proof.
  unfold linspace_position. change (of_Z 0) with 0%Q.
  set (delta := sub (of_Z stop) 0).
  assert (Hzero : forall x, mul 0 x = 0%Q).
  { intros x. unfold mul. rewrite (round_comp (0 * x) 0); [reflexivity|].
    ring. }
  assert (Hadd : add 0 0 = 0%Q) by reflexivity.
  destruct (0 <? num - 1).
  - destruct (Qeq_bool (div delta (of_Z (num - 1))) 0).
    + assert (Hdiv : div 0 (of_Z (num - 1)) = 0%Q).
      { unfold div. rewrite (round_comp (0 / of_Z (num - 1)) 0);
          [reflexivity|]. unfold Qdiv. ring. }
      now rewrite Hdiv, Hzero.
    + now rewrite Hzero.
  - now rewrite Hzero.
Qed.

(** The position of step [i] against the exact position [i * d / v]: its
    floor is the exact floor, or one less when the exact position is a
    whole number. *)
Lemma linspace_position_floor (d v i : Z) :
  0 <= d -> 1 <= v -> 0 <= i <= v -> (d + 1) * (v + 1) <= 2 ^ 50 ->
  let P := linspace_position 0 d (v + 1) i in
  0 <= Qfloor P
  /\ (i * d) / v - 1 <= Qfloor P <= (i * d) / v
  /\ ((i * d) mod v <> 0 -> Qfloor P = (i * d) / v).
Proof.
  intros Hd Hv Hi Hsmall P.
  assert (Hd53 : Z.abs d < 2 ^ 53) by nia.
  assert (Hv53 : Z.abs v < 2 ^ 53) by nia.
  assert (Hi53 : Z.abs i < 2 ^ 53) by nia.
  assert (Hdv : d * v <= 2 ^ 50) by nia.
  destruct (Z.eq_dec i 0) as [->|Hi0].
  { unfold P. rewrite linspace_position_0. change (Qfloor 0) with 0.
    rewrite Z.mul_0_l, Zmod_0_l, Zdiv_0_l.
    repeat split; lia. }
  unfold P, linspace_position.
  replace (v + 1 - 1) with v by lia.
  destruct (0 <? v) eqn:E0; [|apply Z.ltb_ge in E0; lia].
  change (of_Z 0) with 0%Q.
  pose proof (round_Z d Hd53) as Hstop. fold (of_Z d) in Hstop.
  pose proof (round_Z v Hv53) as Hdiv. fold (of_Z v) in Hdiv.
  pose proof (round_Z i Hi53) as Hyi. fold (of_Z i) in Hyi.
  set (D := inject_Z d) in *. set (V := inject_Z v) in *.
  set (I := inject_Z i) in *.
  assert (HD : (0 <= D)%Q) by (unfold D; rewrite <- (Zle_Qle 0); lia).
  assert (HV : (1 <= V)%Q) by (unfold V; rewrite <- (Zle_Qle 1); lia).
  assert (HI : (0 <= I)%Q) by (unfold I; rewrite <- (Zle_Qle 0); lia).
  assert (HIV : (I <= V)%Q) by (unfold I, V; rewrite <- Zle_Qle; lia).
  assert (Hdelta : (sub (of_Z d) 0 == D)%Q).
  { unfold sub. rewrite (round_comp (of_Z d - 0) D).
    - apply round_Z. exact Hd53.
    - rewrite Hstop. ring. }
  assert (Hstep : div (sub (of_Z d) 0) (of_Z v) = round (D / V)).
  { unfold div. apply round_comp. now rewrite Hdelta, Hdiv. }
  rewrite Hstep.
  assert (HVne : ~ (V == 0)%Q) by lra.
  set (iv := (/ V)%Q).
  assert (Hiv : (V * iv == 1)%Q) by (unfold iv; field; exact HVne).
  assert (Hiv_pos : (0 < iv)%Q) by (unfold iv; apply Qinv_lt_0_compat; lra).
  assert (HDV : (D * V <= 1125899906842624)%Q).
  { unfold D, V. rewrite <- inject_Z_mult.
    change 1125899906842624%Q with (inject_Z (2 ^ 50)).
    now rewrite <- Zle_Qle. }
  assert (HDiv : (D <= 1125899906842624 * iv)%Q) by nra.
  destruct (Z.eq_dec d 0) as [Hd0|Hd0].
  { (* a single frame: every position is 0 *)
    assert (HD0 : (D == 0)%Q) by (unfold D; now rewrite Hd0).
    assert (Hs0 : round (D / V) = 0%Q).
    { rewrite (round_comp (D / V) 0); [reflexivity|].
      rewrite HD0. unfold Qdiv. ring. }
    rewrite Hs0. change (Qeq_bool 0 0) with true. cbv iota.
    assert (Hm : mul (div (of_Z i) (of_Z v)) (sub (of_Z d) 0) = 0%Q).
    { unfold mul. rewrite (round_comp _ 0); [reflexivity|].
      rewrite Hdelta, HD0. ring. }
    rewrite Hm. change (add 0 0) with 0%Q. change (Qfloor 0) with 0.
    rewrite Hd0, Z.mul_0_r, Zmod_0_l, Zdiv_0_l.
    repeat split; lia. }
  assert (HDpos : (1 <= D)%Q) by (unfold D; rewrite <- (Zle_Qle 1); lia).
  assert (Hx : (0 < D / V)%Q).
  { unfold Qdiv. fold iv. nra. }
  pose proof (round_pos _ Hx) as Hspos.
  destruct (round_bounds (D / V)) as [Hs_lo Hs_hi]; [lra|].
  set (s := round (D / V)) in *.
  destruct (Qeq_bool s 0) eqn:Es;
    [apply Qeq_bool_eq in Es; lra|].
  assert (Ht : mul (of_Z i) s = round (I * s)).
  { unfold mul. apply round_comp. now rewrite Hyi. }
  rewrite Ht.
  assert (HP : add (round (I * s)) 0 = round (round (I * s))).
  { unfold add. apply round_comp. ring. }
  rewrite HP.
  assert (Hw : (0 <= I * s)%Q) by nra.
  destruct (round_bounds (I * s) Hw) as [Ht_lo Ht_hi].
  pose proof (round_nonneg _ Hw) as Htpos.
  destruct (round_bounds (round (I * s)) Htpos) as [HP_lo HP_hi].
  set (t := round (I * s)) in *. set (Pq := round t) in *.
  set (e := (I * (D / V))%Q).
  assert (Hw_lo : (e * (1 - u53) <= I * s)%Q) by (unfold e; nra).
  assert (Hw_hi : (I * s <= e * (1 + u53))%Q) by (unfold e; nra).
  assert (He0 : (0 <= e)%Q) by (unfold e; nra).
  assert (HeD : (e <= D)%Q).
  { unfold e, Qdiv. fold iv.
    assert (H1 : (I * iv <= 1)%Q) by nra. nra. }
  (* the exact position, its floor and its remainder *)
  pose proof (Z.div_mod (i * d) v ltac:(lia)) as Hdm.
  pose proof (Z.mod_pos_bound (i * d) v ltac:(lia)) as Hr.
  set (E := (i * d) / v) in *. set (r := (i * d) mod v) in *.
  assert (HeE : (e == inject_Z E + inject_Z r * iv)%Q).
  { unfold e, Qdiv. fold iv.
    assert (Hid : (I * D == V * inject_Z E + inject_Z r)%Q).
    { unfold I, D, V. rewrite <- !inject_Z_mult, <- inject_Z_plus.
      now rewrite Hdm. }
    assert (Hrw : (I * (D * iv) == (I * D) * iv)%Q) by ring.
    rewrite Hrw, Hid.
    assert (Hrw2 : ((V * inject_Z E + inject_Z r) * iv
                    == (V * iv) * inject_Z E + inject_Z r * iv)%Q) by ring.
    rewrite Hrw2, Hiv. ring. }
  set (rv := (inject_Z r * iv)%Q) in *.
  assert (Hr0 : (0 <= inject_Z r)%Q) by (rewrite <- (Zle_Qle 0); lia).
  assert (Hr1 : (inject_Z r + 1 <= V)%Q).
  { unfold V. change 1%Q with (inject_Z 1).
    rewrite <- inject_Z_plus, <- Zle_Qle. lia. }
  assert (Hrv : (0 <= rv <= 1 - iv)%Q) by (unfold rv; nra).
  unfold u53 in *.
  assert (Hhi : (Pq < inject_Z (E + 1))%Q).
  { rewrite inject_Z_plus. change (inject_Z 1) with 1%Q. lra. }
  assert (Hlo : (inject_Z (E - 1) <= Pq)%Q).
  { unfold Z.sub. rewrite inject_Z_plus. change (inject_Z (- (1))) with (-1)%Q.
    lra. }
  assert (HP0 : (0 <= Pq)%Q) by (apply round_nonneg; exact Htpos).
  pose proof (Qfloor_le Pq) as Hfl.
  split; [|split; [split|]].
  - change 0 with (Qfloor 0). now apply Qfloor_resp_le.
  - rewrite <- (Qfloor_Z (E - 1)). now apply Qfloor_resp_le.
  - assert (Hlt : (inject_Z (Qfloor Pq) < inject_Z (E + 1))%Q) by lra.
    rewrite <- Zlt_Qlt in Hlt. lia.
  - intros Hrne.
    assert (Hr2 : (1 <= inject_Z r)%Q) by (rewrite <- (Zle_Qle 1); lia).
    assert (Hrv2 : (iv <= rv)%Q) by (unfold rv; nra).
    assert (HEP : (inject_Z E <= Pq)%Q) by lra.
    assert (Hge : E <= Qfloor Pq).
    { rewrite <- (Qfloor_Z E). now apply Qfloor_resp_le. }
    assert (Hlt : (inject_Z (Qfloor Pq) < inject_Z (E + 1))%Q) by lra.
    rewrite <- Zlt_Qlt in Hlt. lia.
Qed.

End FramePositions.

(** ** Slices and broadcast assignment *)

Section Slices.

Context {A : Type}.

Lemma clip_index_nonneg (len : nat) (i : Z) :
  0 <= i -> clip_index len i = Nat.min len (Z.to_nat i).
Proof. intros Hi. unfold clip_index. destruct (i <? 0) eqn:E; lia. Qed.

Lemma slice_nonneg (l : list A) (i j : Z) :
  0 <= i -> 0 <= j ->
  slice l i j
  = firstn (Nat.min (length l) (Z.to_nat j) - Nat.min (length l) (Z.to_nat i))
      (skipn (Nat.min (length l) (Z.to_nat i)) l).
Proof. intros Hi Hj. unfold slice. now rewrite !clip_index_nonneg. Qed.

Lemma slice_prefix (l : list A) (j : Z) :
  0 <= j -> slice l 0 j = firstn (Z.to_nat j) l.
Proof.
  intros Hj. rewrite slice_nonneg by lia.
  change (Z.to_nat 0) with 0%nat.
  rewrite Nat.min_0_r, Nat.sub_0_r, skipn_O.
  destruct (Nat.le_ge_cases (length l) (Z.to_nat j)) as [H|H].
  - rewrite Nat.min_l by exact H.
    rewrite (firstn_all2 l H). apply firstn_all.
  - now rewrite Nat.min_r by exact H.
Qed.

Lemma In_take (n : nat) (l : list A) (x : A) : In x (firstn n l) -> In x l.
Proof.
  intros Hx. rewrite <- (firstn_skipn n l). apply in_or_app. now left.
Qed.

Lemma In_drop (n : nat) (l : list A) (x : A) : In x (skipn n l) -> In x l.
Proof.
  intros Hx. rewrite <- (firstn_skipn n l). apply in_or_app. now right.
Qed.

Lemma broadcast_to_same (v : list A) (n : nat) :
  length v = n -> broadcast_to v n = Ok v.
Proof. intros <-. unfold broadcast_to. now rewrite Nat.eqb_refl. Qed.

Lemma broadcast_to_one (x : A) (n : nat) :
  broadcast_to [x] n = Ok (repeat x n).
Proof.
  unfold broadcast_to. destruct (length [x] =? n)%nat eqn:E; [|reflexivity].
  apply Nat.eqb_eq in E. cbn in E. now subst.
Qed.

Lemma broadcast_to_mismatch (v : list A) (n : nat) :
  length v <> n -> length v <> 1%nat -> broadcast_to v n = Raise ValueError.
Proof.
  intros Hn H1. unfold broadcast_to.
  destruct (length v =? n)%nat eqn:E; [apply Nat.eqb_eq in E; lia|].
  destruct v as [|x [|y v]]; try reflexivity. now cbn in H1.
Qed.

Lemma broadcast_to_length (v v' : list A) (n : nat) :
  broadcast_to v n = Ok v' -> length v' = n.
Proof.
  unfold broadcast_to. destruct (length v =? n)%nat eqn:E.
  - intros [= <-]. now apply Nat.eqb_eq.
  - destruct v as [|x [|y v]]; try discriminate.
    intros [= <-]. apply repeat_length.
Qed.

Lemma broadcast_to_In (v v' : list A) (n : nat) (x : A) :
  broadcast_to v n = Ok v' -> In x v' -> In x v.
Proof.
  unfold broadcast_to. destruct (length v =? n)%nat.
  - now intros [= <-].
  - destruct v as [|y [|z v]]; try discriminate.
    intros [= <-] Hx. apply repeat_spec in Hx. subst. now left.
Qed.

End Slices.

(** ** Peak amplitude *)

Section Peak.

Open Scope R_scope.

Lemma maximum_ge (x : R) (t : list R) (y : R) :
  In y (x :: t) -> y <= maximum x t.
Proof.
  revert x y. induction t as [|z t IH]; intros x y Hy; cbn.
  - destruct Hy as [<-|[]]. lra.
  - destruct Hy as [<-|Hy].
    + apply Rmax_l.
    + eapply Rle_trans; [apply (IH z y Hy)|apply Rmax_r].
Qed.

Lemma maximum_In (x : R) (t : list R) : In (maximum x t) (x :: t).
Proof.
  revert x. induction t as [|z t IH]; intros x; cbn.
  - now left.
  - unfold Rmax. destruct (Rle_dec x (maximum z t)).
    + right. apply IH.
    + now left.
Qed.

Lemma maximum_map_monotone (f : R -> R) (x : R) (t : list R) :
  (forall a b, a <= b -> f a <= f b) ->
  maximum (f x) (map f t) = f (maximum x t).
Proof.
  intros Hf. revert x. induction t as [|z t IH]; intros x; cbn.
  - reflexivity.
  - rewrite IH. unfold Rmax.
    destruct (Rle_dec x (maximum z t)) as [Hle|Hgt];
      destruct (Rle_dec (f x) (f (maximum z t))) as [Hle'|Hgt'];
      try reflexivity.
    + exfalso. apply Hgt'. now apply Hf.
    + apply Rle_antisym; [|exact Hle']. apply Hf. lra.
Qed.

Lemma maximum_abs_nonneg (x : R) (t : list R) :
  0 <= maximum (Rabs x) (map Rabs t).
Proof.
  eapply Rle_trans; [apply (Rabs_pos x)|].
  apply maximum_ge. now left.
Qed.

Lemma maximum_abs_zero (x : R) (t : list R) :
  maximum (Rabs x) (map Rabs t) = 0 -> Forall (fun y => y = 0) (x :: t).
Proof.
  intros Hm. apply List.Forall_forall. intros y Hy.
  assert (Hle : Rabs y <= maximum (Rabs x) (map Rabs t)).
  { apply maximum_ge. change (In (Rabs y) (map Rabs (x :: t))).
    now apply in_map. }
  rewrite Hm in Hle. pose proof (Rabs_pos y).
  destruct (Req_dec y 0) as [E|E]; [exact E|].
  apply Rabs_pos_lt in E. lra.
Qed.

Lemma maximum_repeat (x : R) (n : nat) : maximum x (repeat x n) = x.
Proof.
  induction n as [|n IH]; cbn; [reflexivity|].
  rewrite IH. apply Rmax_left. lra.
Qed.

(** Dividing by a positive peak brings the peak to [scale]. *)
Lemma peak_after_rescale (w : list R) (m c : R) :
  Np.max (Np.abs w) = Ok m -> 0 < m -> 0 <= c ->
  Np.max (Np.abs (map (fun x => x / m * c) w)) = Ok c.
Proof.
  intros Hmax Hm Hc. destruct w as [|x t]; [discriminate|].
  cbn in Hmax. injection Hmax as Hmax. cbn. f_equal.
  assert (Habs : forall y, Rabs (y / m * c) = Rabs y / m * c).
  { intros y. unfold Rdiv. rewrite !Rabs_mult.
    rewrite (Rabs_right c) by lra.
    rewrite (Rabs_right (/ m)); [reflexivity|].
    apply Rle_ge. left. now apply Rinv_0_lt_compat. }
  rewrite Habs. unfold Np.abs. rewrite map_map.
  rewrite (map_ext _ (fun y => Rabs y / m * c)) by (intros; apply Habs).
  rewrite <- (map_map Rabs (fun a => a / m * c)).
  rewrite (maximum_map_monotone (fun a => a / m * c)).
  - rewrite Hmax. field. lra.
  - intros a b Hab. apply Rmult_le_compat_r; [exact Hc|].
    unfold Rdiv. apply Rmult_le_compat_r; [|exact Hab].
    left. now apply Rinv_0_lt_compat.
Qed.

End Peak.

(** ** [waveform] *)

Section Reconstructor.

Lemma length_padded_spectrum (spectrum : list R) (wavetable_size : Z) :
  1 <= wavetable_size ->
  length (padded_spectrum spectrum wavetable_size) = Z.to_nat wavetable_size.
Proof.
  intros HN. unfold padded_spectrum.
  rewrite length_app, length_map, repeat_length.
  pose proof (firstn_le_length (Z.to_nat (wavetable_size / 2)) spectrum).
  assert (Z.to_nat (wavetable_size / 2) <= Z.to_nat wavetable_size)%nat.
  { apply Z2Nat.inj_le; try lia. apply Z.div_pos; lia.
    apply Z.div_le_upper_bound; lia. }
  lia.
Qed.

Lemma skipn_repeat_sub (x : C) (n k : nat) :
  skipn k (repeat x n) = repeat x (n - k).
Proof.
  revert n. induction k as [|k IH]; intros n.
  - now rewrite Nat.sub_0_r.
  - destruct n as [|n]; [reflexivity|]. cbn. apply IH.
Qed.

Lemma complex_spectrum_of_unfold (spectrum : list R) (wavetable_size : Z) :
  1 <= wavetable_size ->
  let n := Z.to_nat wavetable_size in
  let h := Z.to_nat (wavetable_size / 2) in
  let X0 := padded_spectrum spectrum wavetable_size in
  complex_spectrum_of spectrum wavetable_size
  = if wavetable_size >? 1
    then
      let* v := broadcast_to
                  (map Cconj (rev (firstn (h - 1) (skipn 1 X0))))
                  (n - (h + 1)) in
      Ok (firstn (h + 1) X0 ++ v)
    else Ok X0.
Proof.
  intros HN n h X0. unfold complex_spectrum_of.
  assert (Hh0 : 0 <= wavetable_size / 2) by (apply Z.div_pos; lia).
  assert (Hhn : (h <= n)%nat).
  { apply Z2Nat.inj_le; try lia. apply Z.div_le_upper_bound; lia. }
  set (kept := firstn h spectrum).
  assert (Hkept : (if Z.of_nat (length spectrum) >? wavetable_size / 2
                   then slice spectrum 0 (wavetable_size / 2)
                   else spectrum) = kept).
  { destruct (Z.of_nat (length spectrum) >? wavetable_size / 2) eqn:E.
    - now apply slice_prefix.
    - unfold kept. symmetry. apply firstn_all2. fold h. lia. }
  rewrite Hkept. clear Hkept.
  assert (Hlk : (length kept <= h)%nat) by apply firstn_le_length.
  unfold zeros. destruct (wavetable_size <? 0) eqn:E; [lia|]. cbn [Py.bind].
  fold n.
  assert (Hfill : assign_slice (repeat C0 n) 0 (Z.of_nat (length kept))
                    (map RtoC kept) = Ok X0).
  { unfold assign_slice. rewrite repeat_length.
    rewrite !clip_index_nonneg by lia.
    change (Z.to_nat 0) with 0%nat. rewrite Nat.min_0_r, Nat2Z.id.
    rewrite (Nat.min_r n (length kept)) by lia.
    rewrite Nat.sub_0_r, broadcast_to_same by apply length_map.
    cbn [Py.bind]. cbn [firstn Nat.add app]. rewrite skipn_repeat_sub.
    reflexivity. }
  rewrite Hfill. cbn [Py.bind].
  destruct (wavetable_size >? 1) eqn:E1; [|reflexivity].
  assert (Hh1 : (h + 1 <= n)%nat).
  { assert (wavetable_size / 2 + 1 <= wavetable_size)
      by (Z.div_mod_to_equations; lia).
    unfold h, n. lia. }
  assert (HX0 : length X0 = n) by now apply length_padded_spectrum.
  unfold assign_slice. rewrite HX0.
  rewrite slice_nonneg by lia. rewrite HX0.
  rewrite !clip_index_nonneg by lia.
  rewrite Nat2Z.id, Nat.min_id.
  replace (Z.to_nat (wavetable_size / 2 + 1)) with (h + 1)%nat by lia.
  change (Z.to_nat 1) with 1%nat. fold h.
  rewrite (Nat.min_r n (h + 1)) by lia.
  rewrite (Nat.min_r n h) by lia.
  rewrite (Nat.min_r n 1) by lia.
  destruct (broadcast_to _ (n - (h + 1))) as [v|e]; cbn [Py.bind];
    [|reflexivity].
  replace (h + 1 + (n - (h + 1)))%nat with n by lia.
  rewrite skipn_all2 by lia. now rewrite app_nil_r.
Qed.

Lemma length_mirror_source (X0 : list C) (h : nat) :
  (h <= length X0)%nat ->
  length (map Cconj (rev (firstn (h - 1) (skipn 1 X0)))) = (h - 1)%nat.
Proof.
  intros Hh. rewrite length_map, length_rev, length_firstn, length_skipn.
  lia.
Qed.

Lemma half_le (wavetable_size : Z) :
  1 <= wavetable_size ->
  (Z.to_nat (wavetable_size / 2) <= Z.to_nat wavetable_size)%nat.
Proof.
  intros HN. assert (0 <= wavetable_size / 2 <= wavetable_size)
    by (Z.div_mod_to_equations; lia).
  lia.
Qed.

(** Even sizes: the mirror step fits, bin for bin. *)
Lemma complex_spectrum_of_even (spectrum : list R) (wavetable_size : Z) :
  0 < wavetable_size -> Z.even wavetable_size = true ->
  let h := Z.to_nat (wavetable_size / 2) in
  let X0 := padded_spectrum spectrum wavetable_size in
  complex_spectrum_of spectrum wavetable_size
  = Ok (firstn (h + 1) X0
        ++ map Cconj (rev (firstn (h - 1) (skipn 1 X0)))).
Proof.
  intros HN Heven h X0.
  assert (Hdiv : wavetable_size = 2 * (wavetable_size / 2)).
  { apply Z.even_spec in Heven. destruct Heven as [k ->].
    now rewrite (Z.mul_comm 2 k), Z.div_mul, Z.mul_comm by lia. }
  rewrite complex_spectrum_of_unfold by lia. cbv zeta. fold h X0.
  destruct (wavetable_size >? 1) eqn:E; [|lia].
  rewrite broadcast_to_same; [reflexivity|].
  rewrite length_mirror_source.
  - unfold h. lia.
  - unfold X0. rewrite length_padded_spectrum by lia.
    apply half_le. lia.
Qed.

(** Odd sizes from 3 on, other than 5: the mirror step assigns
    [(size - 1) / 2 - 1] bins to a slice of [(size - 1) / 2] bins, which
    numpy refuses. *)
Lemma complex_spectrum_of_odd (spectrum : list R) (k : Z) :
  1 <= k -> k <> 2 ->
  complex_spectrum_of spectrum (2 * k + 1) = Raise ValueError.
Proof.
  intros Hk Hk2.
  assert (Hdiv : (2 * k + 1) / 2 = k) by (Z.div_mod_to_equations; lia).
  rewrite complex_spectrum_of_unfold by lia. cbv zeta. rewrite Hdiv.
  destruct (2 * k + 1 >? 1) eqn:E; [|lia].
  rewrite broadcast_to_mismatch; [reflexivity| |];
    rewrite length_mirror_source;
    try (rewrite length_padded_spectrum by lia); lia.
Qed.

(** What a returned complex spectrum is made of. *)
Lemma complex_spectrum_of_elements (spectrum : list R) (wavetable_size : Z)
    (X : list C) :
  1 <= wavetable_size ->
  complex_spectrum_of spectrum wavetable_size = Ok X ->
  let kept := firstn (Z.to_nat (wavetable_size / 2)) spectrum in
  length X = Z.to_nat wavetable_size
  /\ (forall z, In z X ->
        z = C0 \/ z = Cconj C0
        \/ exists x, In x kept /\ (z = RtoC x \/ z = Cconj (RtoC x)))
  /\ (forall x, In x kept -> In (RtoC x) X).
Proof.
  intros HN HX kept.
  pose proof (half_le wavetable_size HN) as Hhalf.
  pose proof (length_padded_spectrum spectrum wavetable_size HN) as HlenX0.
  assert (Hel0 : forall z, In z (padded_spectrum spectrum wavetable_size) ->
                   z = C0 \/ exists x, In x kept /\ z = RtoC x).
  { intros z Hz. unfold padded_spectrum in Hz. apply in_app_or in Hz.
    destruct Hz as [Hz|Hz].
    - apply in_map_iff in Hz. destruct Hz as (x & <- & Hx).
      right. now exists x.
    - left. now apply repeat_spec in Hz. }
  rewrite complex_spectrum_of_unfold in HX by lia. cbv zeta in HX.
  set (h := Z.to_nat (wavetable_size / 2)) in *.
  set (X0 := padded_spectrum spectrum wavetable_size) in *.
  destruct (wavetable_size >? 1) eqn:E.
  - destruct (broadcast_to _ _) as [v|e] eqn:Hv; cbn in HX; [|discriminate].
    injection HX as <-.
    assert (Hh1 : (h + 1 <= Z.to_nat wavetable_size)%nat).
    { assert (wavetable_size / 2 + 1 <= wavetable_size)
        by (Z.div_mod_to_equations; lia).
      unfold h. lia. }
    split; [|split].
    + rewrite length_app, length_firstn, HlenX0.
      rewrite (broadcast_to_length _ _ _ Hv). lia.
    + intros z Hz. apply in_app_or in Hz. destruct Hz as [Hz|Hz].
      * apply In_take in Hz. destruct (Hel0 z Hz) as [->|(x & Hx & ->)].
        -- now left.
        -- right. right. exists x. split; [exact Hx|now left].
      * apply (broadcast_to_In _ _ _ _ Hv) in Hz.
        apply in_map_iff in Hz. destruct Hz as (z0 & <- & Hz0).
        apply in_rev, In_take, In_drop in Hz0.
        destruct (Hel0 z0 Hz0) as [->|(x & Hx & ->)].
        -- right. now left.
        -- right. right. exists x. split; [exact Hx|now right].
    + intros x Hx. apply in_or_app. left.
      unfold X0, padded_spectrum. fold h. fold kept.
      rewrite firstn_app. apply in_or_app. left.
      rewrite firstn_all2.
      * now apply in_map.
      * rewrite length_map. unfold kept.
        pose proof (firstn_le_length h spectrum). lia.
  - injection HX as <-. split; [exact HlenX0|split].
    + intros z Hz. destruct (Hel0 z Hz) as [->|(x & Hx & ->)].
      * now left.
      * right. right. exists x. split; [exact Hx|now left].
    + intros x Hx. unfold X0, padded_spectrum. apply in_or_app. left.
      now apply in_map.
Qed.

Open Scope R_scope.

Lemma idft_sum_zero (N n k : nat) (X : list C) :
  (forall z, In z X -> Re z = 0 /\ Im z = 0) -> idft_sum N n k X = C0.
Proof.
  revert k. induction X as [|x X IH]; intros k HX; cbn; [reflexivity|].
  rewrite IH by (intros z Hz; apply HX; now right).
  destruct (HX x (or_introl eq_refl)) as [Hre Him].
  unfold Re, Im in Hre, Him. unfold Cplus, Cmult, C0. cbn.
  rewrite Hre, Him. f_equal; ring.
Qed.

Lemma Re_idft_sum_first (N k : nat) (X : list C) :
  Re (idft_sum N 0 k X) = fold_right Rplus 0 (map Re X)
  /\ Im (idft_sum N 0 k X) = fold_right Rplus 0 (map Im X).
Proof.
  revert k. induction X as [|x X IH]; intros k; cbn; [now split|].
  destruct (IH (S k)) as [IHre IHim]. unfold Re, Im in *.
  unfold Cplus, Cmult, Cexp. cbn. rewrite IHre, IHim.
  assert (E : angle N k 0 = 0).
  { unfold angle. cbn. unfold Rdiv. ring. }
  rewrite E, cos_0, sin_0. split; ring.
Qed.

Lemma sum_positive (l : list R) :
  Forall (fun x => 0 <= x) l -> Exists (fun x => x <> 0) l ->
  0 < fold_right Rplus 0 l.
Proof.
  intros Hall Hex. induction Hex as [x l Hx|x l Hex IH]; cbn.
  - inversion Hall as [|? ? H0 Hl]; subst.
    assert (0 <= fold_right Rplus 0 l).
    { clear -Hl. induction Hl; cbn; lra. }
    lra.
  - inversion Hall as [|? ? H0 Hl]; subst. specialize (IH Hl). lra.
Qed.

Lemma ifft_real_length (X : list C) (w : list R) :
  ifft_real X = Ok w -> length w = length X.
Proof.
  unfold ifft_real, fft_ifft. destruct (length X =? 0)%nat; [discriminate|].
  cbn. intros [= <-]. now rewrite !length_map, length_seq.
Qed.

Lemma ifft_real_zero (X : list C) :
  X <> [] -> (forall z, In z X -> Re z = 0 /\ Im z = 0) ->
  ifft_real X = Ok (repeat 0 (length X)).
Proof.
  intros Hne HX. unfold ifft_real, fft_ifft.
  destruct (length X =? 0)%nat eqn:E.
  - apply Nat.eqb_eq in E. destruct X; [congruence|discriminate].
  - cbn. f_equal. rewrite map_map.
    rewrite (map_ext _ (fun _ => 0)).
    + clear E. generalize 0%nat. induction (length X) as [|n IH]; intros k; cbn;
        [reflexivity|]. now rewrite IH.
    + intros n. rewrite idft_sum_zero by exact HX. cbn. ring.
Qed.

Lemma ifft_real_first (X : list C) :
  X <> [] ->
  exists rest,
    ifft_real X
    = Ok ((/ INR (length X) * fold_right Rplus 0 (map Re X)) :: rest).
Proof.
  intros Hne. unfold ifft_real, fft_ifft.
  destruct (length X) as [|n] eqn:E.
  - destruct X; [congruence|discriminate].
  - cbn [Nat.eqb Py.bind seq map]. eexists. f_equal. f_equal.
    destruct (Re_idft_sum_first (S n) 0 X) as [Hre _].
    unfold Re in *. cbn. now rewrite Hre.
Qed.

Lemma peak_normalized_zero (n : nat) :
  (1 <= n)%nat ->
  Np.max (Np.abs (repeat 0 n)) = Ok 0
  /\ peak_normalized (repeat 0 n) = Ok (repeat 0 n).
Proof.
  intros Hn. destruct n as [|n]; [lia|].
  assert (Hpeak : Np.max (Np.abs (repeat 0 (S n))) = Ok 0).
  { cbn. f_equal. unfold Np.abs.
    replace (map Rabs (repeat 0 n)) with (repeat (Rabs 0) n).
    - rewrite maximum_repeat. apply Rabs_R0.
    - clear Hn. induction n as [|k IH]; cbn; [reflexivity|]. now rewrite <- IH. }
  split; [exact Hpeak|].
  unfold peak_normalized. rewrite Hpeak. cbn [Py.bind].
  destruct (Rlt_dec 0 0) as [H|H]; [lra|reflexivity].
Qed.

Lemma peak_normalized_nonzero (w : list R) :
  Exists (fun x => x <> 0) w ->
  exists w',
    peak_normalized w = Ok w' /\ length w' = length w
    /\ Np.max (Np.abs w') = Ok 1.
Proof.
  intros Hex. destruct w as [|x t]; [inversion Hex|].
  unfold peak_normalized.
  assert (Hpeak : Np.max (Np.abs (x :: t))
                  = Ok (maximum (Rabs x) (map Rabs t))) by reflexivity.
  rewrite Hpeak. cbn [Py.bind].
  assert (Hpos : 0 < maximum (Rabs x) (map Rabs t)).
  { destruct (Rle_lt_or_eq_dec _ _ (maximum_abs_nonneg x t)) as [H|H];
      [exact H|].
    symmetry in H. apply maximum_abs_zero in H.
    rewrite List.Forall_forall in H. apply List.Exists_exists in Hex.
    destruct Hex as (y & Hy & Hne). now apply H in Hy. }
  destruct (Rlt_dec 0 _) as [_|H]; [|contradiction].
  eexists. split; [reflexivity|]. split; [apply length_map|].
  rewrite (map_ext _ (fun y => y / maximum (Rabs x) (map Rabs t) * 1))
    by (intros; field; lra).
  apply peak_after_rescale; [exact Hpeak|exact Hpos|lra].
Qed.

(** Whenever the mirror step goes through, the waveform has
    [wavetable_size] samples; its peak is 1 when one of the kept bins is
    non-zero, and it is all-zero when the kept bins are. *)
Lemma waveform_cases (spectrum : list R) (wavetable_size : Z)
    (X : list C) :
  (1 <= wavetable_size)%Z ->
  Forall (fun x => 0 <= x) spectrum ->
  complex_spectrum_of spectrum wavetable_size = Ok X ->
  let kept := firstn (Z.to_nat (wavetable_size / 2)) spectrum in
  exists w,
    waveform spectrum wavetable_size = Ok w
    /\ length w = Z.to_nat wavetable_size
    /\ (Exists (fun x => x <> 0) kept -> Np.max (Np.abs w) = Ok 1)
    /\ (Forall (fun x => x = 0) kept ->
        w = repeat 0 (Z.to_nat wavetable_size)
        /\ ifft_real X = Ok w /\ Np.max (Np.abs w) = Ok 0).
Proof.
  intros HN Hnonneg HX kept.
  destruct (complex_spectrum_of_elements _ _ _ HN HX)
    as (Hlen & Hel & Hkept). fold kept in Hel, Hkept.
  assert (Hne : X <> []).
  { intros ->. cbn in Hlen. lia. }
  assert (Hkept_nonneg : Forall (fun x => 0 <= x) kept).
  { apply List.Forall_forall. intros x Hx. apply In_take in Hx.
    rewrite List.Forall_forall in Hnonneg. now apply Hnonneg. }
  unfold waveform. rewrite HX. cbn [Py.bind].
  destruct (List.Exists_dec (fun x => x <> 0) kept) as [Hex|Hnex].
  { intros x. destruct (Req_dec_T x 0); [right|left]; tauto. }
  - (* some kept bin is non-zero: the first sample is positive *)
    destruct (ifft_real_first X Hne) as (rest & Hifft).
    rewrite Hifft. cbn [Py.bind].
    set (x0 := / INR (length X) * fold_right Rplus 0 (map Re X)) in *.
    assert (Hx0 : 0 < x0).
    { unfold x0. apply Rmult_lt_0_compat.
      - apply Rinv_0_lt_compat. apply lt_0_INR. lia.
      - apply sum_positive.
        + apply List.Forall_forall. intros r Hr. apply in_map_iff in Hr.
          destruct Hr as (z & <- & Hz).
          rewrite List.Forall_forall in Hkept_nonneg.
          destruct (Hel z Hz) as [->|[->|(x & Hx & [->| ->])]]; cbn;
            try lra; now apply Hkept_nonneg.
        + apply List.Exists_exists in Hex. destruct Hex as (x & Hx & Hx0).
          apply List.Exists_exists. exists (Re (RtoC x)). split.
          * apply in_map. now apply Hkept.
          * exact Hx0. }
    destruct (peak_normalized_nonzero (x0 :: rest)) as (w & Hw & Hlw & Hpeak).
    { apply Exists_cons_hd. lra. }
    exists w. split; [exact Hw|]. split.
    { rewrite Hlw, (ifft_real_length _ _ Hifft). exact Hlen. }
    split; [intros _; exact Hpeak|].
    intros Hzero. exfalso. apply List.Exists_exists in Hex.
    destruct Hex as (x & Hx & Hx0').
    rewrite List.Forall_forall in Hzero. now apply Hx0', Hzero.
  - (* every kept bin is zero: the transform is all-zero *)
    assert (Hzero : Forall (fun x => x = 0) kept).
    { apply List.Forall_forall. intros x Hx.
      destruct (Req_dec x 0) as [E|E]; [exact E|].
      exfalso. apply Hnex. apply List.Exists_exists. now exists x. }
    assert (HXzero : forall z, In z X -> Re z = 0 /\ Im z = 0).
    { intros z Hz. rewrite List.Forall_forall in Hzero.
      destruct (Hel z Hz) as [->|[->|(x & Hx & [->| ->])]]; cbn;
        try rewrite (Hzero x Hx); split; try reflexivity; ring. }
    rewrite (ifft_real_zero X Hne HXzero). cbn [Py.bind]. rewrite Hlen.
    destruct (peak_normalized_zero (Z.to_nat wavetable_size)) as [Hpk Hnorm];
      [lia|].
    rewrite Hnorm. exists (repeat 0 (Z.to_nat wavetable_size)).
    split; [reflexivity|]. split; [apply repeat_length|].
    split; [intros Hex; contradiction|].
    intros _. rewrite ?Hlen. auto.
Qed.

(** Sizes on which the mirror step goes through. *)
Lemma complex_spectrum_of_returns (spectrum : list R) (wavetable_size : Z) :
  (0 < wavetable_size)%Z ->
  Z.even wavetable_size = true \/ wavetable_size = 1%Z
  \/ wavetable_size = 5%Z ->
  exists X, complex_spectrum_of spectrum wavetable_size = Ok X.
Proof.
  intros HN [Heven|[-> | ->]].
  - eexists. now apply complex_spectrum_of_even.
  - eexists. now rewrite complex_spectrum_of_unfold by lia.
  - rewrite complex_spectrum_of_unfold by lia. cbv zeta.
    change (5 >? 1)%Z with true. cbv iota.
    change (Z.to_nat (5 / 2)) with 2%nat. change (Z.to_nat 5) with 5%nat.
    pose proof (length_mirror_source (padded_spectrum spectrum 5) 2) as Hl.
    rewrite length_padded_spectrum in Hl by lia.
    assert (H25 : (2 <= Z.to_nat 5)%nat) by (cbn; lia).
    specialize (Hl H25).
    destruct (map Cconj _) as [|z [|z' v]]; try discriminate.
    rewrite broadcast_to_one. cbn [Py.bind]. now eexists.
Qed.

(** One unit bin gives the constant waveform:
    [np.fft.ifft([1, 0]) = [0.5, 0.5]], normalized to peak 1. *)
Lemma waveform_constant :
  waveform [1] 2 = Ok [1; 1].
Proof.
  unfold waveform.
  rewrite complex_spectrum_of_even by (lia || reflexivity).
  cbn [Py.bind].
  change (firstn _ _ ++ _) with [(1, 0); (0, 0)].
  assert (Hraw : ifft_real [(1, 0); (0, 0)] = Ok [/ 2; / 2]).
  { unfold ifft_real, fft_ifft. cbn [length Nat.eqb seq map Py.bind idft_sum].
    assert (E : forall n, angle 2 0 n = 0).
    { intros n. unfold angle. cbn [INR]. unfold Rdiv. ring. }
    unfold Re, Cscale, Cplus, Cmult, Cexp, C0. cbn [fst snd].
    rewrite !E, cos_0, sin_0. cbn [INR].
    f_equal. f_equal; [|f_equal]; field. }
  rewrite Hraw. cbn [Py.bind]. unfold peak_normalized. cbn [Np.abs Np.max map maximum].
  assert (Hpeak : Rmax (Rabs (/ 2)) (Rabs (/ 2)) = / 2).
  { rewrite Rmax_left by lra. apply Rabs_right. lra. }
  rewrite Hpeak. cbn [Py.bind].
  destruct (Rlt_dec 0 (/ 2)) as [_|H]; [|lra].
  f_equal. f_equal; [|f_equal]; field.
Qed.

(** The peak of the waveform, over the reals. *)
Lemma waveform_peak (spectrum : list R) (wavetable_size : Z) :
  Forall (fun x => 0 <= x) spectrum ->
  (0 < wavetable_size)%Z -> Z.even wavetable_size = true ->
  let kept := firstn (Z.to_nat (wavetable_size / 2)) spectrum in
  exists w peak,
    waveform spectrum wavetable_size = Ok w
    /\ Z.of_nat (length w) = wavetable_size
    /\ Np.max (Np.abs w) = Ok peak
    /\ peak <= 1
    /\ (Exists (fun x => x <> 0) kept -> peak = 1)
    /\ (Forall (fun x => x = 0) kept -> peak = 0).
Proof.
  intros Hnonneg HN Heven kept.
  destruct (complex_spectrum_of_returns spectrum wavetable_size HN)
    as (X & HX); [now left|].
  assert (H1 : (1 <= wavetable_size)%Z) by lia.
  destruct (waveform_cases _ _ _ H1 Hnonneg HX)
    as (w & Hw & Hlen & Hone & Hzero). fold kept in Hone, Hzero.
  exists w.
  destruct (List.Exists_dec (fun x => x <> 0) kept) as [Hex|Hnex].
  { intros x. destruct (Req_dec_T x 0); [right|left]; tauto. }
  - exists 1. repeat split; try tauto; try lia; try lra.
    intros Hall. apply List.Exists_exists in Hex.
    destruct Hex as (x & Hx & Hx0). rewrite List.Forall_forall in Hall.
    now apply Hall in Hx.
  - assert (Hall : Forall (fun x => x = 0) kept).
    { apply List.Forall_forall. intros x Hx.
      destruct (Req_dec x 0) as [E|E]; [exact E|].
      exfalso. apply Hnex. apply List.Exists_exists. now exists x. }
    exists 0. destruct (Hzero Hall) as (_ & _ & Hpk).
    repeat split; try tauto; try lia; try lra.
Qed.


(** *** The waveform as float64 values

    [normalize] divides only by a positive peak, so every sample it
    returns is finite, and the values are those of [peak_normalized]. *)

Lemma true_divide_finite (x d : R) :
  d <> 0 -> true_divide x d = Finite (x / d).
Proof.
  intros Hd. unfold true_divide. destruct (Req_EM_T d 0); [contradiction|].
  reflexivity.
Qed.


Lemma normalize_finite (wavetable : list R) :
  normalize wavetable
  = let* w := peak_normalized wavetable in Ok (map Finite w).
Proof.
  unfold normalize, peak_normalized.
  destruct (Np.max (Np.abs wavetable)) as [peak|e]; cbn [Py.bind];
    [|reflexivity].
  destruct (Rlt_dec 0 peak) as [Hpos|_]; cbn [Py.bind]; [|reflexivity].
  f_equal. rewrite map_map. apply map_ext. intros x.
  apply true_divide_finite. lra.
Qed.

Lemma create_wavetable_finite (spectrum : list R) (wavetable_size : Z) :
  create_wavetable_from_spectrum spectrum wavetable_size
  = let* w := waveform spectrum wavetable_size in Ok (map Finite w).
Proof.
  unfold create_wavetable_from_spectrum, waveform.
  destruct (complex_spectrum_of spectrum wavetable_size); cbn [Py.bind];
    [|reflexivity].
  destruct (ifft_real a); cbn [Py.bind]; [|reflexivity].
  apply normalize_finite.
Qed.

Lemma create_wavetable_Ok (spectrum : list R) (wavetable_size : Z)
    (v : list float64) :
  create_wavetable_from_spectrum spectrum wavetable_size = Ok v ->
  exists w, waveform spectrum wavetable_size = Ok w /\ v = map Finite w.
Proof.
  rewrite create_wavetable_finite.
  destruct (waveform spectrum wavetable_size) as [w|e]; cbn [Py.bind];
    [|discriminate].
  intros [= <-]. now exists w.
Qed.

Lemma create_wavetable_Raise (spectrum : list R) (wavetable_size : Z)
    (e : py_error) :
  create_wavetable_from_spectrum spectrum wavetable_size = Raise e
  <-> waveform spectrum wavetable_size = Raise e.
Proof.
  rewrite create_wavetable_finite.
  destruct (waveform spectrum wavetable_size) as [w|e']; cbn [Py.bind];
    split; intros H; try discriminate; injection H as ->; reflexivity.
Qed.

(** A run on a concrete spectrum: one unit bin gives the constant waveform
    at peak 1. *)
Example create_wavetable_constant :
  create_wavetable_from_spectrum [1] 2 = Ok [Finite 1; Finite 1].
Proof. now rewrite create_wavetable_finite, waveform_constant. Qed.

(** C1 (amended): for a non-negative spectrum and an even positive
    [wavetable_size] the waveform has exactly [wavetable_size] samples, all
    finite, and a peak absolute amplitude of at most 1; the peak is 1 when
    one of the first [wavetable_size // 2] bins, the ones the code keeps,
    is non-zero, and 0 when all of them are zero. *)
Theorem create_wavetable_peak (spectrum : list R) (wavetable_size : Z) :
  Forall (fun x => 0 <= x) spectrum ->
  (0 < wavetable_size)%Z -> Z.even wavetable_size = true ->
  let kept := firstn (Z.to_nat (wavetable_size / 2)) spectrum in
  exists w peak,
    create_wavetable_from_spectrum spectrum wavetable_size
    = Ok (map Finite w)
    /\ Z.of_nat (length w) = wavetable_size
    /\ Np.max (Np.abs w) = Ok peak
    /\ peak <= 1
    /\ (Exists (fun x => x <> 0) kept -> peak = 1)
    /\ (Forall (fun x => x = 0) kept -> peak = 0).
Proof.
  intros Hnonneg HN Heven kept.
  destruct (waveform_peak spectrum wavetable_size Hnonneg HN Heven)
    as (w & peak & Hw & Hrest).
  exists w, peak. split; [|exact Hrest].
  rewrite create_wavetable_finite, Hw. reflexivity.
Qed.

Lemma create_wavetable_peak_witness :
  exists w peak,
    create_wavetable_from_spectrum [1; 0] 4 = Ok (map Finite w)
    /\ Z.of_nat (length w) = 4%Z
    /\ Np.max (Np.abs w) = Ok peak
    /\ peak <= 1
    /\ (Exists (fun x => x <> 0) [1; 0] -> peak = 1)
    /\ (Forall (fun x => x = 0) [1; 0] -> peak = 0).
Proof.
  apply (create_wavetable_peak [1; 0] 4).
  - repeat constructor; lra.
  - lia.
  - reflexivity.
Defined.

(** C1, as the specification states it, fails: the spectrum [0, 1] is
    non-negative and not all-zero, the size 2 is even and positive, and the
    waveform is all-zero, because only the first [2 // 2 = 1] bin is kept.
    Its peak is 0, not 1. *)
Lemma create_wavetable_peak_not_one :
  Forall (fun x => 0 <= x) [0; 1]
  /\ Exists (fun x => x <> 0) [0; 1]
  /\ Z.even 2 = true
  /\ create_wavetable_from_spectrum [0; 1] 2 = Ok [Finite 0; Finite 0]
  /\ Np.max (Np.abs [0; 0]) = Ok 0
  /\ Np.max (Np.abs [0; 0]) <> Ok 1.
Proof.
  assert (Hnonneg : Forall (fun x => 0 <= x) [0; 1])
    by (repeat constructor; lra).
  split; [exact Hnonneg|].
  split; [apply Exists_cons_tl, Exists_cons_hd; lra|].
  split; [reflexivity|].
  destruct (complex_spectrum_of_returns [0; 1] 2) as (X & HX);
    [lia|now left|].
  assert (H1 : (1 <= 2)%Z) by lia.
  destruct (waveform_cases _ _ _ H1 Hnonneg HX)
    as (w & Hw & _ & _ & Hzero).
  destruct Hzero as (-> & _ & Hpk).
  { repeat constructor. }
  split; [now rewrite create_wavetable_finite, Hw|]. split; [exact Hpk|].
  change (repeat 0 (Z.to_nat 2)) with [0; 0] in Hpk. rewrite Hpk.
  intros [= H]. lra.
Qed.

(** C2: the claim fails on the code; the failing sizes. For every odd
    [wavetable_size] from 3 on, other than 5, and every spectrum, the call
    raises [ValueError] in the mirror step. *)
Theorem create_wavetable_odd_size_raises (spectrum : list R) (k : Z) :
  (1 <= k)%Z -> k <> 2%Z ->
  create_wavetable_from_spectrum spectrum (2 * k + 1) = Raise ValueError.
Proof.
  intros Hk Hk2. unfold create_wavetable_from_spectrum.
  now rewrite complex_spectrum_of_odd.
Qed.

Lemma create_wavetable_odd_size_raises_witness :
  create_wavetable_from_spectrum [1] 3 = Raise ValueError.
Proof. apply (create_wavetable_odd_size_raises [1] 1); lia. Defined.

(** The sizes on which a waveform is returned, for any spectrum. *)
Lemma waveform_nonpositive_size (spectrum : list R) (wavetable_size : Z) :
  (wavetable_size <= 0)%Z ->
  waveform spectrum wavetable_size = Raise ValueError.
Proof.
  intros HN. unfold waveform, complex_spectrum_of, zeros.
  destruct (wavetable_size <? 0)%Z eqn:E; [reflexivity|].
  assert (wavetable_size = 0%Z) as -> by lia.
  destruct spectrum; reflexivity.
Qed.

Lemma waveform_rejects (spectrum : list R) (wavetable_size : Z) :
  ~ ((0 < wavetable_size)%Z
     /\ (Z.even wavetable_size = true \/ wavetable_size = 1%Z
         \/ wavetable_size = 5%Z)) ->
  waveform spectrum wavetable_size = Raise ValueError.
Proof.
  intros Hbad. destruct (Z_le_gt_dec wavetable_size 0) as [Hle|Hgt].
  { now apply waveform_nonpositive_size. }
  destruct (Z.even wavetable_size) eqn:Heven.
  { exfalso. apply Hbad. split; [lia|now left]. }
  assert (Hodd : Z.odd wavetable_size = true)
    by (rewrite <- Z.negb_even, Heven; reflexivity).
  apply Z.odd_spec in Hodd. destruct Hodd as [k ->].
  destruct (Z.eq_dec k 0%Z) as [->|H0];
    [exfalso; apply Hbad; split; [lia|right; now left]|].
  destruct (Z.eq_dec k 2%Z) as [->|H2];
    [exfalso; apply Hbad; split; [lia|right; now right]|].
  unfold waveform. now rewrite complex_spectrum_of_odd by lia.
Qed.




End Reconstructor.

(** ** [create_wavetable_stack] *)

Section Stack.

Lemma frame_indices_negative (num_frames : nat) (num_tables : Z) :
  num_tables < 0 -> frame_indices num_frames num_tables = Raise ValueError.
Proof.
  intros Hneg. unfold frame_indices, linspace_int, linspace.
  destruct (num_tables <? 0) eqn:E; [reflexivity|].
  apply Z.ltb_ge in E. lia.
Qed.

Lemma frame_indices_eq (num_frames : nat) (num_tables : Z) :
  0 <= num_tables ->
  let stop := Z.of_nat num_frames - 1 in
  frame_indices num_frames num_tables
  = Ok (map Qfloor
          (if 1 <? num_tables
           then map (linspace_position 0 stop num_tables)
                  (range (num_tables - 1))
                ++ [Binary64.of_Z stop]
           else map (linspace_position 0 stop num_tables)
                  (range num_tables))).
Proof.
  intros Hnum stop. unfold frame_indices, linspace_int.
  now rewrite linspace_eq by exact Hnum.
Qed.

Lemma frame_indices_length (num_frames : nat) (num_tables : Z)
    (idx : list Z) :
  frame_indices num_frames num_tables = Ok idx ->
  length idx = Z.to_nat num_tables.
Proof.
  destruct (Z_lt_le_dec num_tables 0) as [Hneg|Hnum].
  { now rewrite frame_indices_negative by exact Hneg. }
  rewrite frame_indices_eq by exact Hnum. intros [= <-].
  rewrite length_map. destruct (1 <? num_tables) eqn:E.
  - apply Z.ltb_lt in E.
    rewrite length_app, length_map, length_range. cbn [length]. lia.
  - now rewrite length_map, length_range.
Qed.

(** The first selected frame is frame 0, whatever the sizes. *)
Lemma frame_indices_head (num_frames : nat) (num_tables : Z) :
  1 <= num_tables ->
  exists rest, frame_indices num_frames num_tables = Ok (0 :: rest).
Proof.
  intros Hnum. rewrite frame_indices_eq by lia.
  destruct (1 <? num_tables) eqn:E.
  - apply Z.ltb_lt in E.
    replace (num_tables - 1) with (num_tables - 2 + 1) by lia.
    rewrite range_cons by lia. cbn [map app].
    rewrite linspace_position_0. now eexists.
  - apply Z.ltb_ge in E. assert (num_tables = 1) as -> by lia.
    change (range 1) with [0]. cbn [map].
    rewrite linspace_position_0. now eexists.
Qed.

Lemma peak_normalized_length (w w' : list R) :
  peak_normalized w = Ok w' -> length w' = length w.
Proof.
  unfold peak_normalized. destruct w as [|x t]; [discriminate|]. cbn.
  destruct (Rlt_dec _ _); intros [= <-]; cbn; now rewrite ?length_map.
Qed.

Lemma waveform_length (spectrum : list R) (wavetable_size : Z)
    (w : list R) :
  waveform spectrum wavetable_size = Ok w ->
  length w = Z.to_nat wavetable_size.
Proof.
  unfold waveform.
  destruct (complex_spectrum_of spectrum wavetable_size) as [X|e] eqn:HX;
    cbn [Py.bind]; [|discriminate].
  destruct (ifft_real X) as [raw|e] eqn:Hraw; cbn [Py.bind]; [|discriminate].
  intros Hw. rewrite (peak_normalized_length _ _ Hw), (ifft_real_length _ _ Hraw).
  destruct (Z_lt_le_dec wavetable_size 1) as [Hsmall|Hpos].
  - exfalso. unfold complex_spectrum_of, zeros in HX.
    destruct (wavetable_size <? 0) eqn:E; [discriminate|].
    assert (wavetable_size = 0) as -> by lia.
    destruct spectrum; cbn in HX; injection HX as <-; discriminate.
  - now destruct (complex_spectrum_of_elements _ _ _ Hpos HX) as [Hlen _].
Qed.

Lemma waveform_returns (spectrum : list R) (wavetable_size : Z) :
  0 < wavetable_size ->
  Z.even wavetable_size = true \/ wavetable_size = 1 \/ wavetable_size = 5 ->
  returns (waveform spectrum wavetable_size).
Proof.
  intros HN Hsize.
  destruct (complex_spectrum_of_returns spectrum wavetable_size HN Hsize)
    as (X & HX).
  assert (H1 : 1 <= wavetable_size) by lia.
  destruct (complex_spectrum_of_elements _ _ _ H1 HX) as (Hlen & _).
  assert (Hne : X <> []) by (intros ->; cbn in Hlen; lia).
  destruct (ifft_real_first X Hne) as (rest & Hraw).
  unfold waveform. rewrite HX. cbn [Py.bind].
  rewrite Hraw. cbn [Py.bind]. unfold peak_normalized. cbn.
  destruct (Rlt_dec _ _); now eexists.
Qed.

Lemma waveform_returns_iff (spectrum : list R) (wavetable_size : Z) :
  returns (waveform spectrum wavetable_size)
  <-> 0 < wavetable_size
      /\ (Z.even wavetable_size = true \/ wavetable_size = 1
          \/ wavetable_size = 5).
Proof.
  split.
  - intros [w Hw].
    destruct (Z_le_gt_dec wavetable_size 0) as [Hle|Hgt].
    { rewrite waveform_nonpositive_size in Hw by exact Hle.
      discriminate. }
    split; [lia|].
    destruct (Z.even wavetable_size) eqn:Heven; [now left|right].
    assert (Hodd : Z.odd wavetable_size = true)
      by (rewrite <- Z.negb_even, Heven; reflexivity).
    apply Z.odd_spec in Hodd. destruct Hodd as [k ->].
    destruct (Z.eq_dec k 0) as [->|H0]; [now left|].
    destruct (Z.eq_dec k 2) as [->|H2]; [now right|].
    unfold waveform in Hw.
    rewrite complex_spectrum_of_odd in Hw by lia. discriminate.
  - intros [HN Hsize]. now apply waveform_returns.
Qed.

(** The loop that fills the rows one by one computes the list of the rows. *)
Lemma for_each_assign_rows {A : Type} (zero : A)
    (f : Z -> result (list A)) (L : nat)
    (body : list (list A) -> nat * Z -> result (list (list A))) :
  (forall M i j, body M (i, j) = let* w := f j in assign_row M i w) ->
  (forall j w, f j = Ok w -> length w = L) ->
  forall idxs k done,
    length done = k ->
    for_each (enumerate_from k idxs) body
      (done ++ repeat (repeat zero L) (length idxs))
    = let* tables := map_result f idxs in Ok (done ++ tables).
Proof.
  intros Hbody Hlen. induction idxs as [|j idxs IH]; intros k done Hk.
  - reflexivity.
  - cbn [enumerate_from for_each map_result length repeat].
    rewrite Hbody. destruct (f j) as [w|e] eqn:Hf; cbn [Py.bind];
      [|reflexivity].
    unfold assign_row. rewrite lookup_app_r by lia.
    replace (k - length done)%nat with 0%nat by lia. cbn [lookup list_lookup].
    rewrite broadcast_to_same
      by (rewrite repeat_length; now apply (Hlen j)).
    cbn [Py.bind]. rewrite insert_app_r_alt by lia.
    replace (k - length done)%nat with 0%nat by lia. cbn [insert list_insert].
    rewrite (cons_middle w), app_assoc.
    rewrite IH by (rewrite length_app; cbn; lia).
    destruct (map_result f idxs) as [tables|e]; cbn [Py.bind];
      [|reflexivity].
    now rewrite <- app_assoc.
Qed.

Lemma create_wavetable_length (spectrum : list R) (wavetable_size : Z)
    (v : list float64) :
  create_wavetable_from_spectrum spectrum wavetable_size = Ok v ->
  length v = Z.to_nat wavetable_size.
Proof.
  intros Hv. destruct (create_wavetable_Ok _ _ _ Hv) as (w & Hw & ->).
  rewrite length_map. now apply waveform_length in Hw.
Qed.

(** The stack is the list of the wavetables of the selected frames, in the
    order of selection. *)
Lemma create_wavetable_stack_tables (stft_matrix : ndarray2)
    (num_tables wavetable_size : Z) :
  create_wavetable_stack stft_matrix num_tables wavetable_size
  = let* idx := frame_indices (shape1 stft_matrix) num_tables in
    let* _ := zeros2 (Finite 0) num_tables wavetable_size in
    map_result (table_of_frame stft_matrix wavetable_size) idx.
Proof.
  unfold create_wavetable_stack.
  destruct (frame_indices (shape1 stft_matrix) num_tables) as [idx|e]
    eqn:Hidx; cbn [Py.bind]; [|reflexivity].
  pose proof (frame_indices_length _ _ _ Hidx) as Hlen.
  unfold zeros2.
  destruct ((num_tables <? 0) || (wavetable_size <? 0)); cbn [Py.bind];
    [reflexivity|].
  rewrite <- Hlen. unfold enumerate.
  change (repeat (repeat (Finite 0) (Z.to_nat wavetable_size)) (length idx))
    with ([] ++ repeat (repeat (Finite 0) (Z.to_nat wavetable_size))
                  (length idx)).
  rewrite for_each_assign_rows
    with (f := table_of_frame stft_matrix wavetable_size).
  - now destruct (map_result _ idx).
  - intros M i j. unfold table_of_frame.
    destruct (column stft_matrix j); cbn [Py.bind]; reflexivity.
  - intros j w. unfold table_of_frame.
    destruct (column stft_matrix j); cbn [Py.bind]; [|discriminate].
    apply create_wavetable_length.
  - reflexivity.
Qed.

Lemma table_of_frame_finite (stft_matrix : ndarray2) (wavetable_size : Z)
    (j : Z) :
  table_of_frame stft_matrix wavetable_size j
  = let* w := waveform_of_frame stft_matrix wavetable_size j in
    Ok (map Finite w).
Proof.
  unfold table_of_frame, waveform_of_frame.
  destruct (column stft_matrix j); cbn [Py.bind]; [|reflexivity].
  apply create_wavetable_finite.
Qed.

(** The tables of the stack are finite: they are the waveforms of the
    selected frames. *)
Lemma tables_of_frames_finite (stft_matrix : ndarray2) (wavetable_size : Z)
    (idx : list Z) :
  map_result (table_of_frame stft_matrix wavetable_size) idx
  = let* tables :=
      map_result (waveform_of_frame stft_matrix wavetable_size) idx in
    Ok (map (map Finite) tables).
Proof.
  induction idx as [|j idx IH]; [reflexivity|]. cbn [map_result].
  rewrite table_of_frame_finite, IH.
  destruct (waveform_of_frame stft_matrix wavetable_size j) as [w|e];
    cbn [Py.bind]; [|reflexivity].
  destruct (map_result (waveform_of_frame stft_matrix wavetable_size) idx);
    reflexivity.
Qed.

End Stack.

(** ** Frame selection, on the stack *)

Section FrameSampler.

Lemma create_wavetable_stack_of (stft_matrix : ndarray2)
    (num_tables wavetable_size : Z) (idx : list Z) :
  frame_indices (shape1 stft_matrix) num_tables = Ok idx ->
  create_wavetable_stack stft_matrix num_tables wavetable_size
  = let* _ := zeros2 (Finite 0) num_tables wavetable_size in
    map_result (table_of_frame stft_matrix wavetable_size) idx.
Proof.
  intros Hidx. now rewrite create_wavetable_stack_tables, Hidx.
Qed.

(** The index of step [i], against the floor of its exact position. *)
Lemma frame_indices_nth (num_frames : nat) (num_tables : Z) (idx : list Z) :
  (1 <= num_frames)%nat -> 1 <= num_tables ->
  Z.of_nat num_frames * num_tables <= 2 ^ 50 ->
  frame_indices num_frames num_tables = Ok idx ->
  forall i, 0 <= i < num_tables ->
    exists k,
      nth_error idx (Z.to_nat i) = Some k
      /\ 0 <= k <= Z.of_nat num_frames - 1
      /\ (k = floor_index num_frames num_tables i
          \/ (k = floor_index num_frames num_tables i - 1
              /\ whole_position num_frames num_tables i
              /\ 0 < i < num_tables - 1)).
Proof.
  intros HF HT Hsmall Hidx i Hi.
  rewrite frame_indices_eq in Hidx by lia. injection Hidx as <-.
  set (d := Z.of_nat num_frames - 1).
  assert (Hd : 0 <= d) by (unfold d; lia).
  unfold floor_index, whole_position. fold d.
  destruct (1 <? num_tables) eqn:E1.
  - apply Z.ltb_lt in E1.
    destruct (num_tables =? 1) eqn:E; [apply Z.eqb_eq in E; lia|].
    set (v := num_tables - 1). assert (Hv : 1 <= v) by (unfold v; lia).
    assert (Hsmall' : (d + 1) * (v + 1) <= 2 ^ 50)
      by (unfold d, v; now replace (Z.of_nat num_frames - 1 + 1)
            with (Z.of_nat num_frames) by lia;
          replace (num_tables - 1 + 1) with num_tables by lia).
    rewrite nth_error_map.
    destruct (Z.eq_dec i v) as [->|Hne].
    + (* the last step *)
      rewrite nth_error_app2
        by (rewrite length_map, length_range; lia).
      rewrite length_map, length_range, Nat.sub_diag. cbn [map nth_error].
      cbn [option_map].
      rewrite floor_of_Z by nia.
      exists d. split; [reflexivity|]. split; [lia|]. left.
      rewrite Z.mul_comm, Z.div_mul; lia.
    + rewrite nth_error_app1
        by (rewrite length_map, length_range; lia).
      rewrite nth_error_range_map by lia. cbn [option_map].
      rewrite Z2Nat.id by lia.
      replace num_tables with (v + 1) by (unfold v; lia).
      destruct (linspace_position_floor d v i Hd Hv ltac:(lia) Hsmall')
        as (H0 & [Hlo Hhi] & Hexact).
      set (k := Qfloor (linspace_position 0 d (v + 1) i)) in *.
      exists k. split; [reflexivity|].
      assert (HE : (i * d) / v <= d).
      { apply Z.div_le_upper_bound; [lia|]. nia. }
      split; [lia|].
      destruct (Z.eq_dec k ((i * d) / v)) as [Hk|Hk]; [now left|right].
      split; [lia|]. split.
      * destruct (Z.eq_dec ((i * d) mod v) 0) as [H|H]; [exact H|].
        now apply Hexact in H.
      * destruct (Z.eq_dec i 0) as [->|Hi0]; [|lia].
        rewrite Z.mul_0_l, Zdiv_0_l in *. lia.
  - apply Z.ltb_ge in E1. assert (num_tables = 1) as -> by lia.
    assert (i = 0) as -> by lia.
    change (range 1) with [0]. cbn [map Z.to_nat nth_error].
    rewrite linspace_position_0. change (Qfloor 0) with 0.
    exists 0. split; [reflexivity|]. split; [lia|]. now left.
Qed.

Lemma frame_indices_in_range (num_frames : nat) (num_tables : Z)
    (idx : list Z) :
  (1 <= num_frames)%nat -> 1 <= num_tables ->
  Z.of_nat num_frames * num_tables <= 2 ^ 50 ->
  frame_indices num_frames num_tables = Ok idx ->
  Forall (fun k => 0 <= k <= Z.of_nat num_frames - 1) idx.
Proof.
  intros HF HT Hsmall Hidx. apply List.Forall_forall. intros k Hk.
  apply In_nth_error in Hk. destruct Hk as (i & Hi).
  pose proof (frame_indices_length _ _ _ Hidx) as Hlen.
  assert (Hlt : (i < length idx)%nat)
    by (apply nth_error_Some; now rewrite Hi).
  destruct (frame_indices_nth _ _ _ HF HT Hsmall Hidx (Z.of_nat i))
    as (k' & Hk' & Hrange & _); [lia|].
  rewrite Nat2Z.id, Hi in Hk'. injection Hk' as <-. exact Hrange.
Qed.

Lemma frame_indices_last (num_frames : nat) (num_tables : Z) (idx : list Z) :
  (1 <= num_frames)%nat -> 2 <= num_tables ->
  Z.of_nat num_frames <= 2 ^ 53 ->
  frame_indices num_frames num_tables = Ok idx ->
  last idx = Some (Z.of_nat num_frames - 1).
Proof.
  intros HF HT Hsmall Hidx.
  rewrite frame_indices_eq in Hidx by lia. injection Hidx as <-.
  destruct (1 <? num_tables) eqn:E1; [|apply Z.ltb_ge in E1; lia].
  rewrite List.map_app. cbn [map]. rewrite last_snoc. f_equal.
  apply floor_of_Z. lia.
Qed.

(** C4 (amended): for at least one frame and at least one table (and
    sizes whose product is at most [2^50]) the code selects [num_tables]
    indices, all within [0, num_frames - 1], starting at the first frame
    and, when [num_tables >= 2], ending at the last one. Index [i] is the
    floor of the position numpy computes in binary64, which is the floor
    of the exact position [i * (num_frames - 1) / (num_tables - 1)], or
    one less when the exact position is a whole number at a step that is
    neither the first nor the last. The stack holds the wavetables of
    these frames, in this order. *)
Theorem frame_indices_floor_spaced (stft_matrix : ndarray2)
    (num_tables wavetable_size : Z) :
  (1 <= shape1 stft_matrix)%nat -> 1 <= num_tables ->
  Z.of_nat (shape1 stft_matrix) * num_tables <= 2 ^ 50 ->
  let num_frames := shape1 stft_matrix in
  exists idx pos,
    linspace 0 (Z.of_nat num_frames - 1) num_tables = Ok pos
    /\ idx = map Qfloor pos
    /\ frame_indices num_frames num_tables = Ok idx
    /\ create_wavetable_stack stft_matrix num_tables wavetable_size
       = (let* _ := zeros2 (Finite 0) num_tables wavetable_size in
          map_result (table_of_frame stft_matrix wavetable_size) idx)
    /\ Z.of_nat (length idx) = num_tables
    /\ Forall (fun k => 0 <= k <= Z.of_nat num_frames - 1) idx
    /\ head idx = Some 0
    /\ (2 <= num_tables -> last idx = Some (Z.of_nat num_frames - 1))
    /\ (forall i, 0 <= i < num_tables ->
          exists k,
            nth_error idx (Z.to_nat i) = Some k
            /\ (k = floor_index num_frames num_tables i
                \/ (k = floor_index num_frames num_tables i - 1
                    /\ whole_position num_frames num_tables i
                    /\ 0 < i < num_tables - 1)))
    /\ (forall i, 0 <= i < num_tables - 1 ->
          nth_error pos (Z.to_nat i)
          = Some (linspace_position 0 (Z.of_nat num_frames - 1)
                    num_tables i)).
Proof.
  intros HF HT Hsmall num_frames.
  destruct (linspace 0 (Z.of_nat num_frames - 1) num_tables) as [pos|e]
    eqn:Hpos; [|now rewrite linspace_eq in Hpos by lia].
  assert (Hidx : frame_indices num_frames num_tables = Ok (map Qfloor pos)).
  { unfold frame_indices, linspace_int. now rewrite Hpos. }
  exists (map Qfloor pos), pos.
  split; [reflexivity|]. split; [reflexivity|]. split; [exact Hidx|].
  split; [now apply create_wavetable_stack_of|].
  split; [rewrite (frame_indices_length _ _ _ Hidx); lia|].
  split; [now apply (frame_indices_in_range num_frames num_tables)|].
  split.
  { destruct (frame_indices_head num_frames num_tables HT) as (rest & H).
    rewrite Hidx in H. injection H as ->. reflexivity. }
  split.
  { intros H2. apply (frame_indices_last num_frames num_tables);
      [exact HF|exact H2|nia|exact Hidx]. }
  split.
  { intros i Hi.
    destruct (frame_indices_nth _ _ _ HF HT Hsmall Hidx i Hi)
      as (k & Hk & _ & Hfloor).
    now exists k. }
  intros i Hi. rewrite linspace_eq in Hpos by lia. injection Hpos as <-.
  destruct (1 <? num_tables) eqn:E1; [|apply Z.ltb_ge in E1; lia].
  rewrite nth_error_app1 by (rewrite length_map, length_range; lia).
  rewrite nth_error_range_map by lia. now rewrite Z2Nat.id by lia.
Qed.

Lemma frame_indices_floor_spaced_witness :
  frame_indices 3 4 = Ok [0; 0; 1; 2].
Proof.
  destruct (frame_indices_floor_spaced
              (Ndarray2 3 [[1; 0; 2]; [0; 3; 1]]%R) 4 8)
    as (idx & pos & Hpos & -> & H & _).
  - cbn. lia.
  - lia.
  - cbn. lia.
  - vm_compute in Hpos. injection Hpos as <-. exact H.
Defined.

(** C4, as the specification states it, fails: with 3 frames and 4 tables
    the second position is near 2/3, whose nearest integer is 1, and the
    code selects 0. *)
Lemma frame_indices_not_nearest :
  exists idx pos,
    frame_indices 3 4 = Ok idx
    /\ linspace 0 (Z.of_nat 3 - 1) 4 = Ok pos
    /\ idx = [0; 0; 1; 2]
    /\ ~ Forall2 nearest_integer pos idx
    /\ ~ selects_nearest_inclusive 3 4.
Proof.
  assert (Hno : forall idx pos,
             frame_indices 3 4 = Ok idx ->
             linspace 0 (Z.of_nat 3 - 1) 4 = Ok pos ->
             ~ Forall2 nearest_integer pos idx).
  { intros idx pos Hidx Hpos Hnear.
    vm_compute in Hidx. vm_compute in Hpos.
    injection Hidx as <-. injection Hpos as <-.
    inversion Hnear as [|? ? ? ? _ Hrest]; subst.
    inversion Hrest as [|? ? ? ? H1 _]; subst.
    specialize (H1 1). vm_compute in H1. now apply H1. }
  eexists. eexists.
  split; [vm_compute; reflexivity|]. split; [vm_compute; reflexivity|].
  split; [reflexivity|].
  split.
  - apply Hno; vm_compute; reflexivity.
  - intros (idx & pos & Hidx & Hpos & Hnear & _).
    exact (Hno idx pos Hidx Hpos Hnear).
Qed.

(** The index can be one below the floor of the exact position: with 123
    frames and 15 tables the exact position of step 7 is 61, the binary64
    product [7 * (122 / 14)] falls just short of it, and frame 60 is
    selected. The floats of the kernel give the same indices, here and for
    the default 64 tables from 154 frames. *)
Example frame_indices_below_exact :
  frame_indices 123 15
  = Ok [0; 8; 17; 26; 34; 43; 52; 60; 69; 78; 87; 95; 104; 113; 122]
  /\ floor_index 123 15 7 = 61
  /\ whole_position 123 15 7
  /\ frame_indices 123 15 = Ok (kernel_linspace_int 122 15)
  /\ frame_indices 154 64 = Ok (kernel_linspace_int 153 64).
Proof.
  split; [vm_compute; reflexivity|]. split; [reflexivity|].
  split; [reflexivity|]. split; vm_compute; reflexivity.
Qed.

Lemma linspace_position_unit_step (d i : Z) :
  1 <= d < 2 ^ 53 -> 0 <= i < 2 ^ 53 ->
  Qfloor (linspace_position 0 d (d + 1) i) = i.
Proof.
  intros Hd Hi. unfold linspace_position.
  replace (d + 1 - 1) with d by lia.
  destruct (0 <? d) eqn:E0; [|apply Z.ltb_ge in E0; lia].
  change (Binary64.of_Z 0) with 0%Q.
  assert (Hd53 : Z.abs d < 2 ^ 53) by lia.
  assert (Hi53 : Z.abs i < 2 ^ 53) by lia.
  pose proof (round_Z d Hd53) as Hstop. fold (Binary64.of_Z d) in Hstop.
  pose proof (round_Z i Hi53) as Hyi. fold (Binary64.of_Z i) in Hyi.
  assert (Hdelta : (Binary64.sub (Binary64.of_Z d) 0 == inject_Z d)%Q).
  { unfold Binary64.sub.
    rewrite (round_comp (Binary64.of_Z d - 0) (inject_Z d)).
    - now apply round_Z.
    - rewrite Hstop. ring. }
  assert (Hne : ~ (inject_Z d == 0)%Q).
  { change 0%Q with (inject_Z 0). rewrite inject_Z_injective. lia. }
  assert (Hstep : Binary64.div (Binary64.sub (Binary64.of_Z d) 0)
                    (Binary64.of_Z d) = 1%Q).
  { unfold Binary64.div.
    rewrite (round_comp _ 1); [reflexivity|].
    rewrite Hdelta, Hstop. now field. }
  rewrite Hstep. change (Qeq_bool 1 0) with false. cbv iota.
  assert (HP : Binary64.add (Binary64.mul (Binary64.of_Z i) 1) 0
               = Binary64.round (inject_Z i)).
  { unfold Binary64.add, Binary64.mul. apply round_comp.
    rewrite (round_comp (Binary64.of_Z i * 1) (inject_Z i)).
    - rewrite (round_Z i Hi53). ring.
    - rewrite Hyi. ring. }
  rewrite HP. fold (Binary64.of_Z i). now apply floor_of_Z.
Qed.

Lemma frame_indices_all (num_frames : nat) :
  (1 <= num_frames)%nat -> Z.of_nat num_frames <= 2 ^ 53 ->
  frame_indices num_frames (Z.of_nat num_frames)
  = Ok (map Z.of_nat (seq 0 num_frames)).
Proof.
  intros HF Hsmall. rewrite frame_indices_eq by lia. cbv zeta. f_equal.
  set (d := Z.of_nat num_frames - 1).
  destruct (1 <? Z.of_nat num_frames) eqn:E1.
  - apply Z.ltb_lt in E1.
    replace (Z.of_nat num_frames) with (d + 1) by (unfold d; lia).
    replace (d + 1 - 1) with d by lia.
    transitivity (map (fun i : Z => i) (range d) ++ [d]).
    + rewrite List.map_app, map_map. cbn [map]. f_equal.
      * apply map_ext_in. intros i Hi. apply In_range in Hi.
        apply linspace_position_unit_step; unfold d in *; lia.
      * f_equal. apply floor_of_Z. unfold d. lia.
    + rewrite map_id, <- range_succ by (unfold d; lia).
      unfold range. do 2 f_equal. unfold d. lia.
  - apply Z.ltb_ge in E1. assert (num_frames = 1%nat) as -> by lia.
    change (range (Z.of_nat 1)) with [0]. cbn [map seq].
    now rewrite linspace_position_0.
Qed.

Lemma frame_indices_one (num_frames : nat) :
  frame_indices num_frames 1 = Ok [0].
Proof.
  rewrite frame_indices_eq by lia. change (1 <? 1) with false. cbv iota zeta.
  change (range 1) with [0]. cbn [map].
  now rewrite linspace_position_0.
Qed.

(** C5: with one table the first frame is selected, and the stack is the
    wavetable of frame 0; with as many tables as frames (at most [2^53],
    the integers binary64 holds exactly) every frame index 0, 1, ...,
    [num_frames - 1] is selected exactly once, in increasing order, and
    the stack holds the wavetables of all frames in time order. *)
Theorem frame_indices_one_and_all (stft_matrix : ndarray2)
    (wavetable_size : Z) :
  (1 <= shape1 stft_matrix)%nat ->
  Z.of_nat (shape1 stft_matrix) <= 2 ^ 53 ->
  let num_frames := shape1 stft_matrix in
  let every_frame := map Z.of_nat (seq 0 num_frames) in
  frame_indices num_frames 1 = Ok [0]
  /\ frame_indices num_frames (Z.of_nat num_frames) = Ok every_frame
  /\ create_wavetable_stack stft_matrix 1 wavetable_size
     = (let* _ := zeros2 (Finite 0) 1 wavetable_size in
        map_result (table_of_frame stft_matrix wavetable_size) [0])
  /\ create_wavetable_stack stft_matrix (Z.of_nat num_frames) wavetable_size
     = (let* _ := zeros2 (Finite 0) (Z.of_nat num_frames) wavetable_size in
        map_result (table_of_frame stft_matrix wavetable_size) every_frame).
Proof.
  intros HF Hsmall num_frames every_frame.
  pose proof (frame_indices_one num_frames) as H1.
  pose proof (frame_indices_all num_frames HF Hsmall) as Hall.
  split; [exact H1|]. split; [exact Hall|].
  split; now apply create_wavetable_stack_of.
Qed.

Lemma frame_indices_one_and_all_witness :
  frame_indices 3 1 = Ok [0] /\ frame_indices 3 3 = Ok [0; 1; 2].
Proof.
  destruct (frame_indices_one_and_all
              (Ndarray2 3 [[1; 0; 2]; [0; 3; 1]]%R) 8) as (H1 & Hall & _).
  - cbn. lia.
  - cbn. lia.
  - split; [exact H1|exact Hall].
Defined.

End FrameSampler.

(** ** [morph_wavetables] *)

Section Morph.

Open Scope R_scope.

Lemma zeros2_nonneg {A : Type} (zero : A) (num_rows : Z) (L : nat) :
  (0 <= num_rows)%Z ->
  zeros2 zero num_rows (Z.of_nat L)
  = Ok (repeat (repeat zero L) (Z.to_nat num_rows)).
Proof.
  intros HT. unfold zeros2.
  destruct (num_rows <? 0)%Z eqn:E1; [lia|].
  destruct (Z.of_nat L <? 0)%Z eqn:E2; [apply Z.ltb_lt in E2; lia|].
  cbn. now rewrite Nat2Z.id.
Qed.

Lemma add_scaled_same_length (c d : R) (a b : list R) :
  length a = length b ->
  Np.add (scale c a) (scale d b)
  = Ok (zip_with (fun x y => c * x + d * y) a b).
Proof.
  intros Hlen. unfold Np.add, scale. rewrite !length_map, Hlen, Nat.eqb_refl.
  f_equal. revert b Hlen. induction a as [|x a IH]; intros [|y b] Hlen;
    try discriminate; cbn; [reflexivity|].
  f_equal. apply IH. now injection Hlen.
Qed.

Lemma length_linear_blend (alpha : R) (a b : list R) :
  length a = length b -> length (linear_blend alpha a b) = length a.
Proof.
  unfold linear_blend. revert b. induction a as [|x a IH]; intros [|y b] Hlen;
    try discriminate; cbn; [reflexivity|].
  f_equal. apply IH. now injection Hlen.
Qed.

Lemma linear_blend_0 (a b : list R) :
  length a = length b -> linear_blend 0 a b = a.
Proof.
  unfold linear_blend. revert b. induction a as [|x a IH]; intros [|y b] Hlen;
    try discriminate; cbn; [reflexivity|].
  f_equal; [ring|]. apply IH. now injection Hlen.
Qed.

Lemma linear_blend_1 (a b : list R) :
  length a = length b -> linear_blend 1 a b = b.
Proof.
  unfold linear_blend. revert b. induction a as [|x a IH]; intros [|y b] Hlen;
    try discriminate; cbn; [reflexivity|].
  f_equal; [ring|]. apply IH. now injection Hlen.
Qed.

(** A loop that assigns row [i] at step [i] fills the rows in order. *)
Lemma for_each_fill (body : list (list R) -> Z -> result (list (list R)))
    (g : Z -> list R) (L : nat) (total : nat) :
  (forall M i, (i < total)%nat ->
     body M (Z.of_nat i) = assign_row M i (g (Z.of_nat i))) ->
  (forall i, (i < total)%nat -> length (g (Z.of_nat i)) = L) ->
  forall m k done,
    length done = k -> (k + m = total)%nat ->
    for_each (map Z.of_nat (seq k m)) body (done ++ repeat (repeat 0 L) m)
    = Ok (done ++ map g (map Z.of_nat (seq k m))).
Proof.
  intros Hbody Hlen. induction m as [|m IH]; intros k done Hk Hkm.
  - reflexivity.
  - cbn [seq map for_each repeat].
    rewrite Hbody by lia. unfold assign_row.
    rewrite lookup_app_r by lia.
    replace (k - length done)%nat with 0%nat by lia. cbn [lookup list_lookup].
    rewrite broadcast_to_same by (rewrite repeat_length; apply Hlen; lia).
    cbn [Py.bind].
    rewrite insert_app_r_alt by lia.
    replace (k - length done)%nat with 0%nat by lia. cbn [insert list_insert].
    rewrite (cons_middle (g (Z.of_nat k))), app_assoc.
    rewrite IH by (try rewrite length_app; cbn; lia).
    now rewrite <- app_assoc.
Qed.

Lemma for_each_fill_range
    (body : list (list R) -> Z -> result (list (list R)))
    (g : Z -> list R) (L : nat) (num_rows : Z) :
  (forall M i, (i < Z.to_nat num_rows)%nat ->
     body M (Z.of_nat i) = assign_row M i (g (Z.of_nat i))) ->
  (forall i, (i < Z.to_nat num_rows)%nat -> length (g (Z.of_nat i)) = L) ->
  for_each (range num_rows) body (repeat (repeat 0 L) (Z.to_nat num_rows))
  = Ok (map g (range num_rows)).
Proof.
  intros Hbody Hlen.
  apply (for_each_fill body g L (Z.to_nat num_rows) Hbody Hlen
           (Z.to_nat num_rows) 0%nat []); [reflexivity|lia].
Qed.

Lemma morph_equal_length (a b : list R) (num_steps : Z) :
  length a = length b -> (2 <= num_steps)%Z ->
  morph_wavetables a b num_steps
  = Ok (map (fun i => linear_blend (IZR i / IZR (num_steps - 1)) a b)
          (range num_steps)).
Proof.
  intros Hlen HT. unfold morph_wavetables.
  rewrite zeros2_nonneg by lia. cbn [Py.bind].
  apply for_each_fill_range.
  - intros M i Hi. unfold truediv.
    destruct (num_steps - 1 =? 0)%Z eqn:E; [lia|]. cbn [Py.bind].
    rewrite add_scaled_same_length by exact Hlen. cbn [Py.bind].
    now rewrite Nat2Z.id.
  - intros i Hi. now apply length_linear_blend.
Qed.

(** C6: for wavetables of equal length and at least two steps the result
    has [num_steps] wavetables, step [i] being the linear blend
    [(1 - alpha) * A + alpha * B] with [alpha = i / (num_steps - 1)]; the
    first one is [A] and the last one is [B], exactly. *)
Theorem morph_wavetables_linear (A B : list R) (num_steps : Z) :
  length A = length B -> (2 <= num_steps)%Z ->
  let alpha (i : Z) := IZR i / IZR (num_steps - 1) in
  let out := map (fun i => linear_blend (alpha i) A B) (range num_steps) in
  morph_wavetables A B num_steps = Ok out
  /\ Z.of_nat (length out) = num_steps
  /\ (forall i : nat, (Z.of_nat i < num_steps)%Z ->
        nth_error out i = Some (linear_blend (alpha (Z.of_nat i)) A B))
  /\ head out = Some A
  /\ last out = Some B.
Proof.
  intros Hlen HT alpha out.
  split; [now apply morph_equal_length|].
  split; [unfold out; rewrite length_map, length_range; lia|].
  split.
  { intros i Hi. unfold out, range. rewrite map_map.
    rewrite nth_error_map, nth_error_seq.
    destruct (Nat.ltb_spec i (Z.to_nat num_steps)) as [_|H]; [|lia].
    reflexivity. }
  split.
  { unfold out, range.
    destruct (Z.to_nat num_steps) as [|n] eqn:E; [lia|]. cbn.
    f_equal. unfold alpha. cbn. unfold Rdiv. rewrite Rmult_0_l.
    now apply linear_blend_0. }
  unfold out.
  assert (Hr : range num_steps = range (num_steps - 1) ++ [(num_steps - 1)%Z]).
  { rewrite <- range_succ by lia. f_equal. lia. }
  rewrite Hr, List.map_app. cbn [map].
  rewrite last_snoc. f_equal. unfold alpha, Rdiv.
  rewrite Rinv_r; [now apply linear_blend_1|].
  apply not_0_IZR. lia.
Qed.

Lemma morph_wavetables_linear_witness :
  morph_wavetables [1; 2] [3; 4] 4
  = Ok (map (fun i => linear_blend (IZR i / IZR (4 - 1)) [1; 2] [3; 4])
          (range 4)).
Proof.
  destruct (morph_wavetables_linear [1; 2] [3; 4] 4) as [H _].
  - reflexivity.
  - lia.
  - exact H.
Defined.

(** A one-sample second wavetable is broadcast over the first one. *)
Lemma add_scaled_broadcast (c d y : R) (a : list R) :
  length a <> 1%nat ->
  Np.add (scale c a) (scale d [y])
  = Ok (map (fun x => c * x + d * y) a).
Proof.
  intros Hlen. unfold Np.add, scale. rewrite !length_map. cbn [length].
  destruct (length a =? 1)%nat eqn:E; [apply Nat.eqb_eq in E; lia|].
  destruct a as [|x [|x' a]]; cbn; try reflexivity.
  f_equal. f_equal. f_equal. now rewrite map_map.
Qed.

Lemma morph_broadcast_second (a : list R) (y : R) (num_steps : Z) :
  length a <> 1%nat -> (2 <= num_steps)%Z ->
  morph_wavetables a [y] num_steps
  = Ok (map (fun i =>
               map (fun x => (1 - IZR i / IZR (num_steps - 1)) * x
                             + IZR i / IZR (num_steps - 1) * y) a)
          (range num_steps)).
Proof.
  intros Hlen HT. unfold morph_wavetables.
  rewrite zeros2_nonneg by lia. cbn [Py.bind].
  apply for_each_fill_range.
  - intros M i Hi. unfold truediv.
    destruct (num_steps - 1 =? 0)%Z eqn:E; [lia|]. cbn [Py.bind].
    rewrite add_scaled_broadcast by exact Hlen. cbn [Py.bind].
    now rewrite Nat2Z.id.
  - intros i Hi. apply length_map.
Qed.

Lemma morph_mismatch_raises (a b : list R) (num_steps : Z) :
  length a <> length b -> length b <> 1%nat -> (2 <= num_steps)%Z ->
  morph_wavetables a b num_steps = Raise ValueError.
Proof.
  intros Hab Hb HT. unfold morph_wavetables.
  rewrite zeros2_nonneg by lia. cbn [Py.bind]. unfold range.
  destruct (Z.to_nat num_steps) as [|n] eqn:En; [lia|].
  cbn [seq map for_each]. unfold truediv.
  destruct (num_steps - 1 =? 0)%Z eqn:E; [lia|]. cbn [Py.bind].
  set (c := 1 - IZR (Z.of_nat 0) / IZR (num_steps - 1)).
  set (d := IZR (Z.of_nat 0) / IZR (num_steps - 1)).
  unfold Np.add. unfold scale at 1 2. rewrite !length_map.
  destruct (length a =? length b)%nat eqn:E'; [apply Nat.eqb_eq in E'; lia|].
  destruct a as [|x [|x' a]]; destruct b as [|y [|y' b]]; cbn;
    try reflexivity; try (cbn in Hab; lia); try (cbn in Hb; lia).
Qed.

(** C7 (amended): what [morph_wavetables] does on every input. It raises
    [ValueError] for a negative [num_steps], and [ZeroDivisionError] for
    [num_steps = 1]; for [num_steps = 0] it returns an empty stack and
    raises nothing, whatever the lengths. For [num_steps >= 2] it returns
    when the lengths are equal, and also when the second wavetable has one
    sample (numpy broadcasts it); it raises [ValueError] for any other pair
    of unequal lengths. *)
Theorem morph_wavetables_outcome (wavetable1 wavetable2 : list R)
    (num_steps : Z) :
  ((num_steps < 0)%Z ->
     morph_wavetables wavetable1 wavetable2 num_steps = Raise ValueError)
  /\ (num_steps = 0%Z ->
      morph_wavetables wavetable1 wavetable2 num_steps = Ok [])
  /\ (num_steps = 1%Z ->
      morph_wavetables wavetable1 wavetable2 num_steps
      = Raise ZeroDivisionError)
  /\ ((2 <= num_steps)%Z ->
      length wavetable1 = length wavetable2 \/ length wavetable2 = 1%nat ->
      returns (morph_wavetables wavetable1 wavetable2 num_steps))
  /\ ((2 <= num_steps)%Z ->
      length wavetable1 <> length wavetable2 ->
      length wavetable2 <> 1%nat ->
      morph_wavetables wavetable1 wavetable2 num_steps = Raise ValueError).
Proof.
  split; [|split; [|split; [|split]]].
  - intros HT. unfold morph_wavetables, zeros2.
    destruct (num_steps <? 0)%Z eqn:E; [reflexivity|lia].
  - intros ->. unfold morph_wavetables.
    now rewrite zeros2_nonneg by lia.
  - intros ->. unfold morph_wavetables.
    now rewrite zeros2_nonneg by lia.
  - intros HT [Heq|Hone].
    + eexists. now apply morph_equal_length.
    + destruct (Nat.eq_dec (length wavetable1) 1%nat) as [H1|H1].
      * eexists. apply morph_equal_length; [congruence|exact HT].
      * destruct wavetable2 as [|y [|y' b]]; try discriminate.
        eexists. now apply morph_broadcast_second.
  - intros HT Hne H1. now apply morph_mismatch_raises.
Qed.

(** C7, as the specification states it, fails twice: with [num_steps = 0]
    nothing is raised, for equal and for unequal lengths; and with
    [num_steps = 2] a three-sample and a one-sample wavetable are morphed
    without an error. *)
Lemma morph_wavetables_no_error :
  morph_wavetables [1; 2] [3; 4] 0 = Ok []
  /\ morph_wavetables [1; 2] [3] 0 = Ok []
  /\ returns (morph_wavetables [1; 2; 3] [5] 2)
  /\ length [1; 2; 3] <> length [5].
Proof.
  split; [|split; [|split]].
  - unfold morph_wavetables. now rewrite zeros2_nonneg by lia.
  - unfold morph_wavetables. now rewrite zeros2_nonneg by lia.
  - eexists. apply morph_broadcast_second; [cbn; lia|lia].
  - cbn. lia.
Qed.

End Morph.

(** ** [save_wavetable] *)

Section Serializer.

Open Scope R_scope.

Lemma peak_positive (w : list R) :
  Exists (fun x => x <> 0) w ->
  exists peak, Np.max (Np.abs w) = Ok peak /\ 0 < peak.
Proof.
  intros Hex. destruct w as [|x t]; [inversion Hex|].
  exists (maximum (Rabs x) (map Rabs t)). split; [reflexivity|].
  destruct (Rle_lt_or_eq_dec _ _ (maximum_abs_nonneg x t)) as [H|H];
    [exact H|].
  symmetry in H. apply maximum_abs_zero in H.
  rewrite List.Forall_forall in H. apply List.Exists_exists in Hex.
  destruct Hex as (y & Hy & Hne). now apply H in Hy.
Qed.

Lemma flatten_as_stack (wavetable : ndarray) :
  flatten match wavetable with
          | Arr1 a => Arr2 (reshape_1_row a)
          | Arr2 m => Arr2 m
          end
  = table_samples wavetable.
Proof. destruct wavetable as [a|m]; cbn; [apply app_nil_r|reflexivity]. Qed.

(** With a positive peak every sample handed to [sf.write] is finite. *)
Lemma samples_to_write_finite (wavetable : ndarray) :
  samples_to_write wavetable
  = let* w := headroom_samples wavetable in Ok (map Finite w).
Proof.
  unfold samples_to_write, headroom_samples. cbv zeta.
  rewrite flatten_as_stack. fold (table_samples wavetable).
  destruct (Np.max (Np.abs (table_samples wavetable))) as [peak|e];
    cbn [Py.bind]; [|reflexivity].
  destruct (Rlt_dec 0 peak) as [Hpos|_]; cbn [Py.bind]; [|reflexivity].
  f_equal. rewrite map_map. apply map_ext. intros x.
  rewrite true_divide_finite by lra. reflexivity.
Qed.

Lemma headroom_samples_nonzero (wavetable : ndarray) :
  Exists (fun x => x <> 0) (table_samples wavetable) ->
  exists peak,
    Np.max (Np.abs (table_samples wavetable)) = Ok peak /\ 0 < peak
    /\ headroom_samples wavetable
       = Ok (map (fun x => x / peak * 0.9) (table_samples wavetable)).
Proof.
  intros Hex. destruct (peak_positive _ Hex) as (peak & Hpeak & Hpos).
  exists peak. split; [exact Hpeak|]. split; [exact Hpos|].
  unfold headroom_samples. fold (table_samples wavetable).
  rewrite Hpeak. cbn [Py.bind].
  destruct (Rlt_dec 0 peak) as [_|H]; [reflexivity|contradiction].
Qed.

Lemma peak_of_zeros (w : list R) :
  w <> [] -> Forall (fun x => x = 0) w -> Np.max (Np.abs w) = Ok 0.
Proof.
  intros Hne Hz.
  assert (Hw : w = repeat 0 (length w)).
  { clear Hne. induction Hz as [|x t Hx _ IH]; [reflexivity|].
    cbn [length repeat]. now rewrite <- IH, Hx. }
  rewrite Hw. apply peak_normalized_zero.
  destruct w; [contradiction|cbn; lia].
Qed.

Lemma headroom_samples_zeros (wavetable : ndarray) :
  table_samples wavetable <> [] ->
  Forall (fun x => x = 0) (table_samples wavetable) ->
  headroom_samples wavetable = Ok (table_samples wavetable).
Proof.
  intros Hne Hz. unfold headroom_samples. fold (table_samples wavetable).
  rewrite (peak_of_zeros _ Hne Hz). cbn [Py.bind].
  destruct (Rlt_dec 0 0) as [H|H]; [lra|reflexivity].
Qed.

Lemma headroom_samples_silent (n : nat) :
  (1 <= n)%nat ->
  headroom_samples (Arr1 (repeat 0 n)) = Ok (repeat 0 n).
Proof.
  intros Hn. apply (headroom_samples_zeros (Arr1 (repeat 0 n))).
  - destruct n; [lia|discriminate].
  - cbn [table_samples]. apply List.Forall_forall. intros x Hx.
    now apply repeat_spec in Hx.
Qed.

Lemma headroom_samples_empty (wavetable : ndarray) :
  table_samples wavetable = [] ->
  headroom_samples wavetable = Raise ValueError.
Proof.
  intros He. unfold headroom_samples. fold (table_samples wavetable).
  now rewrite He.
Qed.

(** What [sf.write] does with a call is the library's. *)
Variable sf_write :
  string -> list float64 -> Z -> string -> gmap string Fs.audio_file ->
  result unit * gmap string Fs.audio_file.

(** C9 (amended): a 1-D input is taken as a one-table stack and the stack
    is flattened by putting its tables one after the other. When at least
    one sample is non-zero, the flattened sequence is divided by its peak
    absolute amplitude and multiplied by 0.9, so that the peak of what is
    handed to [sf.write] is exactly 0.9; an all-zero input is handed over
    as it is, with peak 0; an input without samples raises [ValueError]
    and [sf.write] is not called. The outcome of the call and the file
    are those of [sf.write] on these samples, the sample rate of the
    synthesizer and the format. *)
Theorem save_wavetable_rescales (self : WavetableSynthesizer.t)
    (wavetable : ndarray) (output_path format : string)
    (fs : gmap string Fs.audio_file) :
  (Exists (fun x => x <> 0) (table_samples wavetable) ->
   exists peak written,
     Np.max (Np.abs (table_samples wavetable)) = Ok peak
     /\ written = map (fun x => x / peak * 0.9) (table_samples wavetable)
     /\ Np.max (Np.abs written) = Ok 0.9
     /\ samples_to_write wavetable = Ok (map Finite written)
     /\ save_wavetable sf_write self wavetable output_path format fs
        = sf_write output_path (map Finite written) (sr self) format fs)
  /\ (table_samples wavetable <> [] ->
      Forall (fun x => x = 0) (table_samples wavetable) ->
      Np.max (Np.abs (table_samples wavetable)) = Ok 0
      /\ samples_to_write wavetable
         = Ok (map Finite (table_samples wavetable))
      /\ save_wavetable sf_write self wavetable output_path format fs
         = sf_write output_path (map Finite (table_samples wavetable))
             (sr self) format fs)
  /\ (table_samples wavetable = [] ->
      save_wavetable sf_write self wavetable output_path format fs
      = (Raise ValueError, fs)).
Proof.
  split; [|split].
  - intros Hex.
    destruct (headroom_samples_nonzero wavetable Hex)
      as (peak & Hpeak & Hpos & Hwrite).
    exists peak. eexists. split; [exact Hpeak|]. split; [reflexivity|].
    split; [apply peak_after_rescale; [exact Hpeak|exact Hpos|lra]|].
    assert (Hs : samples_to_write wavetable
                 = Ok (map Finite
                         (map (fun x => x / peak * 0.9)
                            (table_samples wavetable))))
      by now rewrite samples_to_write_finite, Hwrite.
    split; [exact Hs|]. unfold save_wavetable. now rewrite Hs.
  - intros Hne Hz. split; [now apply peak_of_zeros|].
    assert (Hs : samples_to_write wavetable
                 = Ok (map Finite (table_samples wavetable)))
      by now rewrite samples_to_write_finite, headroom_samples_zeros.
    split; [exact Hs|]. unfold save_wavetable. now rewrite Hs.
  - intros He. unfold save_wavetable.
    now rewrite samples_to_write_finite, headroom_samples_empty.
Qed.

End Serializer.

Section SerializerExamples.

Open Scope R_scope.

Lemma save_wavetable_rescales_witness :
  exists peak written,
    Np.max (Np.abs [1; -2]) = Ok peak
    /\ written = map (fun x => x / peak * 0.9) [1; -2]
    /\ Np.max (Np.abs written) = Ok 0.9
    /\ save_wavetable Fs.store_audio (init 44100) (Arr1 [1; -2])
         "out.wav" "wav" ∅
       = (Ok tt, <["out.wav"%string :=
                     Fs.AudioFile (map Finite written) 44100 "wav"]> ∅).
Proof.
  destruct (save_wavetable_rescales Fs.store_audio (init 44100)
              (Arr1 [1; -2]) "out.wav" "wav" ∅) as (H & _).
  destruct H as (peak & written & Hpeak & Hw & H09 & _ & Hsave).
  - apply Exists_cons_hd. lra.
  - exists peak, written. split; [exact Hpeak|]. split; [exact Hw|].
    split; [exact H09|]. exact Hsave.
Defined.

(** C9, as the specification states it, fails on a silent table: its peak
    is 0, the rescaling is skipped, and what is handed to [sf.write] has
    peak 0, not 0.9. *)
Lemma save_wavetable_silent_not_rescaled :
  samples_to_write (Arr1 [0; 0]) = Ok [Finite 0; Finite 0]
  /\ save_wavetable Fs.store_audio (init 44100) (Arr1 [0; 0])
       "out.wav" "wav" ∅
     = (Ok tt, <["out.wav"%string :=
                   Fs.AudioFile [Finite 0; Finite 0] 44100 "wav"]> ∅)
  /\ Np.max (Np.abs [0; 0]) = Ok 0
  /\ Np.max (Np.abs [0; 0]) <> Ok 0.9.
Proof.
  assert (Hpk : Np.max (Np.abs [0; 0]) = Ok 0).
  { apply (peak_normalized_zero 2). lia. }
  assert (Hs : samples_to_write (Arr1 [0; 0]) = Ok [Finite 0; Finite 0]).
  { rewrite samples_to_write_finite.
    change [0; 0] with (repeat 0 2).
    now rewrite (headroom_samples_silent 2) by lia. }
  split; [exact Hs|]. split; [|split].
  - unfold save_wavetable. now rewrite Hs.
  - exact Hpk.
  - rewrite Hpk. intros [= H]. lra.
Qed.

End SerializerExamples.


(** ** [OutputFormatter] *)

Section Formatter.

Import OutputFormatter.

Open Scope string_scope.

Lemma endswith_refl (s : string) : endswith s s = true.
Proof. destruct s; cbn; now rewrite ?Ascii.eqb_refl, ?String.eqb_refl. Qed.

Lemma endswith_cons (c : Ascii.ascii) (s suffix : string) :
  endswith (String c s) suffix
  = String.eqb (String c s) suffix || endswith s suffix.
Proof. reflexivity. Qed.

Lemma endswith_app (stem suffix : string) :
  endswith (stem +:+ suffix) suffix = true.
Proof.
  induction stem as [|c stem IH].
  - apply endswith_refl.
  - change (String c stem +:+ suffix) with (String c (stem +:+ suffix)).
    rewrite endswith_cons, IH. apply orb_true_r.
Qed.

Lemma endswith_spec (s suffix : string) :
  endswith s suffix = true -> exists stem, s = stem +:+ suffix.
Proof.
  induction s as [|c s IH]; [cbn [endswith]|rewrite endswith_cons];
    intros H; apply orb_true_iff in H; destruct H as [H|H].
  - apply String.eqb_eq in H. exists "". now subst.
  - discriminate.
  - apply String.eqb_eq in H. exists "". now subst.
  - destruct (IH H) as (stem & ->). now exists (String c stem).
Qed.

(** The path [save_features] writes to and returns. *)
Lemma target_path_suffix (path format : string) :
  exists stem,
    (if negb (endswith path ("." +:+ format))
     then path +:+ "." +:+ format
     else path)
    = stem +:+ "." +:+ format.
Proof.
  destruct (endswith path ("." +:+ format)) eqn:E; cbn [negb].
  - now apply endswith_spec.
  - now exists path.
Qed.

Lemma store_leaves_app (L1 L2 : list (string * value))
    (arrays : gmap string npz_array) :
  store_leaves (L1 ++ L2) arrays
  = let* arrays := store_leaves L1 arrays in store_leaves L2 arrays.
Proof.
  unfold store_leaves. rewrite forallb_app, fold_left_app.
  now destruct (forallb _ L1).
Qed.

Lemma process_item_leaves (v : value) :
  forall prefix key arrays,
    process_item prefix key v arrays
    = store_leaves (leaves_item prefix key v) arrays.
Proof.
  induction v as [items IH|v Hleaf] using value_dict_ind;
    intros prefix key arrays.
  - cbn [process_item leaves_item].
    generalize (join_key prefix "_" key). intros full_key.
    revert arrays. induction IH as [|[k w] items Hw _ IHitems];
      intros arrays; [reflexivity|].
    cbn [flat_map]. rewrite store_leaves_app.
    cbn [snd] in Hw. rewrite Hw.
    destruct (store_leaves (leaves_item full_key k w) arrays);
      cbn [Py.bind]; [apply IHitems|reflexivity].
  - destruct v; try reflexivity; try now destruct (Hleaf items).
    + cbn [process_item leaves_item]. unfold store_leaves, np_array, convertible.
      cbn [forallb snd fold_left]. remember (array_shape (PyList xs)) as sh.
      destruct sh as [sh|]; reflexivity.
    + cbn [process_item leaves_item]. unfold store_leaves, np_array, convertible.
      cbn [forallb snd fold_left]. remember (array_shape (PyList xs)) as sh.
      destruct sh as [sh|]; reflexivity.
Qed.

Lemma process_dict_leaves (d : list (string * value)) (prefix : string)
    (arrays : gmap string npz_array) :
  process_dict d prefix arrays = store_leaves (leaves d prefix) arrays.
Proof.
  unfold process_dict, leaves. revert arrays.
  induction d as [|[k v] d IH]; intros arrays; [reflexivity|].
  cbn [for_each flat_map]. rewrite store_leaves_app, process_item_leaves.
  destruct (store_leaves (leaves_item prefix k v) arrays);
    cbn [Py.bind]; [apply IH|reflexivity].
Qed.


Lemma store_leaves_lookup (L : list (string * value))
    (arrays : gmap string npz_array) (k : string) (e : npz_array) :
  fold_left store_leaf L arrays !! k = Some e ->
  arrays !! k = Some e
  \/ exists v, In (k, v) L /\ npz_entry v = Some e.
Proof.
  revert arrays. induction L as [|[k' v'] L IH]; intros arrays H.
  - now left.
  - cbn [fold_left] in H. destruct (IH _ H) as [H'|(v & Hv & He)].
    + unfold store_leaf in H'. cbn [fst snd] in H'.
      destruct (npz_entry v') as [e'|] eqn:E; [|now left].
      destruct (decide (k' = k)) as [->|Hne].
      * rewrite lookup_insert_eq in H'. injection H' as ->.
        right. exists v'. split; [now left|exact E].
      * rewrite lookup_insert_ne in H' by exact Hne. now left.
    + right. exists v. split; [now right|exact He].
Qed.

Lemma store_leaves_present (L : list (string * value))
    (arrays : gmap string npz_array) (k : string) :
  is_Some (arrays !! k)
  \/ (exists v, In (k, v) L /\ is_Some (npz_entry v)) ->
  is_Some (fold_left store_leaf L arrays !! k).
Proof.
  revert arrays. induction L as [|[k' v'] L IH]; intros arrays H.
  - destruct H as [H|(v & [] & _)]. exact H.
  - cbn [fold_left]. apply IH.
    destruct H as [H|(v & [Hv|Hv] & He)].
    + left. unfold store_leaf. cbn [fst snd].
      destruct (npz_entry v'); [|exact H].
      destruct (decide (k' = k)) as [->|Hne].
      * rewrite lookup_insert_eq. now eexists.
      * now rewrite lookup_insert_ne.
    + injection Hv as -> ->. left. unfold store_leaf. cbn [fst snd].
      destruct He as [e ->]. rewrite lookup_insert_eq. now eexists.
    + right. now exists v.
Qed.

(** What [np.savez_compressed] does with a keyword [allow_pickle], and
    pathlib's [str(Path(p))], are the libraries'. *)
Variable savez_allow_pickle :
  npz_array -> string -> gmap string npz_array -> gmap string file ->
  result unit * gmap string file.
Variable str_Path : string -> string.

Lemma target_npz_endswith (output_path : string) :
  endswith (target_path (str_Path output_path) "npz") ".npz" = true.
Proof.
  destruct (target_path_suffix (str_Path output_path) "npz") as (stem & E).
  unfold target_path. rewrite E. apply endswith_app.
Qed.

Lemma save_features_npz (features : list (string * value))
    (output_path : string) (fs : gmap string file) :
  save_features savez_allow_pickle str_Path features output_path "npz" fs
  = returning_path (target_path (str_Path output_path) "npz")
      (to_npz savez_allow_pickle features
         (target_path (str_Path output_path) "npz") fs).
Proof. reflexivity. Qed.


(** C10 (amended): [saved] is the bundle of the leaves that are numpy
    arrays, lists, tuples, ints or floats, each under its flattened key and
    converted (a scalar wrapped in a one-element array); a leaf of any
    other type adds nothing and raises nothing, and its flattened key is
    absent unless a saved leaf has the same flattened key. When every list
    or tuple leaf converts to an array, [process_dict] builds [saved] and
    [np.savez_compressed] gets it: the file holds [saved] when no key is
    [file] or [allow_pickle], and a key [file] raises [TypeError]. A list
    or tuple whose parts differ in shape makes [np.array] raise
    [ValueError], and nothing is written. *)
Theorem to_npz_saved_leaves (data : list (string * value))
    (output_path : string) (fs : gmap string file) :
  let L := leaves data "" in
  let saved := fold_left store_leaf L ∅ in
  (forall k e, saved !! k = Some e ->
     exists v, In (k, v) L /\ npz_entry v = Some e)
  /\ (forall k, is_Some (saved !! k) <->
        exists v, In (k, v) L /\ is_Some (npz_entry v))
  /\ (forall k, (forall v, In (k, v) L -> npz_entry v = None) ->
        saved !! k = None)
  /\ (forall prefix key v arrays',
        (forall items, v <> Dict items) -> npz_entry v = None ->
        process_item prefix key v arrays' = Ok arrays')
  /\ (forallb (fun leaf => convertible (snd leaf)) L = true ->
      process_dict data "" ∅ = Ok saved
      /\ to_npz savez_allow_pickle data output_path fs
         = savez_compressed savez_allow_pickle output_path saved fs
      /\ (saved !! "file" = None -> saved !! "allow_pickle" = None ->
          exists path,
            to_npz savez_allow_pickle data output_path fs
            = (Ok tt, <[path := NpzFile saved]> fs))
      /\ (is_Some (saved !! "file") ->
          to_npz savez_allow_pickle data output_path fs
          = (Raise TypeError, fs)))
  /\ (forallb (fun leaf => convertible (snd leaf)) L = false ->
      process_dict data "" ∅ = Raise ValueError
      /\ to_npz savez_allow_pickle data output_path fs
         = (Raise ValueError, fs)).
Proof.
  intros L saved.
  assert (Hsome : forall k e, saved !! k = Some e ->
            exists v, In (k, v) L /\ npz_entry v = Some e).
  { intros k e H. unfold saved in H.
    destruct (store_leaves_lookup _ _ _ _ H) as [H'|H']; [|exact H'].
    now rewrite lookup_empty in H'. }
  split; [exact Hsome|]. split; [|split; [|split; [|split]]].
  - intros k. split.
    + intros [e He]. destruct (Hsome k e He) as (v & Hv & Hv').
      exists v. split; [exact Hv|]. now rewrite Hv'.
    + intros H. unfold saved. apply store_leaves_present. now right.
  - intros k Hnone. destruct (saved !! k) as [e|] eqn:E; [|reflexivity].
    destruct (Hsome k e E) as (v & Hv & Hv').
    rewrite (Hnone v Hv) in Hv'. discriminate.
  - intros prefix key v arrays' Hleaf Hnone.
    destruct v; try discriminate; try reflexivity. now destruct (Hleaf items).
  - intros Hconv.
    assert (Hok : process_dict data "" ∅ = Ok saved).
    { rewrite process_dict_leaves. unfold store_leaves. fold L.
      now rewrite Hconv. }
    split; [exact Hok|]. unfold to_npz. rewrite Hok.
    split; [reflexivity|]. split.
    + intros Hfile Hflag. unfold savez_compressed.
      rewrite bool_decide_eq_false_2 by (rewrite Hfile; apply is_Some_None).
      rewrite Hflag. now eexists.
    + intros Hfile. unfold savez_compressed.
      now rewrite bool_decide_eq_true_2 by exact Hfile.
  - intros Hconv.
    assert (Hno : process_dict data "" ∅ = Raise ValueError).
    { rewrite process_dict_leaves. unfold store_leaves. fold L.
      now rewrite Hconv. }
    split; [exact Hno|]. unfold to_npz. now rewrite Hno.
Qed.

End Formatter.

Section FormatterExamples.

Import OutputFormatter.

Open Scope string_scope.

(** An unsupported format, on a concrete call: nothing is written. *)
Example save_features_unsupported :
  save_features savez_keeps_allow_pickle (fun p => p)
    [("tempo", PyFloat 120%R)] "out" "xml" ∅
  = (Raise ValueError, ∅).
Proof. reflexivity. Qed.

Example save_features_json_path :
  fst (save_features savez_keeps_allow_pickle (fun p => p)
         [("tempo", PyFloat 120%R)] "out" "json" ∅)
  = Ok "out.json".
Proof. reflexivity. Qed.


(** C10, as the specification states it, fails on a key clash: the string
    leaf under [a_b] is not saved, and yet its key is in the bundle, with
    the value of the nested leaf [a] / [b]. *)
Lemma to_npz_key_still_present :
  let data := [("a", Dict [("b", PyInt 1)]); ("a_b", PyStr "note")] in
  In ("a_b", PyStr "note") (leaves data "")
  /\ npz_entry (PyStr "note") = None
  /\ process_dict data "" ∅ = Ok {[ "a_b" := OfScalar (PyInt 1) ]}
  /\ to_npz savez_keeps_allow_pickle data "out" ∅
     = (Ok tt, {[ "out.npz" := NpzFile {[ "a_b" := OfScalar (PyInt 1) ]} ]}).
Proof.
  cbv zeta. split; [cbn; tauto|]. split; [reflexivity|].
  split; [reflexivity|reflexivity].
Qed.

End FormatterExamples.


(** * Further properties of the code *)

(** ** The reconstructor on arbitrary spectra *)

Section ReconstructorMore.

Open Scope R_scope.

Lemma peak_normalized_bounded (w w' : list R) :
  peak_normalized w = Ok w' -> Forall (fun x => Rabs x <= 1) w'.
Proof.
  unfold peak_normalized. destruct w as [|x t]; [discriminate|].
  cbn [Np.abs Np.max map Py.bind].
  set (peak := maximum (Rabs x) (map Rabs t)).
  assert (Hle : forall y, In y (x :: t) -> Rabs y <= peak).
  { intros y Hy. apply maximum_ge.
    change (In (Rabs y) (map Rabs (x :: t))). now apply in_map. }
  destruct (Rlt_dec 0 peak) as [Hpos|Hnpos]; intros [= <-];
    apply List.Forall_forall; intros y Hy.
  - change (In y (map (fun x0 => x0 / peak) (x :: t))) in Hy.
    apply in_map_iff in Hy. destruct Hy as (y0 & <- & Hy0).
    unfold Rdiv. rewrite Rabs_mult, (Rabs_right (/ peak)).
    + apply (Rmult_le_reg_r peak); [exact Hpos|].
      rewrite Rmult_assoc, Rinv_l, Rmult_1_r, Rmult_1_l by lra.
      now apply Hle.
    + apply Rle_ge. left. now apply Rinv_0_lt_compat.
  - specialize (Hle y Hy). pose proof (Rabs_pos y). lra.
Qed.

Lemma waveform_within_unit (spectrum : list R)
    (wavetable_size : Z) (w : list R) :
  waveform spectrum wavetable_size = Ok w ->
  Forall (fun x => -1 <= x <= 1) w.
Proof.
  intros Hw. unfold waveform in Hw.
  destruct (complex_spectrum_of spectrum wavetable_size); [|discriminate].
  cbn [Py.bind] in Hw.
  destruct (ifft_real a) as [raw|e]; [|discriminate]. cbn [Py.bind] in Hw.
  apply peak_normalized_bounded in Hw.
  eapply List.Forall_impl; [|exact Hw].
  intros x Hx. cbv beta in Hx.
  unfold Rabs in Hx. destruct (Rcase_abs x); lra.
Qed.

Lemma waveform_size_positive (spectrum : list R)
    (wavetable_size : Z) (w : list R) :
  waveform spectrum wavetable_size = Ok w ->
  (0 < wavetable_size)%Z.
Proof.
  intros Hw. destruct (Z_le_gt_dec wavetable_size 0) as [Hle|Hgt]; [|lia].
  rewrite waveform_nonpositive_size in Hw by exact Hle.
  discriminate.
Qed.

Lemma waveform_samples_bounded (spectrum : list R)
    (wavetable_size : Z) (w : list R) :
  waveform spectrum wavetable_size = Ok w ->
  Z.of_nat (length w) = wavetable_size
  /\ Forall (fun x => -1 <= x <= 1) w.
Proof.
  intros Hw. split.
  - rewrite (waveform_length _ _ _ Hw).
    apply waveform_size_positive in Hw. lia.
  - now apply (waveform_within_unit spectrum wavetable_size).
Qed.

Lemma Forall_finite_within (lo hi : R) (l : list R) :
  Forall (fun x => lo <= x <= hi) l ->
  Forall (finite_within lo hi) (map Finite l).
Proof.
  intros H. apply List.Forall_forall. intros x Hx. apply in_map_iff in Hx.
  destruct Hx as (a & <- & Ha). exists a. split; [reflexivity|].
  rewrite List.Forall_forall in H. now apply H.
Qed.

(** X1: whenever [create_wavetable_from_spectrum] returns, for any real
    spectrum, the waveform has exactly [wavetable_size] samples and every
    sample is a finite number within [-1, 1]. *)
Theorem create_wavetable_samples_bounded (spectrum : list R)
    (wavetable_size : Z) (w : list float64) :
  create_wavetable_from_spectrum spectrum wavetable_size = Ok w ->
  Z.of_nat (length w) = wavetable_size
  /\ Forall (finite_within (-1) 1) w.
Proof.
  intros Hw. apply create_wavetable_Ok in Hw. destruct Hw as (w' & Hw' & ->).
  destruct (waveform_samples_bounded _ _ _ Hw') as [Hlen Hb].
  split; [now rewrite length_map|]. now apply Forall_finite_within.
Qed.

Lemma create_wavetable_samples_bounded_witness :
  Z.of_nat (length [Finite 1; Finite 1]) = 2%Z
  /\ Forall (finite_within (-1) 1) [Finite 1; Finite 1].
Proof.
  apply (create_wavetable_samples_bounded [1] 2).
  apply create_wavetable_constant.
Defined.

Lemma create_wavetable_returns_iff (spectrum : list R) (wavetable_size : Z) :
  returns (create_wavetable_from_spectrum spectrum wavetable_size)
  <-> returns (waveform spectrum wavetable_size).
Proof.
  rewrite create_wavetable_finite.
  destruct (waveform spectrum wavetable_size) as [w|e]; cbn [Py.bind].
  - split; intros _; eexists; reflexivity.
  - split; intros [w H]; discriminate.
Qed.

Lemma waveform_size_domain (spectrum : list R)
    (wavetable_size : Z) :
  (returns (waveform spectrum wavetable_size)
   <-> (0 < wavetable_size)%Z
       /\ (Z.even wavetable_size = true \/ wavetable_size = 1%Z
           \/ wavetable_size = 5%Z))
  /\ (returns (waveform spectrum wavetable_size)
      \/ waveform spectrum wavetable_size
         = Raise ValueError).
Proof.
  split; [apply waveform_returns_iff|].
  destruct (Z_le_gt_dec wavetable_size 0) as [Hle|Hgt].
  { right. now apply waveform_nonpositive_size. }
  destruct (Z.even wavetable_size) eqn:Heven.
  { left. apply waveform_returns; [lia|now left]. }
  assert (Hodd : Z.odd wavetable_size = true)
    by (rewrite <- Z.negb_even, Heven; reflexivity).
  apply Z.odd_spec in Hodd. destruct Hodd as [k ->].
  destruct (Z.eq_dec k 0%Z) as [->|H0].
  { left. apply waveform_returns; [lia|right; now left]. }
  destruct (Z.eq_dec k 2%Z) as [->|H2].
  { left. apply waveform_returns; [lia|right; now right]. }
  right. unfold waveform.
  now rewrite complex_spectrum_of_odd by lia.
Qed.

(** X2: the sizes on which the reconstructor works, for any spectrum: it
    returns a waveform exactly when [wavetable_size] is positive and even,
    or 1, or 5; on every other size it raises [ValueError]. *)
Theorem create_wavetable_size_domain (spectrum : list R)
    (wavetable_size : Z) :
  (returns (create_wavetable_from_spectrum spectrum wavetable_size)
   <-> (0 < wavetable_size)%Z
       /\ (Z.even wavetable_size = true \/ wavetable_size = 1%Z
           \/ wavetable_size = 5%Z))
  /\ (returns (create_wavetable_from_spectrum spectrum wavetable_size)
      \/ create_wavetable_from_spectrum spectrum wavetable_size
         = Raise ValueError).
Proof.
  destruct (waveform_size_domain spectrum wavetable_size) as [Hiff Hcases].
  split.
  - now rewrite create_wavetable_returns_iff.
  - destruct Hcases as [H|H].
    + left. now apply create_wavetable_returns_iff.
    + right. now apply create_wavetable_Raise.
Qed.

Lemma padded_spectrum_take (spectrum : list R) (wavetable_size : Z) :
  padded_spectrum (firstn (Z.to_nat (wavetable_size / 2)) spectrum)
    wavetable_size
  = padded_spectrum spectrum wavetable_size.
Proof.
  unfold padded_spectrum. now rewrite firstn_firstn, Nat.min_id.
Qed.

Lemma waveform_from_padded (s1 s2 : list R) (wavetable_size : Z) :
  padded_spectrum s1 wavetable_size = padded_spectrum s2 wavetable_size ->
  waveform s1 wavetable_size
  = waveform s2 wavetable_size.
Proof.
  intros Hpad. destruct (Z_le_gt_dec wavetable_size 0) as [Hle|Hgt].
  - now rewrite !waveform_nonpositive_size by exact Hle.
  - unfold waveform.
    rewrite !complex_spectrum_of_unfold by lia. cbv zeta.
    now rewrite Hpad.
Qed.

(** X3: only the first [wavetable_size // 2] bins of the spectrum are used:
    cutting the spectrum to them beforehand gives the same outcome, for
    every spectrum and every size. *)
Theorem create_wavetable_ignores_high_bins (spectrum : list R)
    (wavetable_size : Z) :
  create_wavetable_from_spectrum
    (firstn (Z.to_nat (wavetable_size / 2)) spectrum) wavetable_size
  = create_wavetable_from_spectrum spectrum wavetable_size.
Proof.
  rewrite !create_wavetable_finite. f_equal.
  apply waveform_from_padded.
  apply padded_spectrum_take.
Qed.

Lemma firstn_repeat_min (x : R) (j k : nat) :
  firstn j (repeat x k) = repeat x (Nat.min j k).
Proof.
  revert k. induction j as [|j IH]; intros [|k]; cbn; try reflexivity.
  now rewrite IH.
Qed.

(** X4: a short spectrum is padded with zero bins: writing zero bins at its
    end explicitly gives the same outcome, for every spectrum, size and
    number of added bins. *)
Theorem create_wavetable_zero_padding (spectrum : list R)
    (wavetable_size : Z) (k : nat) :
  create_wavetable_from_spectrum (spectrum ++ repeat 0 k) wavetable_size
  = create_wavetable_from_spectrum spectrum wavetable_size.
Proof.
  rewrite !create_wavetable_finite. f_equal.
  apply waveform_from_padded. unfold padded_spectrum.
  set (h := Z.to_nat (wavetable_size / 2)).
  set (n := Z.to_nat wavetable_size).
  rewrite firstn_app, List.map_app, <- app_assoc. f_equal.
  rewrite firstn_repeat_min.
  replace (map RtoC (repeat 0 (Nat.min (h - length spectrum) k)))
    with (repeat C0 (Nat.min (h - length spectrum) k))
    by (induction (Nat.min _ _) as [|j IH]; cbn; [|rewrite <- IH];
        reflexivity).
  rewrite <- repeat_app. f_equal.
  rewrite length_app, repeat_length, !length_firstn.
  assert (Hhn : (h <= n)%nat \/ (n = 0)%nat).
  { unfold h, n. destruct (Z_le_gt_dec wavetable_size 0); [right; lia|].
    left. pose proof (half_le wavetable_size). lia. }
  assert (Hh0 : (n = 0)%nat -> (h = 0)%nat).
  { unfold h, n. intros Hn.
    assert (wavetable_size <= 0)%Z by lia.
    assert (wavetable_size / 2 <= 0)%Z by (Z.div_mod_to_equations; lia).
    lia. }
  lia.
Qed.







End ReconstructorMore.

(** ** The stack, in full *)

Section StackMore.

Lemma map_result_Forall2 {A B : Type} (f : A -> result B) (xs : list A)
    (ys : list B) :
  map_result f xs = Ok ys -> Forall2 (fun x y => f x = Ok y) xs ys.
Proof.
  revert ys. induction xs as [|x xs IH]; intros ys H; cbn in H.
  - injection H as <-. constructor.
  - destruct (f x) as [y|e] eqn:Hy; cbn in H; [|discriminate].
    destruct (map_result f xs) as [ys'|e]; cbn in H; [|discriminate].
    injection H as <-. constructor; [exact Hy|now apply IH].
Qed.

Lemma map_result_returns {A B : Type} (f : A -> result B) (xs : list A) :
  (forall x, In x xs -> returns (f x)) -> returns (map_result f xs).
Proof.
  induction xs as [|x xs IH]; intros H; cbn.
  - now eexists.
  - destruct (H x (or_introl eq_refl)) as [y ->]. cbn.
    destruct IH as [ys ->]; [intros x' Hx'; apply H; now right|].
    cbn. now eexists.
Qed.

Lemma map_result_first_raises {A B : Type} (f : A -> result B) (x : A)
    (xs : list A) (e : py_error) :
  f x = Raise e -> map_result f (x :: xs) = Raise e.
Proof. intros H. cbn. now rewrite H. Qed.

(** X8: whenever [create_wavetable_stack] returns, the stack has exactly
    [num_tables] tables, each of exactly [wavetable_size] samples, and
    every sample is a finite number within [-1, 1]. *)
Theorem create_wavetable_stack_shape (stft_matrix : ndarray2)
    (num_tables wavetable_size : Z) (tables : list (list float64)) :
  create_wavetable_stack stft_matrix num_tables wavetable_size = Ok tables ->
  Z.of_nat (length tables) = num_tables
  /\ Forall (fun table =>
               Z.of_nat (length table) = wavetable_size
               /\ Forall (finite_within (-1) 1) table) tables.
Proof.
  intros H. rewrite create_wavetable_stack_tables in H.
  destruct (frame_indices (shape1 stft_matrix) num_tables) as [idx|e]
    eqn:Hidx; cbn [Py.bind] in H; [|discriminate].
  destruct (zeros2 (Finite 0%R) num_tables wavetable_size) as [z|e] eqn:Hz;
    cbn [Py.bind] in H; [|discriminate].
  assert (HT : 0 <= num_tables).
  { unfold zeros2 in Hz. destruct (num_tables <? 0) eqn:E; [discriminate|].
    lia. }
  apply map_result_Forall2 in H.
  split.
  - rewrite <- (Forall2_length _ _ _ H), (frame_indices_length _ _ _ Hidx).
    lia.
  - clear Hidx. induction H as [|j table idx' tables' Hj _ IH];
      constructor; [|exact IH].
    unfold table_of_frame in Hj.
    destruct (column stft_matrix j) as [col|e]; cbn [Py.bind] in Hj;
      [|discriminate].
    apply create_wavetable_Ok in Hj. destruct Hj as (w & Hw & ->).
    destruct (waveform_samples_bounded _ _ _ Hw) as [Hlen Hb].
    split; [now rewrite length_map|]. now apply Forall_finite_within.
Qed.

Lemma column_in_range (stft_matrix : ndarray2) (j : Z) :
  0 <= j < Z.of_nat (shape1 stft_matrix) ->
  returns (column stft_matrix j).
Proof.
  intros Hj. unfold column.
  destruct (j <? 0) eqn:E; [lia|].
  destruct ((j <? 0) || (Z.of_nat (shape1 stft_matrix) <=? j)) eqn:E';
    [|now eexists].
  apply orb_true_iff in E'. destruct E' as [E'|E']; lia.
Qed.

Lemma create_wavetable_stack_returns (stft_matrix : ndarray2)
    (num_tables wavetable_size : Z) :
  (1 <= shape1 stft_matrix)%nat -> 0 <= num_tables ->
  Z.of_nat (shape1 stft_matrix) * num_tables <= 2 ^ 50 ->
  0 < wavetable_size ->
  Z.even wavetable_size = true \/ wavetable_size = 1 \/ wavetable_size = 5 ->
  returns (create_wavetable_stack stft_matrix num_tables wavetable_size).
Proof.
  intros HF HT Hsmall HW Hsize. rewrite create_wavetable_stack_tables.
  destruct (Z.eq_dec num_tables 0) as [->|HT0].
  { rewrite frame_indices_eq by lia. cbn [Py.bind].
    unfold zeros2. destruct (wavetable_size <? 0) eqn:E; [lia|].
    cbn. now eexists. }
  destruct (frame_indices (shape1 stft_matrix) num_tables) as [idx|e]
    eqn:Hidx; [|now rewrite frame_indices_eq in Hidx by lia].
  cbn [Py.bind].
  assert (HT1 : 1 <= num_tables) by lia.
  pose proof (frame_indices_in_range _ _ _ HF HT1 Hsmall Hidx) as Hin.
  unfold zeros2. destruct (num_tables <? 0) eqn:E1; [lia|].
  destruct (wavetable_size <? 0) eqn:E2; [lia|]. cbn [orb Py.bind].
  apply map_result_returns. intros j Hj.
  rewrite List.Forall_forall in Hin. specialize (Hin j Hj).
  cbv beta in Hin. unfold table_of_frame.
  destruct (column_in_range stft_matrix j) as [col ->]; [lia|].
  cbn [Py.bind]. apply create_wavetable_returns_iff.
  now apply waveform_returns.
Qed.

Lemma create_wavetable_stack_shape_witness :
  exists tables,
    create_wavetable_stack (Ndarray2 3 [[1; 0; 2]; [0; 3; 1]]%R) 4 8
    = Ok tables
    /\ Z.of_nat (length tables) = 4
    /\ Forall (fun table =>
                 Z.of_nat (length table) = 8
                 /\ Forall (finite_within (-1) 1) table) tables.
Proof.
  destruct (create_wavetable_stack_returns
              (Ndarray2 3 [[1; 0; 2]; [0; 3; 1]]%R) 4 8) as [tables H];
    [cbn; lia|lia|cbn; lia|lia|now left|].
  exists tables. split; [exact H|].
  exact (create_wavetable_stack_shape _ _ _ _ H).
Defined.

Lemma first_table_of_frame (stft_matrix : ndarray2)
    (num_tables wavetable_size : Z) :
  1 <= num_tables -> 0 <= wavetable_size ->
  exists rest,
    create_wavetable_stack stft_matrix num_tables wavetable_size
    = map_result (table_of_frame stft_matrix wavetable_size) (0 :: rest).
Proof.
  intros HT HW. rewrite create_wavetable_stack_tables.
  destruct (frame_indices_head (shape1 stft_matrix) num_tables HT)
    as (rest & ->).
  cbn [Py.bind]. unfold zeros2.
  destruct (num_tables <? 0) eqn:E1; [lia|].
  destruct (wavetable_size <? 0) eqn:E2; [lia|]. cbn [orb Py.bind].
  now exists rest.
Qed.

(** X9: what [create_wavetable_stack] does on every input. A negative
    [num_tables] or [wavetable_size] raises [ValueError]; no table at all
    ([num_tables = 0]) gives the empty stack; a matrix without frames
    raises [IndexError] as soon as one table is asked for; with at least
    one frame and one table (and sizes whose product is at most [2^50])
    the call returns exactly on the sizes the reconstructor accepts, and
    it raises [ValueError] on the others. *)
Theorem create_wavetable_stack_outcome (stft_matrix : ndarray2)
    (num_tables wavetable_size : Z) :
  let stack :=
    create_wavetable_stack stft_matrix num_tables wavetable_size in
  (num_tables < 0 \/ wavetable_size < 0 -> stack = Raise ValueError)
  /\ (num_tables = 0 -> 0 <= wavetable_size -> stack = Ok [])
  /\ (1 <= num_tables -> 0 <= wavetable_size ->
      shape1 stft_matrix = 0%nat -> stack = Raise IndexError)
  /\ (1 <= num_tables -> (1 <= shape1 stft_matrix)%nat ->
      Z.of_nat (shape1 stft_matrix) * num_tables <= 2 ^ 50 ->
      0 < wavetable_size ->
      Z.even wavetable_size = true \/ wavetable_size = 1
      \/ wavetable_size = 5 ->
      returns stack)
  /\ (1 <= num_tables -> (1 <= shape1 stft_matrix)%nat ->
      0 <= wavetable_size ->
      ~ (0 < wavetable_size
         /\ (Z.even wavetable_size = true \/ wavetable_size = 1
             \/ wavetable_size = 5)) ->
      stack = Raise ValueError).
Proof.
  intros stack. unfold stack.
  split; [|split; [|split; [|split]]].
  - intros Hneg. rewrite create_wavetable_stack_tables.
    unfold frame_indices, linspace_int, linspace, zeros2.
    destruct (num_tables <? 0) eqn:E; [reflexivity|]. cbn [Py.bind orb].
    destruct (wavetable_size <? 0) eqn:E'; [reflexivity|]. lia.
  - intros -> HW. rewrite create_wavetable_stack_tables.
    rewrite frame_indices_eq by lia. cbn [Py.bind]. unfold zeros2.
    destruct (wavetable_size <? 0) eqn:E; [lia|]. reflexivity.
  - intros HT HW HF.
    destruct (first_table_of_frame stft_matrix num_tables wavetable_size
                HT HW) as (rest & ->).
    apply map_result_first_raises.
    unfold table_of_frame, column. rewrite HF. reflexivity.
  - intros HT HF Hsmall HW Hsize.
    apply create_wavetable_stack_returns; try assumption. lia.
  - intros HT HF HW Hbad.
    destruct (first_table_of_frame stft_matrix num_tables wavetable_size
                HT HW) as (rest & ->).
    apply map_result_first_raises. unfold table_of_frame.
    destruct (column_in_range stft_matrix 0) as [col ->]; [lia|].
    cbn [Py.bind]. apply create_wavetable_Raise.
    now apply waveform_rejects.
Qed.

End StackMore.

(** ** The basic waveform generators *)

Section Generators.

Open Scope R_scope.

Lemma nth_error_map_range (f : Z -> R) (n : Z) (i : nat) :
  (Z.of_nat i < n)%Z ->
  nth_error (map f (range n)) i = Some (f (Z.of_nat i)).
Proof.
  intros Hi. unfold range. rewrite map_map, nth_error_map, nth_error_seq.
  destruct (Nat.ltb_spec i (Z.to_nat n)) as [_|H]; [reflexivity|lia].
Qed.

(** X10: the sine table has [wavetable_size] samples (none for a size
    below 1), all within [-1, 1]; it starts at 0, and when the size is a
    multiple of 4 it is 1 a quarter of the way and -1 three quarters of
    the way. *)
Theorem generate_sine_wavetable_period (wavetable_size : Z) :
  let table := generate_sine_wavetable wavetable_size in
  length table = Z.to_nat wavetable_size
  /\ Forall (fun x => -1 <= x <= 1) table
  /\ ((0 < wavetable_size)%Z -> nth_error table 0 = Some 0)
  /\ (forall m : Z, (0 < m)%Z -> wavetable_size = (4 * m)%Z ->
        nth_error table (Z.to_nat m) = Some 1
        /\ nth_error table (Z.to_nat (3 * m)) = Some (-1)).
Proof.
  intros table. unfold table, generate_sine_wavetable.
  split; [now rewrite length_map, length_range|].
  split.
  { apply List.Forall_forall. intros x Hx. apply in_map_iff in Hx.
    destruct Hx as (i & <- & _). apply SIN_bound. }
  split.
  { intros HN. rewrite nth_error_map_range by (cbn; lia). f_equal.
    cbn [Z.of_nat]. unfold Rdiv. rewrite Rmult_0_r, Rmult_0_l.
    apply sin_0. }
  intros m Hm ->.
  assert (Hm0 : IZR m <> 0) by (apply not_0_IZR; lia).
  rewrite !nth_error_map_range by lia. rewrite !Z2Nat.id by lia.
  rewrite !mult_IZR.
  split; f_equal.
  - replace (2 * PI * IZR m / (4 * IZR m)) with (PI / 2) by (field; lra).
    apply sin_PI2.
  - replace (2 * PI * (3 * IZR m) / (4 * IZR m)) with (3 * (PI / 2))
      by (field; lra).
    apply sin_3PI2.
Qed.

(** X12: the saw table has [wavetable_size] samples, sample [i] being
    [2 i / wavetable_size - 1]: it starts at -1, rises strictly from sample
    to sample, and stays below 1. *)
Theorem generate_saw_wavetable_ramp (wavetable_size : Z) :
  let table := generate_saw_wavetable wavetable_size in
  length table = Z.to_nat wavetable_size
  /\ (forall i : nat, (Z.of_nat i < wavetable_size)%Z ->
        nth_error table i = Some (2 * INR i / IZR wavetable_size - 1))
  /\ ((0 < wavetable_size)%Z -> nth_error table 0 = Some (-1))
  /\ Forall (fun x => -1 <= x < 1) table
  /\ (forall (i j : nat) (x y : R),
        (i < j)%nat -> nth_error table i = Some x ->
        nth_error table j = Some y -> x < y).
Proof.
  intros table. unfold table, generate_saw_wavetable.
  assert (Hnth : forall i : nat, (Z.of_nat i < wavetable_size)%Z ->
            nth_error (map (fun i0 : Z => 2 * (IZR i0 / IZR wavetable_size) - 1)
                         (range wavetable_size)) i
            = Some (2 * INR i / IZR wavetable_size - 1)).
  { intros i Hi. rewrite nth_error_map_range by exact Hi. f_equal.
    rewrite <- INR_IZR_INZ. unfold Rdiv. ring. }
  split; [now rewrite length_map, length_range|].
  split; [exact Hnth|].
  split.
  { intros HN. rewrite Hnth by (cbn; lia). f_equal. cbn [INR].
    unfold Rdiv. ring. }
  split.
  { apply List.Forall_forall. intros x Hx. apply in_map_iff in Hx.
    destruct Hx as (i & <- & Hi). apply In_range in Hi.
    assert (HN : 0 < IZR wavetable_size) by (apply IZR_lt; lia).
    assert (H0 : 0 <= IZR i) by (apply IZR_le; lia).
    assert (H1 : IZR i < IZR wavetable_size) by (apply IZR_lt; lia).
    assert (Hq : 0 <= IZR i / IZR wavetable_size < 1).
    { split.
      - apply Rmult_le_pos; [exact H0|]. left. now apply Rinv_0_lt_compat.
      - apply (Rmult_lt_reg_r (IZR wavetable_size)); [exact HN|].
        unfold Rdiv. rewrite Rmult_assoc, Rinv_l by lra. lra. }
    lra. }
  intros i j x y Hij Hx Hy.
  assert (Hj : (Z.of_nat j < wavetable_size)%Z).
  { match type of Hy with
    | nth_error ?l _ = _ =>
        assert (Hsome : nth_error l j <> None) by (rewrite Hy; discriminate)
    end.
    apply nth_error_Some in Hsome.
    rewrite length_map, length_range in Hsome. lia. }
  rewrite Hnth in Hx by lia. rewrite Hnth in Hy by lia.
  injection Hx as <-. injection Hy as <-.
  assert (HN : 0 < IZR wavetable_size) by (apply IZR_lt; lia).
  assert (Hlt : INR i < INR j) by now apply lt_INR.
  assert (Hd : INR i / IZR wavetable_size < INR j / IZR wavetable_size).
  { unfold Rdiv. apply Rmult_lt_compat_r; [|exact Hlt].
    now apply Rinv_0_lt_compat. }
  unfold Rdiv in *. rewrite !Rmult_assoc. lra.
Qed.

(** X13: the square table has [wavetable_size] samples: the first
    [wavetable_size // 2] are 1 and all the others are -1; so for an even
    size the samples sum to 0, and for an odd size to -1. *)
Theorem generate_square_wavetable_halves (wavetable_size : Z) :
  (0 <= wavetable_size)%Z ->
  let half := Z.to_nat (wavetable_size / 2) in
  generate_square_wavetable wavetable_size
  = repeat 1 half ++ repeat (-1) (Z.to_nat wavetable_size - half)
  /\ (Z.even wavetable_size = true ->
      fold_right Rplus 0 (generate_square_wavetable wavetable_size) = 0)
  /\ (Z.odd wavetable_size = true ->
      fold_right Rplus 0 (generate_square_wavetable wavetable_size) = -1).
Proof.
  intros HN half.
  assert (Hhalf : (0 <= wavetable_size / 2 <= wavetable_size)%Z)
    by (Z.div_mod_to_equations; lia).
  assert (Heq : generate_square_wavetable wavetable_size
                = repeat 1 half
                  ++ repeat (-1) (Z.to_nat wavetable_size - half)).
  { unfold generate_square_wavetable, range.
    replace (Z.to_nat wavetable_size)
      with (half + (Z.to_nat wavetable_size - half))%nat at 1
      by (unfold half; lia).
    rewrite seq_app, !List.map_app. f_equal.
    - rewrite map_map.
      rewrite (map_ext_in _ (fun _ => 1)).
      + generalize 0%nat. induction half as [|k IH]; intros s; cbn;
          [reflexivity|]. now rewrite IH.
      + intros i Hi. apply in_seq in Hi.
        destruct (Z.of_nat i <? wavetable_size / 2)%Z eqn:E;
          [reflexivity|]. unfold half in Hi. lia.
    - rewrite map_map.
      rewrite (map_ext_in _ (fun _ => -1)).
      + generalize (0 + half)%nat.
        induction (Z.to_nat wavetable_size - half)%nat as [|k IH];
          intros s; cbn; [reflexivity|]. now rewrite IH.
      + intros i Hi. apply in_seq in Hi.
        destruct (Z.of_nat i <? wavetable_size / 2)%Z eqn:E;
          [|reflexivity]. unfold half in Hi. lia. }
  assert (Hsum : forall (x : R) (k : nat),
            fold_right Rplus 0 (repeat x k) = INR k * x).
  { intros x k. induction k as [|k IH]; [cbn; ring|].
    rewrite S_INR. cbn [repeat fold_right]. rewrite IH. ring. }
  assert (Htotal : fold_right Rplus 0
                     (generate_square_wavetable wavetable_size)
                   = INR half - INR (Z.to_nat wavetable_size - half)).
  { rewrite Heq, fold_right_app, Hsum.
    assert (Hacc : forall (l : list R) (a : R),
              fold_right Rplus a l = fold_right Rplus 0 l + a).
    { intros l a. induction l as [|y l IH]; cbn; [ring|].
      rewrite IH. ring. }
    rewrite Hacc, Hsum. ring. }
  split; [exact Heq|]. split.
  - intros Heven. rewrite Htotal.
    apply Z.even_spec in Heven. destruct Heven as [k Hk].
    assert (Hh : (wavetable_size / 2 = k)%Z)
      by (subst; rewrite Z.mul_comm, Z.div_mul; lia).
    replace (Z.to_nat wavetable_size - half)%nat with half
      by (unfold half; lia).
    ring.
  - intros Hodd. rewrite Htotal.
    apply Z.odd_spec in Hodd. destruct Hodd as [k Hk].
    assert (Hh : (wavetable_size / 2 = k)%Z)
      by (subst; Z.div_mod_to_equations; lia).
    replace (Z.to_nat wavetable_size - half)%nat with (S half)
      by (unfold half; lia).
    rewrite S_INR. ring.
Qed.

Lemma generate_square_wavetable_halves_witness :
  generate_square_wavetable 5 = [1; 1; -1; -1; -1].
Proof.
  destruct (generate_square_wavetable_halves 5) as [H _]; [lia|exact H].
Defined.

End Generators.

(** ** [save_wavetable], in full *)

Section SerializerMore.

Open Scope R_scope.

Lemma headroom_samples_flat (wavetable : ndarray) :
  headroom_samples wavetable
  = let flattened := table_samples wavetable in
    let* peak := Np.max (Np.abs flattened) in
    if Rlt_dec 0 peak
    then Ok (map (fun x => x / peak * 0.9) flattened)
    else Ok flattened.
Proof.
  unfold headroom_samples. fold (table_samples wavetable). cbv zeta.
  destruct (Np.max (Np.abs (table_samples wavetable))) as [peak|e];
    cbn [Py.bind]; [|reflexivity].
  now destruct (Rlt_dec 0 peak).
Qed.

(** What [sf.write] does with a call is the library's. *)
Variable sf_write :
  string -> list float64 -> Z -> string -> gmap string Fs.audio_file ->
  result unit * gmap string Fs.audio_file.

(** X14: a wavetable without samples, 1-D or 2-D, makes [save_wavetable]
    raise [ValueError], and no file is written. *)
Theorem save_wavetable_empty_raises (self : WavetableSynthesizer.t)
    (wavetable : ndarray) (output_path format : string)
    (fs : gmap string Fs.audio_file) :
  table_samples wavetable = [] ->
  save_wavetable sf_write self wavetable output_path format fs
  = (Raise ValueError, fs).
Proof.
  intros Hempty. unfold save_wavetable.
  rewrite samples_to_write_finite, headroom_samples_flat. cbv zeta.
  now rewrite Hempty.
Qed.

Lemma headroom_samples_bounded (wavetable : ndarray) (written : list R) :
  headroom_samples wavetable = Ok written ->
  length written = length (table_samples wavetable)
  /\ Forall (fun x => Rabs x <= 0.9) written.
Proof.
  rewrite headroom_samples_flat. cbv zeta.
  destruct (table_samples wavetable) as [|x t]; [discriminate|].
  cbn [Np.abs Np.max map Py.bind].
  set (peak := maximum (Rabs x) (map Rabs t)).
  assert (Hle : forall y, In y (x :: t) -> Rabs y <= peak).
  { intros y Hy. apply maximum_ge.
    change (In (Rabs y) (map Rabs (x :: t))). now apply in_map. }
  destruct (Rlt_dec 0 peak) as [Hpos|Hnpos]; intros [= <-].
  - split; [cbn; now rewrite length_map|].
    apply List.Forall_forall. intros y Hy.
    change (In y (map (fun x0 => x0 / peak * 0.9) (x :: t))) in Hy.
    apply in_map_iff in Hy. destruct Hy as (y0 & <- & Hy0).
    unfold Rdiv. rewrite !Rabs_mult, (Rabs_right (/ peak)),
      (Rabs_right 0.9) by (try lra; apply Rle_ge; left;
                           now apply Rinv_0_lt_compat).
    assert (Hq : Rabs y0 * / peak <= 1).
    { apply (Rmult_le_reg_r peak); [exact Hpos|].
      rewrite Rmult_assoc, Rinv_l, Rmult_1_r, Rmult_1_l by lra.
      now apply Hle. }
    pose proof (Rabs_pos y0).
    assert (0 <= Rabs y0 * / peak).
    { apply Rmult_le_pos; [lra|]. left. now apply Rinv_0_lt_compat. }
    nra.
  - split; [reflexivity|].
    apply List.Forall_forall. intros y Hy.
    specialize (Hle y Hy). pose proof (Rabs_pos y). lra.
Qed.

Lemma length_concat_uniform (rows : list (list R)) (n : nat) :
  Forall (fun row => length row = n) rows ->
  length (concat rows) = (length rows * n)%nat.
Proof.
  induction 1 as [|row rows Hrow _ IH]; [reflexivity|].
  cbn [concat length]. rewrite length_app, IH, Hrow. lia.
Qed.

(** X15: on every wavetable with at least one sample [save_wavetable]
    hands to [sf.write] the output path, the synthesizer's sample rate,
    the given format and as many samples as the input has, each a finite
    number within [-0.9, 0.9]; for a stack of [k] tables of [n] samples
    that is [k * n] samples. The outcome of the call is that of
    [sf.write]. *)
Theorem save_wavetable_writes_all (self : WavetableSynthesizer.t)
    (wavetable : ndarray) (output_path format : string)
    (fs : gmap string Fs.audio_file) :
  table_samples wavetable <> [] ->
  exists written,
    samples_to_write wavetable = Ok written
    /\ save_wavetable sf_write self wavetable output_path format fs
       = sf_write output_path written (sr self) format fs
    /\ length written = length (table_samples wavetable)
    /\ Forall (finite_within (-0.9) 0.9) written
    /\ (forall m, wavetable = Arr2 m ->
        Forall (fun row => length row = shape1 m) (rows m) ->
        length written = (length (rows m) * shape1 m)%nat).
Proof.
  intros Hne.
  destruct (headroom_samples wavetable) as [written|e] eqn:Hw.
  - destruct (headroom_samples_bounded _ _ Hw) as [Hlen Hb].
    assert (Hs : samples_to_write wavetable = Ok (map Finite written))
      by now rewrite samples_to_write_finite, Hw.
    exists (map Finite written). unfold save_wavetable. rewrite Hs.
    split; [reflexivity|]. split; [reflexivity|].
    rewrite length_map. split; [exact Hlen|]. split.
    + apply Forall_finite_within.
      eapply List.Forall_impl; [|exact Hb]. intros x Hx. cbv beta in Hx.
      unfold Rabs in Hx. destruct (Rcase_abs x); lra.
    + intros m -> Hrows. rewrite Hlen. cbn [table_samples].
      now apply length_concat_uniform.
  - exfalso. rewrite headroom_samples_flat in Hw. cbv zeta in Hw.
    destruct (table_samples wavetable) as [|x t]; [congruence|].
    cbn [Np.abs Np.max map Py.bind] in Hw.
    now destruct (Rlt_dec 0 _).
Qed.

Lemma peak_of_unit_bounded (l : list R) :
  Forall (fun x => -1 <= x <= 1) l ->
  Exists (fun x => Rabs x = 1) l ->
  Np.max (Np.abs l) = Ok 1.
Proof.
  intros Hb Hex. destruct l as [|x t]; [inversion Hex|].
  cbn [Np.abs Np.max map]. f_equal. apply Rle_antisym.
  - destruct (maximum_In (Rabs x) (map Rabs t)) as [<-|Hin].
    + inversion Hb as [|? ? Hx _]; subst.
      unfold Rabs. destruct (Rcase_abs x); lra.
    + apply in_map_iff in Hin. destruct Hin as (y & <- & Hy).
      inversion Hb as [|? ? _ Ht]; subst.
      rewrite List.Forall_forall in Ht. specialize (Ht y Hy).
      unfold Rabs. destruct (Rcase_abs y); lra.
  - apply List.Exists_exists in Hex. destruct Hex as (y & Hy & <-).
    apply maximum_ge. change (In (Rabs y) (map Rabs (x :: t))).
    now apply in_map.
Qed.

Lemma peak_normalized_reaches_unit (raw w : list R) :
  peak_normalized raw = Ok w -> Exists (fun x => x <> 0) w ->
  Exists (fun x => Rabs x = 1) w.
Proof.
  intros Hw Hex. unfold peak_normalized in Hw.
  destruct (Np.max (Np.abs raw)) as [peak|e] eqn:Hpk; cbn [Py.bind] in Hw;
    [|discriminate].
  destruct (Rlt_dec 0 peak) as [Hpos|Hnpos]; injection Hw as <-.
  - assert (H1 : Np.max (Np.abs (map (fun x => x / peak) raw)) = Ok 1).
    { rewrite (map_ext _ (fun y => y / peak * 1)) by (intros; field; lra).
      apply (peak_after_rescale _ peak 1 Hpk Hpos). lra. }
    destruct (map (fun x => x / peak) raw) as [|y t] eqn:E;
      [discriminate|].
    cbn [Np.abs Np.max map] in H1. injection H1 as H1.
    pose proof (maximum_In (Rabs y) (map Rabs t)) as Hin. rewrite H1 in Hin.
    change (In 1 (map Rabs (y :: t))) in Hin.
    apply in_map_iff in Hin. destruct Hin as (z & Hz & Hzin).
    apply List.Exists_exists. now exists z.
  - exfalso. destruct raw as [|x t]; [discriminate|].
    cbn [Np.abs Np.max map] in Hpk. injection Hpk as Hpk.
    pose proof (maximum_abs_nonneg x t) as H0. rewrite Hpk in H0.
    assert (Hz : maximum (Rabs x) (map Rabs t) = 0) by lra.
    clear Hpk. apply maximum_abs_zero in Hz. rename Hz into Hpk.
    rewrite List.Forall_forall in Hpk. apply List.Exists_exists in Hex.
    destruct Hex as (y & Hy & Hne). now apply Hpk in Hy.
Qed.

Lemma waveform_reaches_unit (spectrum : list R)
    (wavetable_size : Z) (w : list R) :
  waveform spectrum wavetable_size = Ok w ->
  Exists (fun x => x <> 0) w -> Exists (fun x => Rabs x = 1) w.
Proof.
  intros Hw. unfold waveform in Hw.
  destruct (complex_spectrum_of spectrum wavetable_size); [|discriminate].
  cbn [Py.bind] in Hw.
  destruct (ifft_real a) as [raw|e]; [|discriminate]. cbn [Py.bind] in Hw.
  now apply peak_normalized_reaches_unit with (raw := raw).
Qed.

(** X17: the synthesis pipeline end to end: the samples of a stack
    returned by [create_wavetable_stack] are finite, and when the stack is
    not silent [save_wavetable] hands it to [sf.write] as its tables one
    after the other, every sample multiplied by 0.9 (the peak of the stack
    is exactly 1): the tables keep their levels relative to each other. *)
Theorem save_wavetable_of_stack (self : WavetableSynthesizer.t)
    (stft_matrix : ndarray2) (num_tables wavetable_size : Z)
    (stack : list (list float64)) (output_path format : string)
    (fs : gmap string Fs.audio_file) :
  create_wavetable_stack stft_matrix num_tables wavetable_size = Ok stack ->
  exists tables,
    stack = map (map Finite) tables
    /\ (Exists (fun x => x <> 0) (concat tables) ->
        save_wavetable sf_write self
          (Arr2 (Ndarray2 (Z.to_nat wavetable_size) tables))
          output_path format fs
        = sf_write output_path
            (map Finite (map (fun x => x * 0.9) (concat tables)))
            (sr self) format fs).
Proof.
  intros Hstack.
  rewrite create_wavetable_stack_tables in Hstack.
  destruct (frame_indices (shape1 stft_matrix) num_tables) as [idx|e];
    cbn [Py.bind] in Hstack; [|discriminate].
  destruct (zeros2 (Finite 0) num_tables wavetable_size);
    cbn [Py.bind] in Hstack; [|discriminate].
  rewrite tables_of_frames_finite in Hstack.
  destruct (map_result (waveform_of_frame stft_matrix wavetable_size) idx)
    as [tables|e] eqn:Htab; cbn [Py.bind] in Hstack; [|discriminate].
  injection Hstack as <-. exists tables. split; [reflexivity|]. intros Hex.
  apply map_result_Forall2 in Htab.
  assert (Htables : Forall (fun table =>
                      Forall (fun x => -1 <= x <= 1) table
                      /\ (Exists (fun x => x <> 0) table ->
                          Exists (fun x => Rabs x = 1) table)) tables).
  { clear Hex. induction Htab as [|j table idx' tables' Hj _ IH];
      constructor; [|exact IH].
    unfold waveform_of_frame in Hj.
    destruct (column stft_matrix j) as [col|e]; cbn [Py.bind] in Hj;
      [|discriminate].
    split.
    - now apply (waveform_within_unit col wavetable_size).
    - now apply (waveform_reaches_unit col wavetable_size). }
  assert (Hb : Forall (fun x => -1 <= x <= 1) (concat tables)).
  { apply List.Forall_forall. intros x Hx. apply in_concat in Hx.
    destruct Hx as (table & Ht & Hx).
    rewrite List.Forall_forall in Htables.
    destruct (Htables table Ht) as [Hbt _].
    rewrite List.Forall_forall in Hbt. now apply Hbt. }
  assert (Hunit : Exists (fun x => Rabs x = 1) (concat tables)).
  { apply List.Exists_exists in Hex. destruct Hex as (x & Hx & Hx0).
    apply in_concat in Hx. destruct Hx as (table & Ht & Hx).
    rewrite List.Forall_forall in Htables.
    destruct (Htables table Ht) as [_ Hu].
    assert (Hext : Exists (fun y => y <> 0) table)
      by (apply List.Exists_exists; now exists x).
    apply Hu, List.Exists_exists in Hext. destruct Hext as (y & Hy & Hy1).
    apply List.Exists_exists. exists y. split; [|exact Hy1].
    apply in_concat. now exists table. }
  unfold save_wavetable.
  rewrite samples_to_write_finite, headroom_samples_flat. cbv zeta.
  cbn [table_samples rows].
  rewrite (peak_of_unit_bounded _ Hb Hunit). cbn [Py.bind].
  destruct (Rlt_dec 0 1) as [_|H]; [|lra].
  rewrite (map_ext (fun x => x / 1 * 0.9) (fun x => x * 0.9))
    by (intros; field).
  reflexivity.
Qed.

End SerializerMore.

Section SerializerMoreExamples.

Open Scope R_scope.

Lemma save_wavetable_empty_raises_witness :
  save_wavetable Fs.store_audio (init 44100) (Arr2 (Ndarray2 8 []))
    "out.wav" "wav" ∅
  = (Raise ValueError, ∅).
Proof.
  apply (save_wavetable_empty_raises Fs.store_audio (init 44100)
           (Arr2 (Ndarray2 8 []))).
  reflexivity.
Defined.

Lemma save_wavetable_writes_all_witness :
  exists written,
    save_wavetable Fs.store_audio (init 48000)
      (Arr2 (Ndarray2 2 [[1; -2]; [0; 4]])) "t.wav" "wav" ∅
    = (Ok tt, <["t.wav"%string := Fs.AudioFile written 48000 "wav"]> ∅)
    /\ length written = 4%nat
    /\ Forall (finite_within (-0.9) 0.9) written.
Proof.
  destruct (save_wavetable_writes_all Fs.store_audio (init 48000)
              (Arr2 (Ndarray2 2 [[1; -2]; [0; 4]])) "t.wav" "wav" ∅)
    as (written & _ & Hsave & Hlen & Hb & _); [discriminate|].
  exists written. split; [exact Hsave|]. split; [exact Hlen|exact Hb].
Defined.

Lemma save_wavetable_of_stack_witness :
  exists tables,
    create_wavetable_stack (Ndarray2 2 [[1; 2]; [0; 1]]) 1 4
    = Ok (map (map Finite) tables)
    /\ (Exists (fun x => x <> 0) (concat tables) ->
        save_wavetable Fs.store_audio (init 44100)
          (Arr2 (Ndarray2 (Z.to_nat 4) tables)) "w.wav" "wav" ∅
        = (Ok tt,
           <["w.wav"%string :=
               Fs.AudioFile
                 (map Finite (map (fun x => x * 0.9) (concat tables)))
                 44100 "wav"]> ∅)).
Proof.
  destruct (create_wavetable_stack_returns (Ndarray2 2 [[1; 2]; [0; 1]]) 1 4)
    as [stack Hs]; [cbn; lia|lia|cbn; lia|lia|now left|].
  destruct (save_wavetable_of_stack Fs.store_audio (init 44100) _ _ _ _
              "w.wav" "wav" ∅ Hs) as (tables & -> & Hsave).
  exists tables. split; [exact Hs|exact Hsave].
Defined.

End SerializerMoreExamples.

(** ** The formatter on arbitrary feature dictionaries *)

Section FormatterMore.

Import OutputFormatter.

Open Scope string_scope.

Lemma tolist_native (sh : list nat) :
  forall xs, is_native (tolist sh xs) = true.
Proof.
  induction sh as [|n sh IH]; intros xs; [reflexivity|].
  cbn [tolist is_native]. apply List.forallb_forall. intros v Hv.
  apply in_map_iff in Hv. destruct Hv as (chunk & <- & _). apply IH.
Qed.

Lemma convert_native (v : value) : is_native (_convert_numpy_types v) = true.
Proof.
  induction v as [items IH|xs IH|xs IH|v HD HL HT] using value_deep_ind.
  - cbn [_convert_numpy_types is_native]. apply List.forallb_forall.
    intros [k w] Hin. apply in_map_iff in Hin.
    destruct Hin as ([k0 v0] & [= <- <-] & Hin). cbn [snd].
    exact (proj1 (List.Forall_forall _ _) IH (k0, v0) Hin).
  - cbn [_convert_numpy_types is_native]. apply List.forallb_forall.
    intros w Hin. apply in_map_iff in Hin. destruct Hin as (v0 & <- & Hin).
    exact (proj1 (List.Forall_forall _ _) IH v0 Hin).
  - cbn [_convert_numpy_types is_native]. apply List.forallb_forall.
    intros w Hin. apply in_map_iff in Hin. destruct Hin as (v0 & <- & Hin).
    exact (proj1 (List.Forall_forall _ _) IH v0 Hin).
  - destruct v; try reflexivity.
    + now destruct (HD items).
    + apply tolist_native.
    + now destruct (HL xs).
    + now destruct (HT xs).
Qed.

Lemma native_unchanged (v : value) :
  is_native v = true -> _convert_numpy_types v = v.
Proof.
  induction v as [items IH|xs IH|xs IH|v HD HL HT] using value_deep_ind;
    intros Hn.
  - cbn [_convert_numpy_types]. f_equal. cbn [is_native] in Hn.
    induction IH as [|[k w] items Hw _ IHitems]; [reflexivity|].
    cbn [forallb snd] in Hn. apply andb_true_iff in Hn.
    destruct Hn as [Hn1 Hn2]. cbn [map]. cbn [snd] in Hw.
    now rewrite (Hw Hn1), (IHitems Hn2).
  - cbn [_convert_numpy_types]. f_equal. cbn [is_native] in Hn.
    induction IH as [|w xs Hw _ IHxs]; [reflexivity|].
    cbn [forallb] in Hn. apply andb_true_iff in Hn.
    destruct Hn as [Hn1 Hn2]. cbn [map].
    now rewrite (Hw Hn1), (IHxs Hn2).
  - cbn [is_native] in Hn. discriminate.
  - destruct v; try reflexivity; try (cbn [is_native] in Hn; discriminate).
    + now destruct (HD items).
    + now destruct (HL xs).
Qed.

Lemma convert_keys (items : list (string * value)) :
  map fst (map (fun '(key, v) => (key, _convert_numpy_types v)) items)
  = map fst items.
Proof.
  induction items as [|[k v] items IH]; [reflexivity|].
  cbn [map fst]. now rewrite IH.
Qed.

(** X21: [to_json] always returns, and the document it hands to
    [json.dump] has the dictionary's keys in their order and holds no numpy
    scalar, no array and no tuple at any depth; converting is idempotent,
    and a dictionary that is free of them already is written as it is. *)
Theorem to_json_document_native (data : list (string * value))
    (output_path : string) (indent : Z) (fs : gmap string file) :
  exists items,
    to_json data output_path indent fs
    = (Ok tt, <[output_path := JsonFile (Dict items) indent]> fs)
    /\ map fst items = map fst data
    /\ is_native (Dict items) = true
    /\ _convert_numpy_types (Dict items) = Dict items
    /\ (is_native (Dict data) = true -> items = data).
Proof.
  exists (map (fun '(key, v) => (key, _convert_numpy_types v)) data).
  split; [reflexivity|]. split; [apply convert_keys|].
  assert (Hn : is_native (_convert_numpy_types (Dict data)) = true)
    by apply convert_native.
  cbn [_convert_numpy_types] in Hn. split; [exact Hn|].
  split; [now apply native_unchanged|].
  intros Hd. apply native_unchanged in Hd. cbn [_convert_numpy_types] in Hd.
  now injection Hd.
Qed.

(** *** The CSV rows *)

Lemma dict_set_present {V : Type} (d : list (string * V)) (k : string)
    (v : V) :
  In k (map fst d) -> map fst (dict_set d k v) = map fst d.
Proof.
  induction d as [|[k' v'] d IH]; intros Hin; [destruct Hin|].
  cbn [dict_set]. destruct (String.eqb_spec k' k) as [->|Hne];
    [reflexivity|].
  cbn [map fst] in *. destruct Hin as [Hin|Hin]; [contradiction|].
  now rewrite IH.
Qed.

Lemma dict_set_fresh {V : Type} (d : list (string * V)) (k : string)
    (v : V) :
  ~ In k (map fst d) -> dict_set d k v = (d ++ [(k, v)])%list.
Proof.
  induction d as [|[k' v'] d IH]; intros Hnin; [reflexivity|].
  cbn [dict_set]. cbn [map fst In] in Hnin.
  destruct (String.eqb_spec k' k) as [->|Hne]; [tauto|].
  cbn [app]. rewrite IH by tauto. reflexivity.
Qed.

Lemma dict_set_keys {V : Type} (d : list (string * V)) (k : string)
    (v : V) :
  map fst (dict_set d k v)
  = if in_dec string_dec k (map fst d) then map fst d else (map fst d ++ [k])%list.
Proof.
  destruct (in_dec string_dec k (map fst d)) as [Hin|Hnin].
  - now apply dict_set_present.
  - rewrite dict_set_fresh by exact Hnin. now rewrite List.map_app.
Qed.

Lemma set_rows_keys (rows flattened : list (string * cell)) (k : string) :
  In k (map fst (set_rows rows flattened))
  <-> In k (map fst flattened) \/ In k (map fst rows).
Proof.
  unfold set_rows. revert flattened.
  induction rows as [|[k' c] rows IH]; intros flattened; cbn [fold_left].
  - cbn. tauto.
  - rewrite IH, dict_set_keys. cbn [map fst In].
    destruct (in_dec string_dec k' (map fst flattened)) as [Hin|Hnin].
    + split; [tauto|]. intros [H|[<-|H]]; tauto.
    + rewrite in_app_iff. cbn [In]. tauto.
Qed.

Lemma set_rows_NoDup (rows flattened : list (string * cell)) :
  List.NoDup (map fst flattened) ->
  List.NoDup (map fst (set_rows rows flattened)).
Proof.
  unfold set_rows. revert flattened.
  induction rows as [|[k' c] rows IH]; intros flattened Hnd; cbn [fold_left];
    [exact Hnd|].
  apply IH. cbn [fst snd]. rewrite dict_set_keys.
  destruct (in_dec string_dec k' (map fst flattened)) as [Hin|Hnin];
    [exact Hnd|].
  apply List.NoDup_app; [exact Hnd|repeat constructor; intros []|].
  intros x Hx [<-|[]]. now apply Hnin.
Qed.

Lemma set_rows_fresh (rows flattened : list (string * cell)) :
  List.NoDup (map fst rows) ->
  (forall k, In k (map fst rows) -> ~ In k (map fst flattened)) ->
  set_rows rows flattened = (flattened ++ rows)%list.
Proof.
  unfold set_rows. revert flattened.
  induction rows as [|[k' c] rows IH]; intros flattened Hnd Hdisj;
    cbn [fold_left]; [now rewrite app_nil_r|].
  cbn [map fst] in Hnd. inversion Hnd as [|? ? Hk' Hnd']; subst.
  cbn [fst snd]. rewrite dict_set_fresh by (apply Hdisj; now left).
  rewrite IH; [now rewrite <- app_assoc|exact Hnd'|].
  intros k Hk. rewrite List.map_app, in_app_iff. cbn [map fst In].
  intros [H|[<-|[]]].
  - apply (Hdisj k); [now right|exact H].
  - now apply Hk'.
Qed.

Lemma set_rows_app (rows1 rows2 flattened : list (string * cell)) :
  set_rows (rows1 ++ rows2)%list flattened
  = set_rows rows2 (set_rows rows1 flattened).
Proof. unfold set_rows. apply fold_left_app. Qed.

Lemma flatten_item_rows (v : value) :
  forall parent_key k flattened,
    flatten_item parent_key k v flattened
    = set_rows (rows_item parent_key k v) flattened.
Proof.
  induction v as [items IH|v Hleaf] using value_dict_ind;
    intros parent_key k flattened.
  - cbn [flatten_item rows_item].
    generalize (join_key parent_key "." k). intros new_key.
    revert flattened. induction IH as [|[k' w] items Hw _ IHitems];
      intros flattened; [reflexivity|].
    cbn [fold_left flat_map]. rewrite set_rows_app.
    cbn [snd] in Hw. rewrite <- Hw. apply IHitems.
  - destruct v; try reflexivity.
    + now destruct (Hleaf items).
    + cbn [flatten_item rows_item].
      destruct ((length (shape a) =? 1)%nat && (hd 0%nat (shape a) <? 100)%nat);
        reflexivity.
Qed.

Lemma flatten_dict_rows (d : list (string * value)) (parent_key : string)
    (flattened : list (string * cell)) :
  flatten_dict d parent_key flattened
  = set_rows (rows_of d parent_key) flattened.
Proof.
  unfold flatten_dict, rows_of. revert flattened.
  induction d as [|[k v] d IH]; intros flattened; [reflexivity|].
  cbn [fold_left flat_map]. rewrite set_rows_app, <- flatten_item_rows.
  apply IH.
Qed.

(** X22: [to_csv] with flattening always returns and writes the header
    [Feature, Value] and one row per flattened key: the keys of the rows
    are pairwise distinct and are exactly the keys the leaves produce; and
    when the leaves produce no key twice, the rows are the leaves' rows in
    iteration order, none replaced. *)
Theorem to_csv_rows (data : list (string * value)) (output_path : string)
    (fs : gmap string file) :
  exists rows,
    to_csv data output_path true fs
    = (Ok tt, <[output_path := CsvFile ["Feature"; "Value"] rows]> fs)
    /\ List.NoDup (map fst rows)
    /\ (forall k, In k (map fst rows) <-> In k (map fst (rows_of data "")))
    /\ (List.NoDup (map fst (rows_of data "")) -> rows = rows_of data "").
Proof.
  exists (flatten_dict data "" []). split; [reflexivity|].
  rewrite flatten_dict_rows. split; [|split].
  - apply set_rows_NoDup. constructor.
  - intros k. rewrite set_rows_keys. cbn. tauto.
  - intros Hnd. now rewrite set_rows_fresh.
Qed.

(** On a key clash the later leaf replaces the value and the row stays
    where the key first came. *)
Example to_csv_key_clash :
  flatten_dict
    [("a", Dict [("b", PyInt 1)]); ("c", PyInt 2); ("a.b", PyInt 3)] "" []
  = [("a.b", CellValue (PyInt 3)); ("c", CellValue (PyInt 2))].
Proof. reflexivity. Qed.

(** *** The NPZ bundle *)

Lemma store_leaves_other (L : list (string * value))
    (arrays : gmap string npz_array) (k : string) :
  ~ In k (map fst L) -> fold_left store_leaf L arrays !! k = arrays !! k.
Proof.
  revert arrays. induction L as [|[k' v'] L IH]; intros arrays Hnin;
    [reflexivity|].
  cbn [fold_left]. cbn [map fst In] in Hnin. rewrite IH by tauto.
  unfold store_leaf. cbn [fst snd]. destruct (npz_entry v'); [|reflexivity].
  apply lookup_insert_ne. tauto.
Qed.

Lemma store_leaves_distinct (L : list (string * value))
    (arrays : gmap string npz_array) (k : string) (v : value) :
  List.NoDup (map fst L) -> In (k, v) L ->
  fold_left store_leaf L arrays !! k
  = match npz_entry v with Some e => Some e | None => arrays !! k end.
Proof.
  revert arrays. induction L as [|[k' v'] L IH]; intros arrays Hnd Hin;
    [destruct Hin|].
  cbn [map fst] in Hnd. inversion Hnd as [|? ? Hk' Hnd']; subst.
  cbn [fold_left]. destruct Hin as [[= -> ->]|Hin].
  - rewrite store_leaves_other by exact Hk'. unfold store_leaf.
    cbn [fst snd]. destruct (npz_entry v);
      [apply lookup_insert_eq|reflexivity].
  - rewrite (IH _ Hnd' Hin). destruct (npz_entry v); [reflexivity|].
    unfold store_leaf. cbn [fst snd]. destruct (npz_entry v');
      [|reflexivity].
    apply lookup_insert_ne. intros ->. apply Hk'.
    apply (in_map fst) in Hin. exact Hin.
Qed.

(** X23: when no two leaves of the feature dictionary have the same
    flattened key and every list or tuple leaf converts to an array, the
    bundle [to_npz] builds holds under the key of each leaf exactly the
    array that leaf is saved as, and nothing under the key of a leaf of a
    type that is not saved; a key of no leaf is absent. *)
Theorem to_npz_distinct_keys (data : list (string * value)) :
  List.NoDup (map fst (leaves data "")) ->
  forallb (fun leaf => convertible (snd leaf)) (leaves data "") = true ->
  exists arrays,
    process_dict data "" ∅ = Ok arrays
    /\ (forall k v, In (k, v) (leaves data "") -> arrays !! k = npz_entry v)
    /\ (forall k, ~ In k (map fst (leaves data "")) -> arrays !! k = None).
Proof.
  intros Hnd Hconv. eexists. split.
  { rewrite process_dict_leaves. unfold store_leaves. now rewrite Hconv. }
  split.
  - intros k v Hin. rewrite (store_leaves_distinct _ _ k v Hnd Hin).
    destruct (npz_entry v); [reflexivity|apply lookup_empty].
  - intros k Hk. rewrite store_leaves_other by exact Hk. apply lookup_empty.
Qed.

Lemma to_npz_distinct_keys_witness :
  let data :=
    [("tempo", PyFloat 120%R);
     ("meta", Dict [("name", PyStr "a"); ("frames", PyInt 3)])] in
  exists arrays,
    process_dict data "" ∅ = Ok arrays
    /\ arrays !! "meta_frames" = Some (OfScalar (PyInt 3))
    /\ arrays !! "meta_name" = None.
Proof.
  intros data.
  assert (Hnd : List.NoDup (map fst (leaves data ""))).
  { cbn. repeat (constructor; [cbn; intuition discriminate|]). constructor. }
  destruct (to_npz_distinct_keys data Hnd eq_refl) as (arrays & Hok & H & _).
  exists arrays. split; [exact Hok|]. split.
  - apply (H "meta_frames" (PyInt 3)). cbn. tauto.
  - apply (H "meta_name" (PyStr "a")). cbn. tauto.
Defined.

Lemma top_level_leaf (data : list (string * value)) (k : string)
    (v : value) :
  In (k, v) data -> (forall items, v <> Dict items) ->
  In (k, v) (leaves data "").
Proof.
  intros Hin Hleaf. unfold leaves. apply in_flat_map.
  exists (k, v). split; [exact Hin|].
  destruct v; try (now left). now destruct (Hleaf items).
Qed.

Lemma target_path_idempotent (path format : string) :
  target_path (target_path path format) format = target_path path format.
Proof.
  destruct (target_path_suffix path format) as (stem & E).
  fold (target_path path format) in E.
  unfold target_path at 1. rewrite E at 1.
  now rewrite endswith_app.
Qed.

Lemma savez_keeps_allow_pickle_archive :
  savez_writes_archive savez_keeps_allow_pickle.
Proof. intros flag path arrays. left. now eexists. Qed.

End FormatterMore.

(** *** The dispatcher *)

Section DispatcherMore.

Import OutputFormatter.

Open Scope string_scope.

(** What [np.savez_compressed] does with a keyword [allow_pickle], and
    pathlib's [str(Path(p))], are the libraries'. *)
Variable savez_allow_pickle :
  npz_array -> string -> gmap string npz_array -> gmap string file ->
  result unit * gmap string file.
Variable str_Path : string -> string.

(** X24: a feature named [file] at the top level whose value is of a saved
    type makes [to_npz] raise [TypeError] when every list or tuple leaf
    converts to an array (the bundle's key clashes with the positional
    parameter of [np.savez_compressed]), and [ValueError] when one does
    not ([np.array] raises first); nothing is written, and [save_features]
    with the format [npz] passes the error on. *)
Theorem to_npz_file_key_raises (data : list (string * value)) (v : value)
    (output_path : string) (fs : gmap string file) :
  In ("file", v) data -> is_Some (npz_entry v) ->
  let e :=
    if forallb (fun leaf => convertible (snd leaf)) (leaves data "")
    then TypeError else ValueError in
  to_npz savez_allow_pickle data output_path fs = (Raise e, fs)
  /\ save_features savez_allow_pickle str_Path data output_path "npz" fs
     = (Raise e, fs).
Proof.
  intros Hin Hsaved e.
  assert (Hraise : forall path,
            to_npz savez_allow_pickle data path fs = (Raise e, fs)).
  { intros path. unfold to_npz, e.
    rewrite process_dict_leaves. unfold store_leaves.
    destruct (forallb _ (leaves data "")); [|reflexivity].
    unfold savez_compressed. rewrite bool_decide_eq_true_2; [reflexivity|].
    apply store_leaves_present. right.
    exists v. split; [|exact Hsaved].
    apply top_level_leaf; [exact Hin|].
    intros items ->. destruct Hsaved as [x Hx]. discriminate. }
  split; [apply Hraise|].
  rewrite save_features_npz. now rewrite Hraise.
Qed.

Lemma save_features_cases (features : list (string * value))
    (output_path format : string) :
  savez_writes_archive savez_allow_pickle ->
  (In format recognized_formats
   /\ exists content,
        format_of content = format
        /\ forall fs,
             save_features savez_allow_pickle str_Path features output_path
               format fs
             = (Ok (target_path (str_Path output_path) format),
                <[target_path (str_Path output_path) format := content]> fs))
  \/ (exists e, forall fs,
        save_features savez_allow_pickle str_Path features output_path
          format fs
        = (Raise e, fs)).
Proof.
  intros Hsavez.
  destruct (String.eqb_spec format "json") as [->|Hjson].
  { left. split; [cbn; tauto|].
    exists (JsonFile (_convert_numpy_types (Dict features)) 2).
    split; reflexivity. }
  destruct (String.eqb_spec format "csv") as [->|Hcsv].
  { left. split; [cbn; tauto|].
    exists (CsvFile ["Feature"; "Value"] (flatten_dict features "" [])).
    split; reflexivity. }
  destruct (String.eqb_spec format "txt") as [->|Htxt].
  { left. split; [cbn; tauto|].
    exists (TxtFile (format_value (Dict features) 0)).
    split; reflexivity. }
  destruct (String.eqb_spec format "npz") as [->|Hnpz].
  { set (target := target_path (str_Path output_path) "npz").
    pose proof (target_npz_endswith str_Path output_path) as Hend.
    fold target in Hend.
    destruct (process_dict features "" ∅) as [arrays|e] eqn:Hdict.
    2:{ right. exists e. intros fs. rewrite save_features_npz.
        unfold to_npz. now rewrite Hdict. }
    destruct (decide (is_Some (arrays !! "file"))) as [Hfile|Hfile].
    { right. exists TypeError. intros fs. rewrite save_features_npz.
      unfold to_npz, savez_compressed. rewrite Hdict.
      now rewrite bool_decide_eq_true_2. }
    destruct (arrays !! "allow_pickle") as [flag|] eqn:Hflag.
    - destruct (Hsavez flag target (delete "allow_pickle" arrays))
        as [(kept & Hk)|(e & He)].
      + left. split; [cbn; tauto|]. exists (NpzFile kept).
        split; [reflexivity|]. intros fs. rewrite save_features_npz.
        fold target. unfold to_npz, savez_compressed. rewrite Hdict.
        rewrite bool_decide_eq_false_2 by exact Hfile.
        now rewrite Hend, Hflag, Hk.
      + right. exists e. intros fs. rewrite save_features_npz.
        fold target. unfold to_npz, savez_compressed. rewrite Hdict.
        rewrite bool_decide_eq_false_2 by exact Hfile.
        now rewrite Hend, Hflag, He.
    - left. split; [cbn; tauto|]. exists (NpzFile arrays).
      split; [reflexivity|]. intros fs. rewrite save_features_npz.
      fold target. unfold to_npz, savez_compressed. rewrite Hdict.
      rewrite bool_decide_eq_false_2 by exact Hfile.
      now rewrite Hend, Hflag. }
  right. exists ValueError. intros fs. unfold save_features.
  destruct (String.eqb_spec format "json"); [contradiction|].
  destruct (String.eqb_spec format "csv"); [contradiction|].
  destruct (String.eqb_spec format "npz"); [contradiction|].
  destruct (String.eqb_spec format "txt"); [contradiction|].
  reflexivity.
Qed.

Lemma save_features_same_target (features : list (string * value))
    (path1 path2 format : string) (fs : gmap string file) :
  target_path (str_Path path1) format = target_path (str_Path path2) format ->
  save_features savez_allow_pickle str_Path features path1 format fs
  = save_features savez_allow_pickle str_Path features path2 format fs.
Proof.
  intros E. unfold save_features. cbv zeta.
  fold (target_path (str_Path path1) format).
  fold (target_path (str_Path path2) format). now rewrite E.
Qed.

(** X25: whenever [save_features] returns a path, the format is one of the
    four, the path is the normalized path with the extension, a file of
    that format is found at exactly the returned path (also for [npz],
    where numpy's own extension rule adds nothing more), and no other path
    of the file system has changed. For a bundle with the key
    [allow_pickle] this is so when [np.savez_compressed] writes an archive
    at its path or nothing. *)
Theorem save_features_file_at_returned_path
    (features : list (string * value)) (output_path format : string)
    (fs fs' : gmap string file) (returned : string) :
  savez_writes_archive savez_allow_pickle ->
  save_features savez_allow_pickle str_Path features output_path format fs
  = (Ok returned, fs') ->
  In format recognized_formats
  /\ returned = target_path (str_Path output_path) format
  /\ (exists content,
        fs' !! returned = Some content /\ format_of content = format)
  /\ (forall other, other <> returned -> fs' !! other = fs !! other).
Proof.
  intros Hsavez Hsave.
  destruct (save_features_cases features output_path format Hsavez)
    as [(Hfmt & content & Hcontent & H)|(e & H)];
    rewrite H in Hsave; [|discriminate].
  injection Hsave as <- <-. split; [exact Hfmt|]. split; [reflexivity|].
  split.
  - exists content. split; [apply lookup_insert_eq|exact Hcontent].
  - intros other Hne. apply lookup_insert_ne. congruence.
Qed.

(** X26: saving the same features again to the path [save_features]
    returned, when normalizing leaves that path as it is, writes the same
    content to the same path and returns it: the extension is not added a
    second time. For a bundle with the key [allow_pickle] this is so when
    [np.savez_compressed] writes an archive at its path or nothing. *)
Theorem save_features_again (features : list (string * value))
    (output_path format : string) (fs fs' : gmap string file)
    (returned : string) :
  savez_writes_archive savez_allow_pickle ->
  save_features savez_allow_pickle str_Path features output_path format fs
  = (Ok returned, fs') ->
  str_Path returned = returned ->
  exists content,
    fs' !! returned = Some content
    /\ forall fs0,
         save_features savez_allow_pickle str_Path features returned format
           fs0
         = (Ok returned, <[returned := content]> fs0).
Proof.
  intros Hsavez Hsave Hnormal.
  destruct (save_features_cases features output_path format Hsavez)
    as [(_ & content & _ & H)|(e & H)];
    rewrite H in Hsave; [|discriminate].
  injection Hsave as <- <-. exists content.
  split; [apply lookup_insert_eq|].
  intros fs0. rewrite <- H. apply save_features_same_target.
  rewrite Hnormal. apply target_path_idempotent.
Qed.

End DispatcherMore.

Section DispatcherExamples.

Import OutputFormatter.

Open Scope string_scope.

Lemma to_npz_file_key_raises_witness :
  to_npz savez_keeps_allow_pickle [("file", PyInt 1)] "out" ∅
  = (Raise TypeError, ∅)
  /\ save_features savez_keeps_allow_pickle (fun p => p)
       [("file", PyInt 1)] "out" "npz" ∅
     = (Raise TypeError, ∅).
Proof.
  apply (to_npz_file_key_raises savez_keeps_allow_pickle (fun p => p)
           [("file", PyInt 1)] (PyInt 1));
    [now left|now eexists].
Defined.

Lemma save_features_file_at_returned_path_witness :
  exists content,
    (<["out.npz" := NpzFile {[ "tempo" := OfScalar (PyFloat 120%R) ]}]>
       (∅ : gmap string file)) !! "out.npz" = Some content
    /\ format_of content = "npz".
Proof.
  destruct (save_features_file_at_returned_path savez_keeps_allow_pickle
              (fun p => p) [("tempo", PyFloat 120%R)] "out" "npz" ∅
              (<["out.npz" :=
                   NpzFile {[ "tempo" := OfScalar (PyFloat 120%R) ]}]> ∅)
              "out.npz" savez_keeps_allow_pickle_archive eq_refl)
    as (_ & _ & H & _).
  exact H.
Defined.

Lemma save_features_again_witness :
  exists content,
    (<["out.csv" := CsvFile ["Feature"; "Value"]
                      [("tempo", CellValue (PyFloat 120%R))]]>
       (∅ : gmap string file)) !! "out.csv" = Some content
    /\ forall fs0,
         save_features savez_keeps_allow_pickle (fun p => p)
           [("tempo", PyFloat 120%R)] "out.csv" "csv" fs0
         = (Ok "out.csv", <["out.csv" := content]> fs0).
Proof.
  apply (save_features_again savez_keeps_allow_pickle (fun p => p)
           [("tempo", PyFloat 120%R)] "out" "csv" ∅);
    [exact savez_keeps_allow_pickle_archive|reflexivity|reflexivity].
Defined.

End DispatcherExamples.

(** ** The analyzer's own computations *)

Section AnalyzerMore.

Import AudioAnalyzer.

Open Scope R_scope.

Lemma argmax_from_spec (a : list R) :
  forall (pre : list R) (best_index : nat) (best : R),
    (best_index < length pre)%nat ->
    nth best_index pre 0 = best ->
    (forall j, (j < length pre)%nat -> nth j pre 0 <= best) ->
    (forall j, (j < best_index)%nat -> nth j pre 0 < best) ->
    let r := argmax_from best_index best (length pre) a in
    (r < length (pre ++ a))%nat
    /\ (forall j, (j < length (pre ++ a))%nat ->
          nth j (pre ++ a) 0 <= nth r (pre ++ a) 0)
    /\ (forall j, (j < r)%nat -> nth j (pre ++ a) 0 < nth r (pre ++ a) 0).
Proof.
  induction a as [|x a IH]; intros pre best_index best Hbi Hb Hmax Hfirst;
    cbn [argmax_from].
  - rewrite app_nil_r, Hb. auto.
  - assert (Happ : pre ++ x :: a = (pre ++ [x]) ++ a)
      by (now rewrite <- app_assoc).
    assert (Hlen : S (length pre) = length (pre ++ [x]))
      by (rewrite length_app; cbn; lia).
    rewrite Happ.
    assert (Hlast : nth (length pre) (pre ++ [x]) 0 = x).
    { rewrite app_nth2 by lia. now rewrite Nat.sub_diag. }
    destruct (Rlt_dec best x) as [Hlt|Hnlt].
    + specialize (IH (pre ++ [x]) (length pre) x).
      rewrite <- Hlen in IH. apply IH; [lia|exact Hlast| |].
      * intros j Hj. destruct (Nat.eq_dec j (length pre)) as [->|Hne].
        -- rewrite Hlast. lra.
        -- rewrite app_nth1 by lia. specialize (Hmax j ltac:(lia)). lra.
      * intros j Hj. rewrite app_nth1 by lia. specialize (Hmax j Hj). lra.
    + specialize (IH (pre ++ [x]) best_index best).
      rewrite <- Hlen in IH.
      apply IH; [lia|rewrite app_nth1 by lia; exact Hb| |].
      * intros j Hj. destruct (Nat.eq_dec j (length pre)) as [->|Hne].
        -- rewrite Hlast. lra.
        -- rewrite app_nth1 by lia. apply Hmax. lia.
      * intros j Hj. rewrite app_nth1 by lia. now apply Hfirst.
Qed.

Lemma argmax_spec (x : R) (a : list R) :
  exists r,
    argmax (x :: a) = Ok r
    /\ (r < length (x :: a))%nat
    /\ (forall j, (j < length (x :: a))%nat ->
          nth j (x :: a) 0 <= nth r (x :: a) 0)
    /\ (forall j, (j < r)%nat -> nth j (x :: a) 0 < nth r (x :: a) 0).
Proof.
  exists (argmax_from 0 x 1 a). split; [reflexivity|].
  apply (argmax_from_spec a [x] 0%nat x).
  - cbn [length]. lia.
  - reflexivity.
  - intros j Hj. cbn [length] in Hj. assert (j = 0)%nat as -> by lia.
    cbn [nth]. lra.
  - intros j Hj. lia.
Qed.

Lemma column_entries (m : ndarray2) (bins frames : nat) (t : Z) :
  has_shape m bins frames -> (0 <= t < Z.of_nat frames)%Z ->
  column m t = Ok (map (fun row => nth (Z.to_nat t) row 0) (rows m)).
Proof.
  intros (_ & Hframes & _) Ht. unfold column.
  destruct (t <? 0)%Z eqn:E; [apply Z.ltb_lt in E; lia|].
  destruct ((t <? 0)%Z || (Z.of_nat (shape1 m) <=? t)%Z) eqn:E';
    [|reflexivity].
  apply orb_true_iff in E'. destruct E' as [E'|E']; [congruence|].
  apply Z.leb_le in E'. lia.
Qed.

Lemma nth_column (m : ndarray2) (i t : nat) :
  (i < length (rows m))%nat ->
  nth i (map (fun row => nth t row 0) (rows m)) 0 = entry m i t.
Proof.
  intros Hi. unfold entry.
  rewrite (nth_indep _ 0 (nth t [] 0)) by (rewrite length_map; lia).
  exact (map_nth (fun row => nth t row 0) (rows m) [] i).
Qed.

Lemma item_entry (m : ndarray2) (bins frames i t : nat) :
  has_shape m bins frames -> (i < bins)%nat -> (t < frames)%nat ->
  item m i t = Ok (entry m i t).
Proof.
  intros (Hbins & Hframes & _) Hi Ht. unfold item, entry.
  destruct (lookup_lt_is_Some_2 (rows m) i) as [row Hrow]; [lia|].
  rewrite Hrow, (nth_lookup (rows m) i []), Hrow. cbn [default].
  destruct (Nat.ltb_spec t (shape1 m)) as [_|Hge]; [reflexivity|lia].
Qed.

Lemma for_each_append_rel {A B : Type} (P : A -> B -> Prop)
    (body : list B -> A -> result (list B)) (xs : list A) :
  (forall x, In x xs ->
     exists y, P x y /\ forall acc, body acc x = Ok (acc ++ [y])) ->
  forall acc,
    exists ys, for_each xs body acc = Ok (acc ++ ys) /\ Forall2 P xs ys.
Proof.
  induction xs as [|x xs IH]; intros H acc.
  - exists []. rewrite app_nil_r. split; [reflexivity|constructor].
  - destruct (H x (or_introl eq_refl)) as (y & Hy & Hbody).
    destruct (IH (fun x' Hx' => H x' (or_intror Hx')) (acc ++ [y]))
      as (ys & Hys & HF).
    exists (y :: ys). split; [|now constructor].
    cbn [for_each]. rewrite Hbody. cbn [Py.bind]. rewrite Hys.
    now rewrite <- app_assoc.
Qed.

Lemma Forall2_nth_error {A B : Type} (P : A -> B -> Prop) (xs : list A)
    (ys : list B) :
  Forall2 P xs ys ->
  forall i x, nth_error xs i = Some x ->
    exists y, nth_error ys i = Some y /\ P x y.
Proof.
  induction 1 as [|x0 y0 xs ys Hxy _ IH]; intros i x Hi.
  - destruct i; discriminate.
  - destruct i as [|i]; cbn [nth_error] in *.
    + injection Hi as <-. now exists y0.
    + now apply IH.
Qed.

Lemma nth_error_range (n : Z) (t : nat) :
  (Z.of_nat t < n)%Z -> nth_error (range n) t = Some (Z.of_nat t).
Proof.
  intros Ht. unfold range. rewrite nth_error_map, nth_error_seq.
  destruct (Nat.ltb_spec t (Z.to_nat n)) as [_|H]; [reflexivity|lia].
Qed.

(** X27: when [librosa.piptrack] gives two matrices of the same shape with
    at least one frequency bin, the loop of [extract_pitch_features]
    returns one pitch per frame, and the pitch of frame [t] is the entry of
    [pitches] in that frame at a bin whose magnitude is the greatest of the
    frame, the lowest such bin. *)
Theorem pitch_track_selects_loudest (pitches magnitudes : ndarray2)
    (bins frames : nat) :
  has_shape pitches bins frames -> has_shape magnitudes bins frames ->
  (0 < bins)%nat ->
  exists track,
    pitch_track pitches magnitudes = Ok track
    /\ length track = frames
    /\ forall t, (t < frames)%nat ->
         exists i,
           (i < bins)%nat
           /\ nth t track 0 = entry pitches i t
           /\ (forall j, (j < bins)%nat ->
                 entry magnitudes j t <= entry magnitudes i t)
           /\ (forall j, (j < i)%nat ->
                 entry magnitudes j t < entry magnitudes i t).
Proof.
  intros Hp Hm Hbins.
  pose (P := fun (t : Z) (y : R) =>
    exists i,
      (i < bins)%nat
      /\ y = entry pitches i (Z.to_nat t)
      /\ (forall j, (j < bins)%nat ->
            entry magnitudes j (Z.to_nat t) <= entry magnitudes i (Z.to_nat t))
      /\ (forall j, (j < i)%nat ->
            entry magnitudes j (Z.to_nat t) < entry magnitudes i (Z.to_nat t))).
  assert (Hframes : shape1 pitches = frames) by apply Hp.
  assert (Hrows : length (rows magnitudes) = bins) by apply Hm.
  unfold pitch_track. rewrite Hframes.
  match goal with
  | |- context [for_each ?xs ?body _] =>
      assert (Hstep : forall x, In x xs ->
                exists y, P x y /\ forall acc, body acc x = Ok (acc ++ [y]))
  end.
  2: destruct (for_each_append_rel P _ _ Hstep []) as (track & Htrack & HF);
     rewrite Htrack; exists track; split; [reflexivity|].
  - intros t Ht. apply In_range in Ht. cbv beta.
    assert (Hlt : (Z.to_nat t < frames)%nat) by lia.
    rewrite (column_entries magnitudes bins frames t Hm Ht).
    destruct (rows magnitudes) as [|row0 rest] eqn:Erows;
      [cbn [length] in Hrows; lia|].
    cbn [map].
    destruct (argmax_spec (nth (Z.to_nat t) row0 0)
                (map (fun row => nth (Z.to_nat t) row 0) rest))
      as (r & Hr & Hrlt & Hrmax & Hrfirst).
    change (nth (Z.to_nat t) row0 0
            :: map (fun row => nth (Z.to_nat t) row 0) rest)
      with (map (fun row => nth (Z.to_nat t) row 0) (row0 :: rest)) in *.
    rewrite <- Erows in *. rewrite length_map, Hrows in Hrlt.
    exists (entry pitches r (Z.to_nat t)). split.
    + exists r. split; [exact Hrlt|]. split; [reflexivity|]. split.
      * intros j Hj. rewrite <- !nth_column by lia. apply Hrmax.
        rewrite length_map. lia.
      * intros j Hj. rewrite <- !nth_column by lia. now apply Hrfirst.
    + intros acc. cbn [Py.bind]. rewrite Hr. cbn [Py.bind].
      rewrite (item_entry pitches bins frames r (Z.to_nat t) Hp Hrlt Hlt).
      reflexivity.
  - cbn [app]. split.
    + apply Forall2_length in HF. rewrite <- HF, length_range. lia.
    + intros t Ht.
      destruct (Forall2_nth_error P _ _ HF t (Z.of_nat t))
        as (y & Hy & i & Hi & -> & Hmax & Hfirst);
        [apply nth_error_range; lia|].
      rewrite Nat2Z.id in *. exists i.
      split; [exact Hi|]. split; [|split; assumption].
      now apply nth_error_nth.
Qed.

Lemma pitch_track_selects_loudest_witness :
  exists track,
    pitch_track (Ndarray2 2 [[100; 200]; [300; 400]])
      (Ndarray2 2 [[1; 5]; [2; 3]]) = Ok track
    /\ length track = 2%nat
    /\ forall t, (t < 2)%nat ->
         exists i,
           (i < 2)%nat
           /\ nth t track 0
              = entry (Ndarray2 2 [[100; 200]; [300; 400]]) i t
           /\ (forall j, (j < 2)%nat ->
                 entry (Ndarray2 2 [[1; 5]; [2; 3]]) j t
                 <= entry (Ndarray2 2 [[1; 5]; [2; 3]]) i t)
           /\ (forall j, (j < i)%nat ->
                 entry (Ndarray2 2 [[1; 5]; [2; 3]]) j t
                 < entry (Ndarray2 2 [[1; 5]; [2; 3]]) i t).
Proof.
  apply (pitch_track_selects_loudest (Ndarray2 2 [[100; 200]; [300; 400]])
           (Ndarray2 2 [[1; 5]; [2; 3]]) 2 2);
    [repeat split; repeat constructor..|lia].
Defined.

(** On degenerate shapes the loop of [extract_pitch_features] never
    runs when [pitches] has no frame, and otherwise stops at the first
    frame: with [IndexError] when [magnitudes] has no frame, with
    [ValueError] from [argmax] when [magnitudes] has no bin. *)
Theorem pitch_track_degenerate (pitches magnitudes : ndarray2) :
  (shape1 pitches = 0%nat -> pitch_track pitches magnitudes = Ok [])
  /\ ((0 < shape1 pitches)%nat -> shape1 magnitudes = 0%nat ->
      pitch_track pitches magnitudes = Raise IndexError)
  /\ ((0 < shape1 pitches)%nat -> (0 < shape1 magnitudes)%nat ->
      rows magnitudes = [] ->
      pitch_track pitches magnitudes = Raise ValueError).
Proof.
  unfold pitch_track. split; [|split].
  - intros ->. reflexivity.
  - intros Hp Hm.
    replace (Z.of_nat (shape1 pitches))
      with (Z.of_nat (shape1 pitches - 1) + 1)%Z by lia.
    rewrite range_cons by lia. cbn [for_each]. unfold column at 1.
    rewrite Hm. reflexivity.
  - intros Hp Hm Hrows.
    replace (Z.of_nat (shape1 pitches))
      with (Z.of_nat (shape1 pitches - 1) + 1)%Z by lia.
    rewrite range_cons by lia. cbn [for_each]. unfold column at 1.
    rewrite Hrows. change (0 <? 0)%Z with false. cbv iota. cbn [orb].
    destruct (Z.of_nat (shape1 magnitudes) <=? 0)%Z eqn:E;
      [apply Z.leb_le in E; lia|].
    reflexivity.
Qed.

(** *** The summary statistics *)


Lemma minimum_In (x : R) (t : list R) : In (minimum x t) (x :: t).
Proof.
  revert x. induction t as [|z t IH]; intros x; cbn [minimum].
  - now left.
  - unfold Rmin. destruct (Rle_dec x (minimum z t)).
    + now left.
    + right. apply IH.
Qed.

Lemma statistics_cases (a : list R) :
  match a with
  | [] => statistics a = Raise ValueError
  | x :: t =>
      statistics a
      = Ok [("mean"%string, OutputFormatter.mean a);
            ("std"%string, OutputFormatter.std a);
            ("min"%string, minimum x t); ("max"%string, maximum x t)]
  end.
Proof. destruct a; reflexivity. Qed.



Lemma filter_positive_nil (pitch_track : list R) :
  Forall (fun p => p <= 0) pitch_track ->
  List.filter positive pitch_track = [].
Proof.
  induction 1 as [|p pitch_track Hp _ IH]; [reflexivity|].
  cbn [List.filter]. unfold positive at 1.
  destruct (Rlt_dec 0 p); [lra|exact IH].
Qed.

Lemma filter_positive_cons (pitch_track : list R) :
  Exists (fun p => 0 < p) pitch_track ->
  exists p rest,
    List.filter positive pitch_track = p :: rest
    /\ Forall (fun q => 0 < q) (p :: rest).
Proof.
  intros Hex. apply List.Exists_exists in Hex. destruct Hex as (p & Hin & Hp).
  assert (Hin' : In p (List.filter positive pitch_track)).
  { apply filter_In. split; [exact Hin|]. unfold positive.
    destruct (Rlt_dec 0 p); [reflexivity|contradiction]. }
  assert (Hall : Forall (fun q => 0 < q) (List.filter positive pitch_track)).
  { apply List.Forall_forall. intros q Hq. apply filter_In in Hq.
    destruct Hq as [_ Hq]. unfold positive in Hq.
    destruct (Rlt_dec 0 q); [assumption|discriminate]. }
  destruct (List.filter positive pitch_track) as [|q rest];
    [destruct Hin'|].
  now exists q, rest.
Qed.

Lemma pitch_track_sign (pitch_track : list R) :
  Forall (fun p => p <= 0) pitch_track
  \/ Exists (fun p => 0 < p) pitch_track.
Proof.
  induction pitch_track as [|p pitch_track IH]; [left; constructor|].
  destruct (Rlt_dec 0 p) as [Hp|Hp]; [right; now left|].
  destruct IH as [IH|IH]; [left|right; now right].
  constructor; [lra|exact IH].
Qed.

Lemma get_summary_statistics_cases (spectral_centroid rms : list R)
    (tempo : R) (pitch_track : list R) :
  match spectral_centroid, rms with
  | [], _ | _, [] =>
      get_summary_statistics spectral_centroid rms tempo pitch_track
      = Raise ValueError
  | _ :: _, _ :: _ =>
      exists centroid_stats rms_stats,
        statistics spectral_centroid = Ok centroid_stats
        /\ statistics rms = Ok rms_stats
        /\ (Forall (fun p => p <= 0) pitch_track ->
            get_summary_statistics spectral_centroid rms tempo pitch_track
            = Ok [("spectral_centroid"%string, centroid_stats);
                  ("rms"%string, rms_stats);
                  ("tempo"%string, [("value"%string, tempo)])])
        /\ (Exists (fun p => 0 < p) pitch_track ->
            exists pitch_stats lowest,
              statistics (List.filter positive pitch_track) = Ok pitch_stats
              /\ In ("min"%string, lowest) pitch_stats /\ 0 < lowest
              /\ get_summary_statistics spectral_centroid rms tempo
                   pitch_track
                 = Ok [("spectral_centroid"%string, centroid_stats);
                       ("rms"%string, rms_stats);
                       ("tempo"%string, [("value"%string, tempo)]);
                       ("pitch"%string, pitch_stats)])
  end.
Proof.
  destruct spectral_centroid as [|x1 t1]; [reflexivity|].
  destruct rms as [|x2 t2]; [reflexivity|].
  do 2 eexists. split; [reflexivity|]. split; [reflexivity|]. split.
  - intros Hnone. unfold get_summary_statistics.
    rewrite (filter_positive_nil _ Hnone). reflexivity.
  - intros Hsome. destruct (filter_positive_cons _ Hsome)
      as (p & rest & Hfilter & Hpos).
    exists [("mean"%string, OutputFormatter.mean (p :: rest));
            ("std"%string, OutputFormatter.std (p :: rest));
            ("min"%string, minimum p rest); ("max"%string, maximum p rest)],
      (minimum p rest).
    split; [now rewrite Hfilter|]. split; [cbn; tauto|]. split.
    + exact (proj1 (List.Forall_forall _ _) Hpos _ (minimum_In p rest)).
    + unfold get_summary_statistics. rewrite Hfilter.
      reflexivity.
Qed.

(** X29: [get_summary_statistics] raises [ValueError] when the spectral
    centroid or the RMS energy has no element, and returns otherwise; the
    summary has the blocks [spectral_centroid], [rms] and [tempo], in this
    order, followed by a block [pitch] exactly when some frame has a pitch
    above zero; that block is computed from the pitches above zero only, so
    its minimum is above zero. *)
Theorem get_summary_statistics_outcome (spectral_centroid rms : list R)
    (tempo : R) (pitch_track : list R) :
  (spectral_centroid = [] \/ rms = [] ->
   get_summary_statistics spectral_centroid rms tempo pitch_track
   = Raise ValueError)
  /\ (spectral_centroid <> [] -> rms <> [] ->
      exists centroid_stats rms_stats,
        statistics spectral_centroid = Ok centroid_stats
        /\ statistics rms = Ok rms_stats
        /\ (Forall (fun p => p <= 0) pitch_track ->
            get_summary_statistics spectral_centroid rms tempo pitch_track
            = Ok [("spectral_centroid"%string, centroid_stats);
                  ("rms"%string, rms_stats);
                  ("tempo"%string, [("value"%string, tempo)])])
        /\ (Exists (fun p => 0 < p) pitch_track ->
            exists pitch_stats lowest,
              statistics (List.filter positive pitch_track) = Ok pitch_stats
              /\ In ("min"%string, lowest) pitch_stats /\ 0 < lowest
              /\ get_summary_statistics spectral_centroid rms tempo
                   pitch_track
                 = Ok [("spectral_centroid"%string, centroid_stats);
                       ("rms"%string, rms_stats);
                       ("tempo"%string, [("value"%string, tempo)]);
                       ("pitch"%string, pitch_stats)])).
Proof.
  pose proof (get_summary_statistics_cases spectral_centroid rms tempo
                pitch_track) as Hcases.
  split.
  - intros [-> | ->]; [exact Hcases|].
    destruct spectral_centroid; exact Hcases.
  - intros Hc Hr. destruct spectral_centroid as [|x1 t1]; [contradiction|].
    destruct rms as [|x2 t2]; [contradiction|]. exact Hcases.
Qed.

(** X30: the summary of [get_summary_statistics] saved as CSV, as the
    command line does with [--summary --format csv]: the file at the
    returned path has one row per statistic, keyed by block and statistic
    joined with a dot, in the summary's order, each holding a float; nine
    rows when no frame has a pitch above zero, thirteen otherwise. *)
Theorem summary_saved_as_csv
    (savez_allow_pickle :
       OutputFormatter.npz_array -> string ->
       gmap string OutputFormatter.npz_array ->
       gmap string OutputFormatter.file ->
       result unit * gmap string OutputFormatter.file)
    (str_Path : string -> string)
    (spectral_centroid rms : list R) (tempo : R) (pitch_track : list R)
    (summary : list (string * list (string * R))) (output_path : string)
    (fs : gmap string OutputFormatter.file) :
  get_summary_statistics spectral_centroid rms tempo pitch_track
  = Ok summary ->
  exists rows,
    OutputFormatter.save_features savez_allow_pickle str_Path
      (summary_features summary) output_path "csv" fs
    = (Ok (target_path (str_Path output_path) "csv"),
       <[target_path (str_Path output_path) "csv" :=
           OutputFormatter.CsvFile ["Feature"; "Value"]%string rows]> fs)
    /\ Forall
         (fun row =>
            exists x,
              snd row = OutputFormatter.CellValue (OutputFormatter.PyFloat x))
         rows
    /\ ((Forall (fun p => p <= 0) pitch_track
         /\ map fst rows
            = ["spectral_centroid.mean"; "spectral_centroid.std";
               "spectral_centroid.min"; "spectral_centroid.max";
               "rms.mean"; "rms.std"; "rms.min"; "rms.max";
               "tempo.value"]%string)
        \/ (Exists (fun p => 0 < p) pitch_track
            /\ map fst rows
               = ["spectral_centroid.mean"; "spectral_centroid.std";
                  "spectral_centroid.min"; "spectral_centroid.max";
                  "rms.mean"; "rms.std"; "rms.min"; "rms.max";
                  "tempo.value"; "pitch.mean"; "pitch.std"; "pitch.min";
                  "pitch.max"]%string)).
Proof.
  intros Hsum.
  pose proof (get_summary_statistics_cases spectral_centroid rms tempo
                pitch_track) as Hcases.
  destruct spectral_centroid as [|x1 t1];
    [rewrite Hcases in Hsum; discriminate|].
  destruct rms as [|x2 t2]; [rewrite Hcases in Hsum; discriminate|].
  destruct Hcases as (cs & rs & Hcs & Hrs & Hnone & Hsome).
  pose proof (statistics_cases (x1 :: t1)) as H1. cbv iota in H1.
  pose proof (statistics_cases (x2 :: t2)) as H2. cbv iota in H2.
  rewrite H1 in Hcs. injection Hcs as <-.
  rewrite H2 in Hrs. injection Hrs as <-.
  destruct (pitch_track_sign pitch_track) as [Hsign|Hsign].
  - rewrite (Hnone Hsign) in Hsum. injection Hsum as <-.
    eexists. split; [reflexivity|]. split.
    + repeat (constructor; [eexists; reflexivity|]). constructor.
    + left. split; [exact Hsign|reflexivity].
  - destruct (Hsome Hsign) as (ps & lowest & Hps & _ & _ & Heq).
    destruct (filter_positive_cons _ Hsign) as (p & rest & Hfilter & _).
    rewrite Hfilter in Hps.
    pose proof (statistics_cases (p :: rest)) as H3. cbv iota in H3.
    rewrite H3 in Hps. injection Hps as <-.
    rewrite Heq in Hsum. injection Hsum as <-.
    eexists. split; [reflexivity|]. split.
    + repeat (constructor; [eexists; reflexivity|]). constructor.
    + right. split; [exact Hsign|reflexivity].
Qed.

Lemma summary_saved_as_csv_witness :
  exists rows,
    OutputFormatter.save_features savez_keeps_allow_pickle (fun p => p)
      (summary_features
         [("spectral_centroid"%string,
           [("mean"%string, OutputFormatter.mean [1; 3]);
            ("std"%string, OutputFormatter.std [1; 3]);
            ("min"%string, minimum 1 [3]); ("max"%string, maximum 1 [3])]);
          ("rms"%string,
           [("mean"%string, OutputFormatter.mean [2]);
            ("std"%string, OutputFormatter.std [2]);
            ("min"%string, minimum 2 []); ("max"%string, maximum 2 [])]);
          ("tempo"%string, [("value"%string, 120)])])
      "summary" "csv" ∅
    = (Ok (target_path "summary" "csv"),
       <[target_path "summary" "csv" :=
           OutputFormatter.CsvFile ["Feature"; "Value"]%string rows]> ∅)
    /\ Forall
         (fun row =>
            exists x,
              snd row = OutputFormatter.CellValue (OutputFormatter.PyFloat x))
         rows
    /\ ((Forall (fun p => p <= 0) [0]
         /\ map fst rows
            = ["spectral_centroid.mean"; "spectral_centroid.std";
               "spectral_centroid.min"; "spectral_centroid.max";
               "rms.mean"; "rms.std"; "rms.min"; "rms.max";
               "tempo.value"]%string)
        \/ (Exists (fun p => 0 < p) [0]
            /\ map fst rows
               = ["spectral_centroid.mean"; "spectral_centroid.std";
                  "spectral_centroid.min"; "spectral_centroid.max";
                  "rms.mean"; "rms.std"; "rms.min"; "rms.max";
                  "tempo.value"; "pitch.mean"; "pitch.std"; "pitch.min";
                  "pitch.max"]%string)).
Proof.
  apply (summary_saved_as_csv savez_keeps_allow_pickle (fun p => p)
           [1; 3] [2] 120 [0]).
  unfold get_summary_statistics. cbn [List.filter]. unfold positive.
  destruct (Rlt_dec 0 0) as [H|_]; [lra|]. reflexivity.
Defined.

End AnalyzerMore.
